(** * Aragorn: the upload orchestrator and the download streamer

    A shallow embedding of [packages/aragorn-app-main/src/uploaderManager.ts]
    (class [UploaderManager]) and the properties of its two entry points,
    [upload] and [download], of the callers of [upload] and of the file
    management functions.

    How the TypeScript is read:

    - [upload] is an [async] function.  Its body up to [await Promise.all]
      runs synchronously; in particular [files.map] calls [toUpload] for every
      file, and every call of the async arrow function [toUpload] runs until
      its first [await] before [map] moves on to the next file.  This
      synchronous phase is [dispatch] below.
    - After that the only thing that makes progress is the adapter settling
      one of the transfers that are in flight.  One [step] of the model is one
      such settlement together with every promise reaction it triggers (the
      rest of [toUpload], the wake-up of the next task of a sequence, the
      continuation of [Promise.all]): the JavaScript job queue is drained
      before the next I/O completion is looked at.  Which transfer settles
      next is chosen by the environment: a schedule is a list of task
      indices, and entries that name a task that is not in flight are ignored.
    - The adapter is opaque.  What it answers to the transfer of task [i] is
      an oracle [transfer i]: it resolves with a structured response, or it
      rejects (or throws) with an error message.
    - Calls into the other collaborators (settings, history, notifications,
      IPC, clipboard, [changeOptions], [getFileNameByFormat], [mime.lookup],
      [uuidv4], the clock) are total here: they are taken as functions of the
      environment, or recorded as effects in the log.
    - Effects are recorded in a log of [Event]s, in the order in which they
      happen.
    - [download] installs three handlers and waits; the model feeds them the
      events that the response stream and the file writer deliver, in any
      order.  The progress ratio [curLength / totalLength] is kept as an
      exact rational. *)

From Stdlib Require Import QArith.
From Stdlib Require DecimalString.
From stdpp Require Import base tactics option list strings.

Local Open Scope string_scope.
Local Open Scope nat_scope.
Local Open Scope list_scope.

Ltac list_norm := repeat (rewrite <- ?app_assoc; simpl).

Ltac absent H :=
  repeat (apply elem_of_cons in H as [H|H]; [discriminate H|]);
  by apply elem_of_nil in H.

(** ** JavaScript values the code relies on *)

(** The result of [a / b] on two non-negative integers: a rational (kept in
    lowest terms), or what a zero divisor gives. *)
Inductive jsnum : Type :=
  | Fin (q : Q)
  | PosInf
  | NaN.

Definition js_div (a b : N) : jsnum :=
  match b, a with
  | N0, N0 => NaN
  | N0, Npos _ => PosInf
  | Npos d, _ => Fin (Qred (Z.of_N a # d))
  end.

(** Truthiness of an optional string: [undefined] and [''] are falsy. *)
Definition truthy (o : option string) : bool :=
  match o with
  | Some s => negb (String.eqb s "")
  | None => false
  end.

(** [a || b] on optional strings. *)
Definition js_or (a b : option string) : option string :=
  if truthy a then a else b.

(** [a || d] where [d] is a string literal. *)
Definition or_default (a : option string) (d : string) : string :=
  match a with
  | Some s => if String.eqb s "" then d else s
  | None => d
  end.

(** [`${x}`] for an optional string. *)
Definition tmpl (o : option string) : string :=
  match o with
  | Some s => s
  | None => "undefined"
  end.

(** [`${n}`] for a count. *)
Definition show_nat (n : nat) : string :=
  DecimalString.NilEmpty.string_of_uint (Nat.to_uint n).

Definition dquote : string := String (Ascii.ascii_of_nat 34) EmptyString.

(** ** Data model *)

Record FileFormData := {
  originalname : string;
  mimetype : string;
  encoding : string;
  buffer : list Byte.byte;
  fd_size : N;
  fieldname : string
}.

(** [string | FileFormData] *)
Inductive FileInput : Type :=
  | PathFile (path : string)
  | BufferFile (form : FileFormData).

(** [UploadedFileInfo]; the fields are [id], [name], [url], [type],
    [uploaderProfileId], [path], [size], [date] and [errorMessage]. *)
Record UploadedFileInfo := {
  fi_id : option string;
  fi_name : option string;
  fi_url : option string;
  fi_type : string;
  fi_uploaderProfileId : string;
  fi_path : string;
  fi_size : option N;
  fi_date : N;
  fi_errorMessage : option string
}.

(** The part of [UploaderProfile] that [upload] reads. *)
Record UploaderProfile := {
  profile_id : string;
  uploaderName : string;
  uploaderOptions : list (string * string)
}.

Record UploadOptions := {
  files : list FileInput;
  customUploaderProfileId : option string;
  directoryPath : option string;
  isFromFileManage : bool;
  testProfile : option UploaderProfile;
  isTest : bool
}.

(** [this.setting.configuration] *)
Record Configuration := {
  defaultUploaderProfileId : option string;
  proxy : option string;
  rename : bool;
  renameFormat : string;
  urlType : string;
  autoCopy : bool;
  autoRecover : bool;
  showNotifaction : bool;
  sound : bool
}.

(** The object spread into the record of a successful upload
    ([{ ...baseInfo, ...res.data }]): every field it carries replaces the
    one of [baseInfo]. *)
Record ResponseData := {
  d_id : option string;
  d_name : option string;
  d_url : option string;
  d_type : option string;
  d_uploaderProfileId : option string;
  d_path : option string;
  d_size : option N;
  d_date : option N;
  d_errorMessage : option string
}.

(** What [uploader.upload] resolves with. *)
Inductive UploadResponse : Type :=
  | SuccessResponse (data : ResponseData)
  | FailResponse (desc : option string).

(** How the promise returned by [uploader.upload] settles. *)
Inductive Settlement : Type :=
  | Resolves (res : UploadResponse)
  | Rejects (message : string).

(** A backend adapter: its declared batch mode and, for the transfer of
    task [i], the way that transfer ends. *)
Record Uploader := {
  batchUploadMode : string;
  transfer : nat -> Settlement
}.

(** What [uploader.upload] is called with. *)
Record UploadArgs := {
  a_file : string + list Byte.byte;    (* the path, or the buffer *)
  a_fileName : string;
  a_directoryPath : option string;
  a_isFromFileManage : bool
}.

(** Everything [upload] reads from its collaborators. *)
Record World := {
  configuration : Configuration;
  uploaderProfiles : list UploaderProfile;
  getUploaderByName : string -> option Uploader;
  getFileNameByFormat : string -> bool -> string -> string;
  mime_lookup : string -> option string;
  uuidv4 : nat -> string;
  now : nat -> N;
  history_add : list UploadedFileInfo -> list UploadedFileInfo;
  win_isDestroyed : bool;
  clipboard_readText : string;
  typeError_message : string
}.

(** ** Effects *)

Inductive IpcPayload : Type :=
  | NoPayload
  | BoolPayload (b : bool)
  | TextPayload (s : string)
  | FilesPayload (l : list UploadedFileInfo)
  | ProgressPayload (name : string) (progress : jsnum) (key : string).

Inductive Event : Type :=
  | EConfigure (options : list (string * string)) (proxy : option string)
  | EPrepare (index : nat) (info : UploadedFileInfo)
  | ETransferStart (index : nat) (args : UploadArgs)
  | ETransferSettle (index : nat) (s : Settlement)
  | EPushSuccess (index : nat) (info : UploadedFileInfo)
  | EPushFail (index : nat) (info : UploadedFileInfo)
  | EHistoryAdd (records : list UploadedFileInfo)
  | EIpc (channel : string) (payload : IpcPayload)
  | ENotification (title body : string) (silent : bool)
  | EClipboardWrite (text : string)
  | ESetTimeout (ms : N) (restore : string) (silent : bool).

(** What the promise returned by [upload] resolves with. *)
Inductive UploadReturn : Type :=
  | RetFalse
  | RetSuccess (successRes : list UploadedFileInfo)
  | RetUndefined.

Definition t_abnormal : string := "上传操作异常".

Inductive Completion (A : Type) : Type :=
  | Normal (a : A)
  | Throw (message : string).
Arguments Normal {A} a.
Arguments Throw {A} message.

(** ** [upload] *)

Module Upload.

(** Where the promise of one [toUpload] call stands. *)
Inductive TaskStatus : Type :=
  | AwaitPrev                    (* at [await uploadQuence[index - 1]] *)
  | InFlight                     (* at [await uploader.upload(...)] *)
  | Fulfilled
  | Rejected (message : string).

#[global] Instance TaskStatus_eq_dec : EqDecision TaskStatus.
Proof. solve_decision. Defined.

Record State := mkState {
  uploadQuence : list TaskStatus;      (* one entry per [toUpload] promise *)
  successRes : list UploadedFileInfo;
  failRes : list UploadedFileInfo;
  returned : option UploadReturn;      (* [None] while [upload] is suspended *)
  events : list Event                  (* oldest first *)
}.

Definition emit (es : list Event) (st : State) : State :=
  mkState (uploadQuence st) (successRes st) (failRes st) (returned st) (events st ++ es).

Definition set_queue (ts : list TaskStatus) (st : State) : State :=
  mkState ts (successRes st) (failRes st) (returned st) (events st).

Definition set_returned (r : UploadReturn) (st : State) : State :=
  mkState (uploadQuence st) (successRes st) (failRes st) (Some r) (events st).

Definition is_fulfilled (t : TaskStatus) : bool :=
  match t with Fulfilled => true | _ => false end.

Definition is_inflight (t : TaskStatus) : bool :=
  match t with InFlight => true | _ => false end.

(** No transfer is in flight: the environment has nothing left to deliver. *)
Definition quiescent (st : State) : bool :=
  forallb (fun t => negb (is_inflight t)) (uploadQuence st).

Section Orchestrator.

Variable w : World.
Variable o : UploadOptions.

Let cfg : Configuration := configuration w.

(** Lines 109-115. *)
Definition selectProfile : option UploaderProfile :=
  if isTest o then testProfile o
  else
    List.find
      (fun p => bool_decide
         (Some (profile_id p) =
          js_or (customUploaderProfileId o) (defaultUploaderProfileId cfg)))
      (uploaderProfiles w).

(** Lines 117-129: the body of the notification shown when no profile was
    selected. *)
Definition missing_profile_body : string :=
  if truthy (customUploaderProfileId o) then "上传器配置不存在"
  else if 0 <? length (uploaderProfiles w) then "请配置默认的上传器"
  else "请添加上传器配置".

(** Line 135. *)
Definition missing_uploader_body (p : UploaderProfile) : string :=
  "没有找到" +:+ uploaderName p +:+ "上传器".

Definition stopped (body : string) : State :=
  mkState [] [] [] (Some RetFalse) [ENotification t_abnormal body false].

(** [handleBatchUploaded], lines 306-320. *)
Definition handleBatchUploaded (successFilesCount failFilesCount : nat) : list Event :=
  if failFilesCount =? 0 then
    [ENotification "批量上传成功" ("总共" +:+ show_nat successFilesCount +:+ "个文件") false]
  else if successFilesCount =? 0 then
    [ENotification "批量上传失败" ("总共" +:+ show_nat failFilesCount +:+ "个文件") false]
  else
    [ENotification "批量上传结束"
       ("成功" +:+ show_nat successFilesCount +:+ "个，失败" +:+ show_nat failFilesCount +:+ "个")
       false].

(** [handleSingleUploaded], lines 322-373.  The events are in the order in
    which they happen. *)
Definition handleSingleUploaded (successFile failFile : option UploadedFileInfo)
  : Completion (list Event) :=
  match successFile with
  | Some sf =>
      let shaped : option (option string) :=
        if String.eqb (urlType cfg) "URL" then Some (fi_url sf)
        else if String.eqb (urlType cfg) "HTML" then
          Some (Some ("<img src=" +:+ dquote +:+ tmpl (fi_url sf) +:+ dquote +:+ " />"))
        else if String.eqb (urlType cfg) "Markdown" then
          Some (Some ("![" +:+ tmpl (fi_url sf) +:+ "](" +:+ tmpl (fi_url sf) +:+ ")"))
        else None in
      match shaped with
      | None => Normal []
      | Some clipboardUrl =>
          if autoCopy cfg then
            let preClipBoardText :=
              if autoRecover cfg then clipboard_readText w else "" in
            Normal
              ([EClipboardWrite (or_default clipboardUrl "")]
               ++ (if showNotifaction cfg
                   then [ENotification "上传成功" "链接已自动复制到粘贴板" (negb (sound cfg))]
                   else [])
               ++ (if autoRecover cfg
                   then [ESetTimeout 5000 preClipBoardText (negb (sound cfg))]
                   else []))
          else
            Normal
              (if showNotifaction cfg
               then [ENotification "上传成功" (or_default clipboardUrl "") (negb (sound cfg))]
               else [])
      end
  | None =>
      match failFile with
      | Some ff =>
          Normal [ENotification "上传失败" (or_default (fi_errorMessage ff) "错误未捕获") false]
      | None => Throw (typeError_message w)
      end
  end.

(** [handleAddHistory], lines 375-380. *)
Definition handleAddHistory (uploadedData : list UploadedFileInfo) : list Event :=
  EHistoryAdd uploadedData
  :: (if win_isDestroyed w then []
      else [EIpc "uploaded-files-get-reply" (FilesPayload (history_add w uploadedData))]).

(** The [catch] block of [upload], lines 208-215. *)
Definition catch_block (message : string) (st : State) : State :=
  set_returned RetUndefined
    (emit
       ((if isTest o then [EIpc "uploader-profile-test-reply" (BoolPayload false)] else [])
        ++ [ENotification t_abnormal message false])
       st).

(** Lines 189-207: what [upload] does once [await Promise.all(promises)]
    has returned. *)
Definition after_join (st : State) : State :=
  let st1 :=
    emit
      (handleAddHistory (failRes st ++ successRes st)
       ++ (if isFromFileManage o then [EIpc "file-upload-reply" NoPayload] else [])
       ++ (if isTest o
           then [EIpc "uploader-profile-test-reply"
                      (BoolPayload (0 <? length (successRes st)))]
           else []))
      st in
  if 1 <? length (files o) then
    set_returned (RetSuccess (successRes st))
      (emit (handleBatchUploaded (length (successRes st)) (length (failRes st))) st1)
  else
    match handleSingleUploaded (head (successRes st)) (head (failRes st)) with
    | Normal es => set_returned (RetSuccess (successRes st)) (emit es st1)
    | Throw message => catch_block message st1
    end.

(** [Promise.all] fulfils once every task promise is fulfilled. *)
Definition join (st : State) : State :=
  match returned st with
  | Some _ => st
  | None => if forallb is_fulfilled (uploadQuence st) then after_join st else st
  end.

(** [Promise.all] rejects with the first rejection; later ones are ignored. *)
Definition join_rejected (message : string) (st : State) : State :=
  match returned st with
  | Some _ => st
  | None => catch_block message st
  end.

Section Batch.

Variable profile : UploaderProfile.
Variable up : Uploader.

(** Line 164: does task [index] wait for its predecessor? *)
Definition sequenced (index : nat) : bool :=
  String.eqb (batchUploadMode up) "Sequence" && (0 <? index).

Definition source_name (file : FileInput) : string :=
  match file with
  | PathFile p => p
  | BufferFile f => originalname f
  end.

(** Lines 149-153. *)
Definition fileName (file : FileInput) : string :=
  getFileNameByFormat w (source_name file) (rename cfg) (renameFormat cfg).

(** Line 154. *)
Definition fileType (file : FileInput) : string :=
  match file with
  | PathFile p => or_default (mime_lookup w p) "-"
  | BufferFile f => mimetype f
  end.

(** Lines 155-162. *)
Definition baseInfo (index : nat) (file : FileInput) : UploadedFileInfo :=
  {| fi_id := Some (uuidv4 w index);
     fi_name := Some (fileName file);
     fi_url := None;
     fi_type := fileType file;
     fi_uploaderProfileId := profile_id profile;
     fi_path := match file with PathFile p => p | BufferFile _ => "" end;
     fi_size := None;
     fi_date := now w index;
     fi_errorMessage := None |}.

(** Lines 168-173: the argument of [uploader.upload]. *)
Definition uploadArgs (file : FileInput) : UploadArgs :=
  {| a_file := match file with
               | PathFile p => inl p
               | BufferFile f => inr (buffer f)
               end;
     a_fileName := fileName file;
     a_directoryPath := directoryPath o;
     a_isFromFileManage := isFromFileManage o |}.

(** [{ ...baseInfo, ...res.data }] *)
Definition spread (b : UploadedFileInfo) (d : ResponseData) : UploadedFileInfo :=
  {| fi_id := match d_id d with Some x => Some x | None => fi_id b end;
     fi_name := match d_name d with Some x => Some x | None => fi_name b end;
     fi_url := match d_url d with Some x => Some x | None => fi_url b end;
     fi_type := default (fi_type b) (d_type d);
     fi_uploaderProfileId := default (fi_uploaderProfileId b) (d_uploaderProfileId d);
     fi_path := default (fi_path b) (d_path d);
     fi_size := match d_size d with Some x => Some x | None => fi_size b end;
     fi_date := default (fi_date b) (d_date d);
     fi_errorMessage :=
       match d_errorMessage d with Some x => Some x | None => fi_errorMessage b end |}.

(** [{ ...baseInfo, errorMessage: res.desc }] *)
Definition failed (b : UploadedFileInfo) (desc : option string) : UploadedFileInfo :=
  {| fi_id := fi_id b; fi_name := fi_name b; fi_url := fi_url b;
     fi_type := fi_type b; fi_uploaderProfileId := fi_uploaderProfileId b;
     fi_path := fi_path b; fi_size := fi_size b; fi_date := fi_date b;
     fi_errorMessage := desc |}.

(** [toUpload] from its call to its first [await] (lines 148-168), followed
    by [uploadQuence.push(res)]. *)
Definition toUpload_begin (index : nat) (file : FileInput) (st : State) : State :=
  let st1 := emit [EPrepare index (baseInfo index file)] st in
  if sequenced index then
    set_queue (uploadQuence st1 ++ [AwaitPrev]) st1
  else
    set_queue (uploadQuence st1 ++ [InFlight])
      (emit [ETransferStart index (uploadArgs file)] st1).

(** [files.map((file, index) => ...)], lines 181-185. *)
Fixpoint dispatch (index : nat) (fs : list FileInput) (st : State) : State :=
  match fs with
  | [] => st
  | file :: rest => dispatch (S index) rest (toUpload_begin index file st)
  end.

(** [toUpload] after [await uploader.upload(...)] has returned [res]
    (lines 174-178). *)
Definition toUpload_finish (index : nat) (file : FileInput) (res : UploadResponse)
    (st : State) : State :=
  match res with
  | SuccessResponse data =>
      let r := spread (baseInfo index file) data in
      mkState (<[index := Fulfilled]> (uploadQuence st)) (successRes st ++ [r]) (failRes st)
              (returned st) (events st ++ [EPushSuccess index r])
  | FailResponse desc =>
      let r := failed (baseInfo index file) desc in
      mkState (<[index := Fulfilled]> (uploadQuence st)) (successRes st) (failRes st ++ [r])
              (returned st) (events st ++ [EPushFail index r])
  end.

(** Task [next] resumes from [await uploadQuence[next - 1]] after the
    predecessor was fulfilled, and calls the adapter (line 168). *)
Definition wake (next : nat) (st : State) : State :=
  match uploadQuence st !! next, files o !! next with
  | Some AwaitPrev, Some file =>
      emit [ETransferStart next (uploadArgs file)]
           (set_queue (<[next := InFlight]> (uploadQuence st)) st)
  | _, _ => st
  end.

(** The tasks waiting in a row behind a rejected one are rejected with the
    same error: [await] rethrows it in each of them in turn. *)
Fixpoint cascade (message : string) (ts : list TaskStatus) : list TaskStatus :=
  match ts with
  | AwaitPrev :: rest => Rejected message :: cascade message rest
  | _ => ts
  end.

Definition reject (index : nat) (message : string) (ts : list TaskStatus)
  : list TaskStatus :=
  take index ts ++ Rejected message :: cascade message (drop (S index) ts).

(** The adapter settles the transfer of task [index]; every reaction to it
    runs before anything else happens. *)
Definition step (index : nat) (st : State) : State :=
  match uploadQuence st !! index, files o !! index with
  | Some InFlight, Some file =>
      let st1 := emit [ETransferSettle index (transfer up index)] st in
      match transfer up index with
      | Resolves res => join (wake (S index) (toUpload_finish index file res st1))
      | Rejects message =>
          join_rejected message (set_queue (reject index message (uploadQuence st1)) st1)
      end
  | _, _ => st
  end.

Definition run (schedule : list nat) (st : State) : State :=
  foldl (fun s i => step i s) st schedule.

(** Lines 141-187: the adapter is configured, the tasks are dispatched and
    [upload] waits for all of them. *)
Definition start : State :=
  join (dispatch 0 (files o)
          (mkState [] [] [] None
             [EConfigure (uploaderOptions profile) (proxy cfg)])).

End Batch.

(** [upload(uploadOptions)] under a schedule of settlements. *)
Definition upload (schedule : list nat) : State :=
  match selectProfile with
  | None => stopped missing_profile_body
  | Some profile =>
      match getUploaderByName w (uploaderName profile) with
      | None => stopped (missing_uploader_body profile)
      | Some up => run profile up schedule (start profile up)
      end
  end.

End Orchestrator.

End Upload.

(** ** [download] *)

Module Download.

(** What the two streams deliver to the handlers installed by [download]:
    a chunk on the response stream, and ['error'] or ['close'] on the
    writer. *)
Inductive StreamEvent : Type :=
  | Data (chunk_length : N)
  | WriterError (message : string)
  | WriterClose.

(** How [axios.get] ends: its promise rejects, or it resolves with a response
    whose [content-length] header may be absent and whose streams then fire
    the given events. *)
Inductive Response : Type :=
  | RequestFails (message : string)
  | Streams (totalLength : option N) (evs : list StreamEvent).

Record State := mkState {
  curLength : N;
  error : option string;      (* the local [error] *)
  settled : bool;             (* the promise was resolved or rejected *)
  sent : list Event           (* oldest first *)
}.

Definition send (channel : string) (p : IpcPayload) (st : State) : State :=
  mkState (curLength st) (error st) (settled st) (sent st ++ [EIpc channel p]).

(** The [catch] block, lines 286-289. *)
Definition catch_block (message : string) (st : State) : State :=
  send "file-download-reply" (TextPayload (or_default (Some message) "下载失败")) st.

(** [reject(err)]: the first settlement wins, and [await] then throws into
    the [catch] block. *)
Definition reject (message : string) (st : State) : State :=
  if settled st then st
  else catch_block message (mkState (curLength st) (error st) true (sent st)).

(** [resolve()] *)
Definition resolve (st : State) : State :=
  mkState (curLength st) (error st) true (sent st).

Section Handlers.

Variable name : string.
Variable totalLength : option N.

(** Lines 263-269. *)
Definition on_data (chunk_length : N) (st : State) : State :=
  let st1 := mkState (curLength st + chunk_length)%N (error st) (settled st) (sent st) in
  match totalLength with
  | Some total =>
      send "file-download-progress"
           (ProgressPayload name (js_div (curLength st1) total) name) st1
  | None => st1
  end.

(** Lines 271-275.  [writer.close()] makes the writer fire ['close'] later
    on: that event is one of those the environment delivers. *)
Definition on_error (message : string) (st : State) : State :=
  reject message (mkState (curLength st) (Some message) (settled st) (sent st)).

(** Lines 276-282. *)
Definition on_close (st : State) : State :=
  match error st with
  | Some _ => st
  | None =>
      resolve
        (match totalLength with
         | None => send "file-download-reply" NoPayload st
         | Some _ => st
         end)
  end.

Definition handle (ev : StreamEvent) (st : State) : State :=
  match ev with
  | Data n => on_data n st
  | WriterError message => on_error message st
  | WriterClose => on_close st
  end.

Definition pump (evs : list StreamEvent) (st : State) : State :=
  foldl (fun s ev => handle ev s) st evs.

End Handlers.

Definition initial : State := mkState 0 None false [].

(** [download(name, url)]: the messages sent, in the order in which they
    are sent. *)
Definition download (name : string) (r : Response) : list Event :=
  match r with
  | RequestFails message => sent (reject message initial)
  | Streams totalLength evs => sent (pump name totalLength evs initial)
  end.

(** The progress messages: ['file-download-progress']. *)
Definition is_progress (e : Event) : bool :=
  match e with
  | EIpc channel _ => String.eqb channel "file-download-progress"
  | _ => false
  end.

(** The terminal messages: ['file-download-reply'], with no payload for
    "done" and with the error text otherwise. *)
Definition is_terminal (e : Event) : bool :=
  match e with
  | EIpc channel _ => String.eqb channel "file-download-reply"
  | _ => false
  end.

Definition done : Event := EIpc "file-download-reply" NoPayload.

(** The byte counts after each chunk, starting from [cur]. *)
Fixpoint received (cur : N) (evs : list StreamEvent) : list N :=
  match evs with
  | [] => []
  | Data n :: rest => (cur + n)%N :: received (cur + n)%N rest
  | _ :: rest => received cur rest
  end.

(** The progress message for [c] bytes received out of [total]. *)
Definition progress_msg (name : string) (total c : N) : Event :=
  EIpc "file-download-progress" (ProgressPayload name (js_div c total) name).

Definition terminals (out : list Event) : list Event :=
  List.filter is_terminal out.

Definition is_close (ev : StreamEvent) : bool :=
  match ev with WriterClose => true | _ => false end.

Definition is_error (ev : StreamEvent) : bool :=
  match ev with WriterError _ => true | _ => false end.

(** How often the writer fires ['close']. *)
Definition closes (evs : list StreamEvent) : nat :=
  length (List.filter is_close evs).

End Download.

(** ** Reading the log *)

Import Upload.

Definition is_prepare (e : Event) : bool :=
  match e with EPrepare _ _ => true | _ => false end.

Definition is_history (e : Event) : bool :=
  match e with EHistoryAdd _ => true | _ => false end.

Definition is_notification (e : Event) : bool :=
  match e with ENotification _ _ _ => true | _ => false end.

(** What happens up to the join: the configuration of the adapter and the
    events of the single tasks. *)
Definition task_event (e : Event) : bool :=
  match e with
  | EConfigure _ _ | EPrepare _ _ | ETransferStart _ _ | ETransferSettle _ _
  | EPushSuccess _ _ | EPushFail _ _ => true
  | _ => false
  end.

(** What [upload] shows or sends once the batch is over. *)
Definition presentation (e : Event) : bool :=
  match e with
  | EIpc _ _ | ENotification _ _ _ | EClipboardWrite _ | ESetTimeout _ _ _ => true
  | _ => false
  end.

(** The kind of an event and the task it belongs to, for reading a log at a
    glance. *)
Definition tag (e : Event) : string * option nat :=
  match e with
  | EConfigure _ _ => ("configure", None)
  | EPrepare i _ => ("prepare", Some i)
  | ETransferStart i _ => ("transfer starts", Some i)
  | ETransferSettle i _ => ("transfer settles", Some i)
  | EPushSuccess i _ => ("success recorded", Some i)
  | EPushFail i _ => ("failure recorded", Some i)
  | EHistoryAdd _ => ("history", None)
  | EIpc _ _ => ("ipc", None)
  | ENotification _ _ _ => ("notification", None)
  | EClipboardWrite _ => ("clipboard", None)
  | ESetTimeout _ _ _ => ("timer", None)
  end.

(** The tasks whose transfer was invoked, in the order of invocation. *)
Definition starts (ev : list Event) : list nat :=
  omap (fun e => match e with ETransferStart i _ => Some i | _ => None end) ev.

(** The tasks that recorded an outcome, in the order of recording. *)
Definition pushed (ev : list Event) : list nat :=
  omap (fun e => match e with
                 | EPushSuccess i _ | EPushFail i _ => Some i
                 | _ => None
                 end) ev.

(** Every invocation of the transfer of a task other than the first comes
    after the settlement of the transfer of the task before it. *)
Definition guarded (ev : list Event) : Prop :=
  forall before i args after,
    ev = before ++ ETransferStart (S i) args :: after ->
    exists s, ETransferSettle i s ∈ before.

Section Expected.

Variable w : World.
Variable o : UploadOptions.
Variable profile : UploaderProfile.
Variable up : Uploader.

(** What [files.map] leaves in the log. *)
Fixpoint sync_events (index : nat) (fs : list FileInput) : list Event :=
  match fs with
  | [] => []
  | file :: rest =>
      EPrepare index (baseInfo w profile index file)
      :: (if sequenced up index then []
          else [ETransferStart index (uploadArgs w o file)])
      ++ sync_events (S index) rest
  end.

Definition initial_status (index : nat) : TaskStatus :=
  if sequenced up index then AwaitPrev else InFlight.

(** The record task [j] pushes to [successRes], if its transfer succeeds. *)
Definition success_record (j : nat) : option UploadedFileInfo :=
  match files o !! j, transfer up j with
  | Some file, Resolves (SuccessResponse data) =>
      Some (spread (baseInfo w profile j file) data)
  | _, _ => None
  end.

(** The record task [j] pushes to [failRes], if its transfer fails. *)
Definition failure_record (j : nat) : option UploadedFileInfo :=
  match files o !! j, transfer up j with
  | Some file, Resolves (FailResponse desc) =>
      Some (failed (baseInfo w profile j file) desc)
  | _, _ => None
  end.

(** The one record of task [j], if its transfer ends in a response. *)
Definition outcome_record (j : nat) : option UploadedFileInfo :=
  match success_record j with
  | Some r => Some r
  | None => failure_record j
  end.

Definition resolves (s : Settlement) : bool :=
  match s with Resolves _ => true | Rejects _ => false end.

(** The adapter answers every transfer of the batch with a structured
    response: it never rejects. *)
Definition structured : bool :=
  forallb (fun j => resolves (transfer up j)) (seq 0 (length (files o))).

Definition catch_events (message : string) : list Event :=
  (if isTest o then [EIpc "uploader-profile-test-reply" (BoolPayload false)] else [])
  ++ [ENotification t_abnormal message false].

(** What lines 189-207 add to the log, given the two result arrays. *)
Definition join_events (succ fail : list UploadedFileInfo) : list Event :=
  handleAddHistory w (fail ++ succ)
  ++ (if isFromFileManage o then [EIpc "file-upload-reply" NoPayload] else [])
  ++ (if isTest o
      then [EIpc "uploader-profile-test-reply" (BoolPayload (0 <? length succ))]
      else [])
  ++ (if 1 <? length (files o) then handleBatchUploaded (length succ) (length fail)
      else match handleSingleUploaded w (head succ) (head fail) with
           | Normal es => es
           | Throw message => catch_events message
           end).

Definition join_return (succ fail : list UploadedFileInfo) : UploadReturn :=
  if 1 <? length (files o) then RetSuccess succ
  else match handleSingleUploaded w (head succ) (head fail) with
       | Normal _ => RetSuccess succ
       | Throw _ => RetUndefined
       end.

(** *** Invariants of the run *)

(** The state [files.map] leaves behind. *)
Definition dispatched : State :=
  mkState (initial_status <$> seq 0 (length (files o))) [] [] None
          (EConfigure (uploaderOptions profile) (proxy (configuration w))
           :: sync_events 0 (files o)).

(** The state after the transfer of task [i] resolved with [res], before
    [Promise.all] reacts. *)
Definition resolved (i : nat) (file : FileInput) (res : UploadResponse)
    (st : State) : State :=
  wake w o (S i)
    (toUpload_finish w profile i file res
       (emit [ETransferSettle i (transfer up i)] st)).

(** What holds of the tasks and of the log in every reachable state. *)
Record core (st : State) : Prop := {
  core_len : length (uploadQuence st) = length (files o);
  core_prep :
    exists rest,
      events st = EConfigure (uploaderOptions profile) (proxy (configuration w))
                  :: sync_events 0 (files o) ++ rest
      /\ Forall (fun e => is_prepare e = false) rest;
  core_guard : batchUploadMode up = "Sequence" -> guarded (events st);
  core_order :
    exists k,
      starts (events st) = seq 0 k
      /\ (forall j, uploadQuence st !! j = Some InFlight -> j < k)
      /\ (forall j, uploadQuence st !! j = Some AwaitPrev -> k <= j);
  core_nodup : NoDup (pushed (events st));
  core_done : forall j, j ∈ pushed (events st) <-> uploadQuence st !! j = Some Fulfilled;
  core_succ : successRes st = omap success_record (pushed (events st));
  core_fail : failRes st = omap failure_record (pushed (events st));
  core_settled :
    forall j, uploadQuence st !! j = Some Fulfilled ->
              ETransferSettle j (transfer up j) ∈ events st
              /\ exists res, transfer up j = Resolves res
}.

(** Where [upload] itself stands: it waits, or it went on after
    [Promise.all] was fulfilled, or it went to its [catch] block. *)
Record joinv (st : State) : Prop := {
  jv_waiting :
    returned st = None ->
    forallb is_fulfilled (uploadQuence st) = false
    /\ Forall (fun e => task_event e = true) (events st)
    /\ forall j m, uploadQuence st !! j <> Some (Rejected m);
  jv_joined :
    forall r, returned st = Some r ->
    (forallb is_fulfilled (uploadQuence st) = true
     /\ r = join_return (successRes st) (failRes st)
     /\ exists pre,
         events st = pre ++ join_events (successRes st) (failRes st)
         /\ Forall (fun e => task_event e = true) pre)
    \/ (r = RetUndefined
        /\ exists j m pre post,
            uploadQuence st !! j = Some (Rejected m)
            /\ events st = pre ++ catch_events m ++ post
            /\ Forall (fun e => task_event e = true) pre
            /\ Forall (fun e => task_event e = true) post)
}.

(** No task is rejected, and a task that still waits has a predecessor that
    has not settled. *)
Record sinv (st : State) : Prop := {
  sv_norej : forall j m, uploadQuence st !! j <> Some (Rejected m);
  sv_head : uploadQuence st !! 0 <> Some AwaitPrev;
  sv_chain :
    forall j, uploadQuence st !! S j = Some AwaitPrev ->
              uploadQuence st !! j = Some InFlight \/ uploadQuence st !! j = Some AwaitPrev
}.

End Expected.

(** ** The properties as the specification words them *)

Section Stated.

Variable w : World.
Variable o : UploadOptions.

(** "A single task's failure must never prevent other tasks from completing
    or being recorded", an adapter fault being "converted to a TaskFailure":
    once nothing is in flight any more, every task of the batch has recorded
    an outcome, and the outcomes were written to the history. *)
Definition faults_isolated : Prop :=
  forall schedule,
    let st := upload w o schedule in
    quiescent st = true ->
    (forall j, j < length (files o) -> j ∈ pushed (events st))
    /\ exists records, EHistoryAdd records ∈ events st.

(** "History/notification side effects fire exactly once per call, after all
    tasks settle." *)
Definition batch_effects_once : Prop :=
  forall schedule,
    let st := upload w o schedule in
    quiescent st = true ->
    length (List.filter is_history (events st)) = 1.

(** "This must complete for every task before any task is allowed to begin
    its asynchronous transfer." *)
Definition prepared_before_transfers : Prop :=
  forall schedule before i args after,
    events (upload w o schedule) = before ++ ETransferStart i args :: after ->
    forall j, j < length (files o) -> exists info, EPrepare j info ∈ before.

(** "The sum of successes and failures equals N." *)
Definition one_outcome_each : Prop :=
  forall schedule,
    let st := upload w o schedule in
    quiescent st = true ->
    length (successRes st) + length (failRes st) = length (files o).

(** "If a test profile is supplied, it always wins.  Otherwise select the
    profile whose id equals the explicit id if given, else the default
    id." *)
Definition test_profile_wins : Prop :=
  match testProfile o with
  | Some tp => selectProfile w o = Some tp
  | None =>
      selectProfile w o =
      List.find
        (fun p => bool_decide
           (Some (profile_id p) =
            js_or (customUploaderProfileId o)
                  (defaultUploaderProfileId (configuration w))))
        (uploaderProfiles w)
  end.

End Stated.

(** ** Sample requests *)

Module Sample.

Definition settings : Configuration :=
  {| defaultUploaderProfileId := Some "p1";
     proxy := None;
     rename := false;
     renameFormat := "{fileName}";
     urlType := "URL";
     autoCopy := false;
     autoRecover := false;
     showNotifaction := true;
     sound := true |}.

Definition oss : UploaderProfile :=
  {| profile_id := "p1"; uploaderName := "oss"; uploaderOptions := [] |}.

Definition link : ResponseData :=
  {| d_id := None; d_name := None; d_url := Some "https://cdn.example.com/f";
     d_type := None; d_uploaderProfileId := None; d_path := None;
     d_size := None; d_date := None; d_errorMessage := None |}.

(** A world with one profile, [oss], and at most one registered adapter. *)
Definition world (adapter : option Uploader) : World :=
  {| configuration := settings;
     uploaderProfiles := [oss];
     getUploaderByName := fun name => if String.eqb name "oss" then adapter else None;
     getFileNameByFormat := fun name _ _ => name;
     mime_lookup := fun path => if String.eqb path "a.png" then Some "image/png" else None;
     uuidv4 := fun i => "id-" +:+ show_nat i;
     now := fun i => N.of_nat (1000 + i);
     history_add := fun l => l;
     win_isDestroyed := false;
     clipboard_readText := "";
     typeError_message := "Cannot read property 'errorMessage' of undefined" |}.

Definition ok : Settlement := Resolves (SuccessResponse link).

(** The transfer of the first file throws; the others succeed. *)
Definition first_throws (i : nat) : Settlement :=
  match i with 0 => Rejects "socket hang up" | _ => ok end.

(** The transfer of the second file reports a failure; the others succeed. *)
Definition second_fails (i : nat) : Settlement :=
  match i with 1 => Resolves (FailResponse (Some "quota exceeded")) | _ => ok end.

Definition parallel (answers : nat -> Settlement) : Uploader :=
  {| batchUploadMode := "Parallel"; transfer := answers |}.

Definition sequence (answers : nat -> Settlement) : Uploader :=
  {| batchUploadMode := "Sequence"; transfer := answers |}.

Definition request (fs : list FileInput) : UploadOptions :=
  {| files := fs; customUploaderProfileId := None; directoryPath := None;
     isFromFileManage := false; testProfile := None; isTest := false |}.

Definition two : list FileInput := [PathFile "a.png"; PathFile "b.txt"].

Definition three : list FileInput :=
  [PathFile "a.png"; PathFile "b.txt"; PathFile "c.bin"].

(** A request that carries a test profile but is not flagged as a test. *)
Definition unflagged_test : UploadOptions :=
  {| files := two; customUploaderProfileId := None; directoryPath := None;
     isFromFileManage := false;
     testProfile := Some {| profile_id := "t"; uploaderName := "oss";
                            uploaderOptions := [] |};
     isTest := false |}.

(** The request [handleUploadTest] makes for a candidate profile. *)
Definition test_request : UploadOptions :=
  {| files := [PathFile "icon.png"]; customUploaderProfileId := Some "p1";
     directoryPath := Some "aragorn-upload-test"; isFromFileManage := false;
     testProfile := Some {| profile_id := "t"; uploaderName := "oss";
                            uploaderOptions := [] |};
     isTest := true |}.

(** A request for a profile that does not exist. *)
Definition unknown_profile : UploadOptions :=
  {| files := two; customUploaderProfileId := Some "nope"; directoryPath := None;
     isFromFileManage := false; testProfile := None; isTest := false |}.

Definition seq_world : World := world (Some (sequence second_fails)).

Definition par_world : World := world (Some (parallel second_fails)).

End Sample.

(** ** The callers of [upload] *)

(** The request [handleUploadTest] builds, lines 90-95.  [iconPath] is what
    [path.resolve(__dirname, '../assets/icon.png')] evaluates to. *)
Definition handleUploadTest_options (iconPath : string) (candidate : UploaderProfile)
  : UploadOptions :=
  {| files := [PathFile iconPath];
     customUploaderProfileId := None;
     directoryPath := Some "aragorn-upload-test";
     isFromFileManage := false;
     testProfile := Some candidate;
     isTest := true |}.

(** [handleUploadTest(testProfile)], lines 88-97. *)
Definition handleUploadTest (w : World) (iconPath : string)
    (candidate : UploaderProfile) (schedule : list nat) : State :=
  upload w (handleUploadTest_options iconPath candidate) schedule.

(** An element of the argument of [uploadByDifferentUploaderProfileIds]:
    [{ id, path }]. *)
Record DataItem := {
  item_id : string;
  item_path : string
}.

(** [[...new Set(l)]]: the values of [l] in the order of their first
    occurrence. *)
Definition js_set (l : list string) : list string :=
  foldl (fun acc x => if bool_decide (x ∈ acc) then acc else acc ++ [x]) [] l.

(** Lines 75-82: one group of paths per profile id. *)
Definition newData (data : list DataItem) : list (string * list string) :=
  (fun id =>
     (id, item_path <$> List.filter (fun item => String.eqb (item_id item) id) data))
  <$> js_set (item_id <$> data).

(** Line 84: the request made for one group. *)
Definition group_request (group : string * list string) : UploadOptions :=
  {| files := PathFile <$> group.2;
     customUploaderProfileId := Some group.1;
     directoryPath := None;
     isFromFileManage := false;
     testProfile := None;
     isTest := false |}.

(** [uploadByDifferentUploaderProfileIds(data)], lines 74-86: the [upload]
    calls it makes, in the order in which it makes them.  The calls are not
    awaited. *)
Definition uploadByDifferentUploaderProfileIds (data : list DataItem)
  : list UploadOptions :=
  group_request <$> newData data.

(** ** File management: [getUploader], [getFileList], [deleteFile],
    [createDirectory] *)

Module Manage.

Section Capabilities.

(** What the optional methods of an adapter return. *)
Variable R : Type.

(** How the promise returned by an optional method settles. *)
Inductive Answer : Type :=
  | Returns (res : R)
  | Throws (message : string).

(** The optional methods of an adapter. *)
Record Extras := {
  getFileList_method : option (option string -> Answer);
  deleteFile_method : option (list string -> Answer);
  createDirectory_method : option (string -> Answer)
}.

Inductive Effect : Type :=
  | Configure (options : list (string * string)) (proxy : option string)
  | Send (channel : string) (payload : option R)
  | Unhandled (message : string).     (* the promise of the call rejects *)

Variable w : World.

(** The optional methods of the adapter of a profile. *)
Variable extras : UploaderProfile -> Extras.

(** [getUploader(id)], lines 292-304: the adapter, with the profile it was
    configured for, and the configuration as an effect. *)
Definition getUploader (id : string)
  : option (UploaderProfile * Uploader) * list Effect :=
  match List.find (fun p => String.eqb (profile_id p) id) (uploaderProfiles w) with
  | None => (None, [])
  | Some p =>
      match getUploaderByName w (uploaderName p) with
      | Some u => (Some (p, u), [Configure (uploaderOptions p) (proxy (configuration w))])
      | None => (None, [])
      end
  end.

(** The common shape of lines 221-226, 232-237 and 243-248: call the method
    if the adapter has it and send what it returns, else send an empty
    reply. *)
Definition forward (channel : string) (u : option (UploaderProfile * Uploader))
    (call : Extras -> option Answer) : list Effect :=
  match u with
  | Some (p, _) =>
      match call (extras p) with
      | Some (Returns res) => [Send channel (Some res)]
      | Some (Throws message) => [Unhandled message]
      | None => [Send channel None]
      end
  | None => [Send channel None]
  end.

(** [getFileList(uploaderProfileId, directoryPath)], lines 218-227. *)
Definition getFileList (uploaderProfileId : string) (directoryPath : option string)
  : list Effect :=
  let '(u, configured) := getUploader uploaderProfileId in
  configured
  ++ forward "file-list-get-reply" u
       (fun e => (fun f => f directoryPath) <$> getFileList_method e).

(** [deleteFile(uploaderProfileId, fileNames)], lines 229-238. *)
Definition deleteFile (uploaderProfileId : string) (fileNames : list string)
  : list Effect :=
  let '(u, configured) := getUploader uploaderProfileId in
  configured
  ++ forward "file-delete-reply" u
       (fun e => (fun f => f fileNames) <$> deleteFile_method e).

(** [createDirectory(uploaderProfileId, directoryPath)], lines 240-249. *)
Definition createDirectory (uploaderProfileId : string) (directoryPath : string)
  : list Effect :=
  let '(u, configured) := getUploader uploaderProfileId in
  configured
  ++ forward "directory-create-reply" u
       (fun e => (fun f => f directoryPath) <$> createDirectory_method e).

Definition sends (es : list Effect) : list (string * option R) :=
  omap (fun e => match e with Send c p => Some (c, p) | _ => None end) es.

Definition configures (es : list Effect) : nat :=
  length (List.filter (fun e => match e with Configure _ _ => true | _ => false end) es).

End Capabilities.

End Manage.

(** ** More ways to read the logs *)

Definition is_test_reply (e : Event) : bool :=
  match e with
  | EIpc channel _ => String.eqb channel "uploader-profile-test-reply"
  | _ => false
  end.

Definition is_history_reply (e : Event) : bool :=
  match e with
  | EIpc channel _ => String.eqb channel "uploaded-files-get-reply"
  | _ => false
  end.

Definition is_file_upload_reply (e : Event) : bool :=
  match e with
  | EIpc channel _ => String.eqb channel "file-upload-reply"
  | _ => false
  end.

Definition is_clipboard (e : Event) : bool :=
  match e with EClipboardWrite _ | ESetTimeout _ _ _ => true | _ => false end.

(** The content of the clipboard after the writes of a log. *)
Definition clipboard_after (before : string) (es : list Event) : string :=
  foldl (fun c e => match e with EClipboardWrite t => t | _ => c end) before es.

(** What the callback given to [setTimeout] does when it runs, lines
    352-360. *)
Definition timer_fires (e : Event) : list Event :=
  match e with
  | ESetTimeout _ restore silent =>
      [EClipboardWrite restore;
       ENotification "粘贴板已恢复" "已自动恢复上次粘贴板中的内容" silent]
  | _ => []
  end.

(** The three link formats [handleSingleUploaded] knows. *)
Definition known_urlType (t : string) : bool :=
  String.eqb t "URL" || String.eqb t "HTML" || String.eqb t "Markdown".

(** The link as [handleSingleUploaded] shapes it for a known format, before
    [|| ''] is applied. *)
Definition shaped_link (t : string) (url : option string) : option string :=
  if String.eqb t "URL" then url
  else if String.eqb t "HTML" then
    Some ("<img src=" +:+ dquote +:+ tmpl url +:+ dquote +:+ " />")
  else Some ("![" +:+ tmpl url +:+ "](" +:+ tmpl url +:+ ")").

(** Which of the writer's ['error'] and ['close'] comes first, if any. *)
Fixpoint first_settlement (evs : list Download.StreamEvent) : option (option string) :=
  match evs with
  | [] => None
  | Download.Data _ :: rest => first_settlement rest
  | Download.WriterError message :: _ => Some (Some message)
  | Download.WriterClose :: _ => Some None
  end.

Definition error_reply (message : string) : Event :=
  EIpc "file-download-reply" (TextPayload (or_default (Some message) "下载失败")).

(** ** More sample data *)

Module Sample2.

Definition badge : UploaderProfile :=
  {| profile_id := "p2"; uploaderName := "ftp"; uploaderOptions := [("host", "h")] |}.

(** Two profiles; the adapters [oss] and [ftp] are both the given one. *)
Definition world2 (adapter : option Uploader) : World :=
  {| configuration := Sample.settings;
     uploaderProfiles := [Sample.oss; badge];
     getUploaderByName := fun _ => adapter;
     getFileNameByFormat := fun name _ _ => name;
     mime_lookup := fun _ => None;
     uuidv4 := fun i => "id-" +:+ show_nat i;
     now := fun i => N.of_nat i;
     history_add := fun l => l;
     win_isDestroyed := false;
     clipboard_readText := "previous text";
     typeError_message := "Cannot read property 'errorMessage' of undefined" |}.

Definition items : list DataItem :=
  [{| item_id := "p2"; item_path := "a" |};
   {| item_id := "p1"; item_path := "b" |};
   {| item_id := "p2"; item_path := "c" |}].

(** Settings with which a link is copied and the clipboard is restored,
    without any notification of the upload. *)
Definition copy_settings : Configuration :=
  {| defaultUploaderProfileId := Some "p1";
     proxy := None;
     rename := false;
     renameFormat := "{fileName}";
     urlType := "Markdown";
     autoCopy := true;
     autoRecover := true;
     showNotifaction := false;
     sound := true |}.

(** Settings with a link format that [handleSingleUploaded] does not know. *)
Definition odd_settings : Configuration :=
  {| defaultUploaderProfileId := Some "p1";
     proxy := None;
     rename := false;
     renameFormat := "{fileName}";
     urlType := "BBCode";
     autoCopy := true;
     autoRecover := true;
     showNotifaction := true;
     sound := true |}.

Definition with_settings (c : Configuration) (adapter : Uploader) : World :=
  {| configuration := c;
     uploaderProfiles := [Sample.oss];
     getUploaderByName := fun _ => Some adapter;
     getFileNameByFormat := fun name _ _ => name;
     mime_lookup := fun _ => None;
     uuidv4 := fun i => "id-" +:+ show_nat i;
     now := fun i => N.of_nat i;
     history_add := fun l => l;
     win_isDestroyed := false;
     clipboard_readText := "previous text";
     typeError_message := "Cannot read property 'errorMessage' of undefined" |}.

Definition one : list FileInput := [PathFile "a.png"].

(** A request of the file manager. *)
Definition managed (fs : list FileInput) : UploadOptions :=
  {| files := fs; customUploaderProfileId := Some "p1"; directoryPath := Some "pics";
     isFromFileManage := true; testProfile := None; isTest := false |}.

(** Every transfer reports a failure. *)
Definition refuses (i : nat) : Settlement := Resolves (FailResponse None).

(** An adapter that can list files and nothing else. *)
Definition lister (p : UploaderProfile) : Manage.Extras (list string) :=
  {| Manage.getFileList_method := Some (fun _ => Manage.Returns _ ["x"; "y"]);
     Manage.deleteFile_method := None;
     Manage.createDirectory_method := None |}.

End Sample2.

(** ** The claims about [download] *)

Section DownloadFacts.
Import Download.

Variable name : string.

Lemma reject_sent message st :
  sent (reject message st) =
  sent st ++ (if settled st then []
              else [EIpc "file-download-reply"
                         (TextPayload (or_default (Some message) "下载失败"))]).
Proof. unfold reject. destruct (settled st); simpl; by rewrite ?app_nil_r. Qed.

Lemma pump_cons total ev evs st :
  pump name total (ev :: evs) st = pump name total evs (handle name total ev st).
Proof. reflexivity. Qed.

Lemma pump_app total evs1 evs2 st :
  pump name total (evs1 ++ evs2) st = pump name total evs2 (pump name total evs1 st).
Proof. apply foldl_app. Qed.

(** With a declared total size, the handlers add one progress message per
    chunk and no other progress message. *)
Lemma pump_known_progress total evs st :
  List.filter is_progress (sent (pump name (Some total) evs st)) =
  List.filter is_progress (sent st)
  ++ map (progress_msg name total) (received (curLength st) evs).
Proof.
  revert st. induction evs as [|ev evs IH]; intros st.
  - simpl. by rewrite app_nil_r.
  - rewrite pump_cons, IH. destruct ev as [n|m|]; simpl.
    + rewrite List.filter_app. simpl. by rewrite <- app_assoc.
    + unfold on_error. rewrite reject_sent. simpl.
      destruct (settled st); simpl; [by rewrite app_nil_r|].
      rewrite List.filter_app. simpl. by rewrite app_nil_r.
    + unfold on_close. by destruct (error st).
Qed.

Lemma pump_known_no_done total evs st :
  done ∉ sent st -> done ∉ sent (pump name (Some total) evs st).
Proof.
  revert st. induction evs as [|ev evs IH]; intros st Hst; [done|].
  rewrite pump_cons. apply IH. destruct ev as [n|m|]; simpl.
  - rewrite elem_of_app, list_elem_of_singleton. intros [?|?]; [done|discriminate].
  - unfold on_error. rewrite reject_sent. simpl.
    destruct (settled st); rewrite ?app_nil_r; [done|].
    rewrite elem_of_app, list_elem_of_singleton. intros [?|?]; [done|discriminate].
  - unfold on_close. by destruct (error st).
Qed.

(** Without a declared total size no handler sends a progress message. *)
Lemma pump_unknown_progress evs st :
  List.filter is_progress (sent (pump name None evs st)) =
  List.filter is_progress (sent st).
Proof.
  revert st. induction evs as [|ev evs IH]; intros st; [done|].
  rewrite pump_cons, IH. destruct ev as [n|m|]; simpl; [done| |].
  - unfold on_error. rewrite reject_sent. simpl.
    destruct (settled st); simpl; [by rewrite app_nil_r|].
    rewrite List.filter_app. simpl. by rewrite app_nil_r.
  - unfold on_close. destruct (error st); simpl; [done|].
    rewrite List.filter_app. simpl. by rewrite app_nil_r.
Qed.

(** Chunks alone send nothing when the total size is unknown. *)
Lemma pump_unknown_data evs st :
  Forall (fun ev => is_close ev = false /\ is_error ev = false) evs ->
  sent (pump name None evs st) = sent st
  /\ error (pump name None evs st) = error st
  /\ settled (pump name None evs st) = settled st.
Proof.
  intros H. revert st. induction H as [|ev evs [Hc He] _ IH]; intros st; [done|].
  rewrite pump_cons. destruct ev; try discriminate.
  destruct (IH (handle name None (Data chunk_length) st)) as (-> & -> & ->). done.
Qed.

(** Once the promise is settled, only a ['close'] can still send a message. *)
Lemma pump_unknown_settled evs st :
  settled st = true ->
  Forall (fun ev => is_close ev = false) evs ->
  sent (pump name None evs st) = sent st.
Proof.
  intros Hs H. revert st Hs. induction H as [|ev evs Hc _ IH]; intros st Hs; [done|].
  rewrite pump_cons. destruct ev as [n|m|]; try discriminate.
  - rewrite IH; done.
  - rewrite IH; simpl.
    + unfold on_error. rewrite reject_sent. simpl. rewrite Hs. apply app_nil_r.
    + unfold on_error, reject. simpl. by rewrite Hs.
Qed.

Lemma on_data_quiet total n st :
  error (on_data name total n st) = error st
  /\ settled (on_data name total n st) = settled st
  /\ terminals (sent (on_data name total n st)) = terminals (sent st).
Proof.
  unfold on_data, terminals. destruct total; simpl; [|done].
  rewrite List.filter_app. simpl. by rewrite app_nil_r.
Qed.

Lemma closes_cons ev evs :
  closes (ev :: evs) = (if is_close ev then 1 else 0) + closes evs.
Proof. unfold closes. simpl. by destruct (is_close ev). Qed.

(** A ['close'] without an earlier ['error'] sends "done" each time it
    fires; the error message is sent only by the first settlement. *)
Lemma pump_terminals_bound total evs st :
  (error st <> None -> settled st = true) ->
  length (terminals (sent (pump name total evs st))) <=
  length (terminals (sent st))
  + match error st with
    | Some _ => 0
    | None => if settled st then closes evs else Nat.max 1 (closes evs)
    end.
Proof.
  revert st. induction evs as [|ev evs IH]; intros st Hinv.
  - simpl. lia.
  - rewrite pump_cons, closes_cons. destruct ev as [n|m|]; simpl is_close; cbv iota.
    + destruct (on_data_quiet total n st) as (He & Hs & Ht).
      specialize (IH (handle name total (Data n) st)). simpl in IH.
      rewrite He, Hs, Ht in IH. apply IH. exact Hinv.
    + specialize (IH (handle name total (WriterError m) st)). simpl in IH.
      etrans; [apply IH|].
      * intros _. unfold on_error, reject. simpl. by destruct (settled st).
      * unfold on_error. rewrite reject_sent. unfold reject. simpl.
        destruct (settled st) eqn:Hs; simpl.
        -- rewrite app_nil_r. lia.
        -- unfold terminals. rewrite List.filter_app, length_app. simpl.
           destruct (error st) eqn:He; [|lia].
           discriminate Hinv. congruence.
    + specialize (IH (handle name total WriterClose st)).
      change (handle name total WriterClose st) with (on_close total st) in *.
      unfold on_close in *. destruct (error st) eqn:He.
      * rewrite He in IH. apply IH. exact Hinv.
      * etrans; [apply IH|].
        -- destruct total; simpl; by rewrite He.
        -- destruct total; simpl; rewrite ?He; simpl;
             unfold terminals; rewrite ?List.filter_app, ?length_app; simpl;
             destruct (settled st); lia.
Qed.

(** C8.  When the response declares a total size, every chunk is followed
    by one progress message whose ratio is the number of bytes received so
    far divided by the total, these are the only progress messages, and no
    "done" message is sent.  A download of 1000 bytes that arrives in four
    chunks of 250 sends the four ratios 1/4, 1/2, 3/4 and 1, and nothing
    else. *)
Theorem download_known_size_progress (total : N) (evs : list StreamEvent) :
  let out := download name (Streams (Some total) evs) in
  List.filter is_progress out = map (progress_msg name total) (received 0 evs)
  /\ (done ∉ out)
  /\ download name (Streams (Some 1000%N)
                     [Data 250; Data 250; Data 250; Data 250; WriterClose])
     = [EIpc "file-download-progress" (ProgressPayload name (Fin (1 # 4)) name);
        EIpc "file-download-progress" (ProgressPayload name (Fin (1 # 2)) name);
        EIpc "file-download-progress" (ProgressPayload name (Fin (3 # 4)) name);
        EIpc "file-download-progress" (ProgressPayload name (Fin 1) name)].
Proof.
  simpl. split_and!.
  - by rewrite pump_known_progress.
  - apply pump_known_no_done. simpl. apply not_elem_of_nil.
  - reflexivity.
Qed.

(** C9.  When the response declares no total size, no progress message is
    sent.  A download that completes, that is one whose writer fires
    ['close'] without having fired ['error'], sends exactly one message: the
    terminal "done", which has no payload.  Whatever happens, at most one
    terminal message, done or error, is sent, given that a writer fires
    ['close'] at most once; in general there are no more terminal messages
    than ['close'] events, or one. *)
Theorem download_unknown_size_done (evs : list StreamEvent) :
  let out := download name (Streams None evs) in
  List.filter is_progress out = []
  /\ (forall chunks rest,
        evs = chunks ++ WriterClose :: rest ->
        Forall (fun ev => is_close ev = false /\ is_error ev = false) chunks ->
        Forall (fun ev => is_close ev = false) rest ->
        out = [done])
  /\ (closes evs <= 1 -> length (terminals out) <= 1)
  /\ length (terminals out) <= Nat.max 1 (closes evs).
Proof.
  simpl. split_and!.
  - by rewrite pump_unknown_progress.
  - intros chunks rest -> Hchunks Hrest.
    rewrite pump_app, pump_cons.
    destruct (pump_unknown_data chunks initial Hchunks) as (Hs & He & Hd).
    rewrite pump_unknown_settled; [| |done].
    + simpl. unfold on_close. rewrite He. simpl. by rewrite Hs.
    + simpl. unfold on_close. by rewrite He.
  - intros Hc. etrans; [by apply pump_terminals_bound|]. simpl. lia.
  - etrans; [by apply pump_terminals_bound|]. simpl. lia.
Qed.

End DownloadFacts.


(** ** Lists of task statuses *)

Section Statuses.
Import Upload.

Lemma cascade_length m l : length (cascade m l) = length l.
Proof. induction l as [|[] l IH]; simpl; auto. Qed.

Lemma cascade_lookup m l j s :
  cascade m l !! j = Some s ->
  l !! j = Some s \/ (l !! j = Some AwaitPrev /\ s = Rejected m).
Proof.
  revert j. induction l as [|t l IH]; intros j H; [done|].
  destruct t; simpl in H; auto.
  destruct j as [|j]; simpl in *; [right; split; congruence|auto].
Qed.

Lemma cascade_lookup_keep m l j s :
  l !! j = Some s -> s <> AwaitPrev -> cascade m l !! j = Some s.
Proof.
  revert j. induction l as [|t l IH]; intros j H Hs; [done|].
  destruct t; simpl; auto.
  destruct j as [|j]; simpl in *; [congruence|auto].
Qed.

Lemma reject_length i m ts :
  i < length ts -> length (reject i m ts) = length ts.
Proof.
  intros Hi. unfold reject.
  rewrite length_app, length_take. simpl. rewrite cascade_length, length_drop. lia.
Qed.

Lemma reject_lookup_self i m ts :
  i < length ts -> reject i m ts !! i = Some (Rejected m).
Proof.
  intros Hi. unfold reject.
  rewrite lookup_app_r; rewrite length_take; [|lia].
  replace (i - i `min` length ts) with 0 by lia. done.
Qed.

Lemma reject_lookup i m ts j s :
  i < length ts ->
  reject i m ts !! j = Some s ->
  s = Rejected m \/ (ts !! j = Some s /\ j <> i).
Proof.
  intros Hi. unfold reject. intros H.
  destruct (decide (j < i)) as [Hlt|Hge].
  - rewrite lookup_app_l in H by (rewrite length_take; lia).
    rewrite lookup_take_lt in H by done. right. split; [done|lia].
  - rewrite lookup_app_r in H by (rewrite length_take; lia).
    rewrite length_take in H. replace (i `min` length ts) with i in H by lia.
    destruct (j - i) as [|d] eqn:Hd; simpl in H; [left; congruence|].
    apply cascade_lookup in H as [H|[_ ->]]; [|by left].
    rewrite lookup_drop in H. right. split; [|lia].
    by replace (S i + d) with j in H by lia.
Qed.

Lemma reject_lookup_keep i m ts j s :
  i < length ts -> j <> i -> s <> AwaitPrev ->
  ts !! j = Some s -> reject i m ts !! j = Some s.
Proof.
  intros Hi Hne Hs H. unfold reject.
  destruct (decide (j < i)) as [Hlt|Hge].
  - rewrite lookup_app_l by (rewrite length_take; lia).
    by rewrite lookup_take_lt.
  - rewrite lookup_app_r by (rewrite length_take; lia).
    rewrite length_take. replace (i `min` length ts) with i by lia.
    destruct (j - i) as [|d] eqn:Hd; [lia|]. simpl.
    apply cascade_lookup_keep; [|done].
    rewrite lookup_drop. by replace (S i + d) with j by lia.
Qed.

Lemma forallb_fulfilled_lookup ts :
  forallb is_fulfilled ts = true <->
  forall j, j < length ts -> ts !! j = Some Fulfilled.
Proof.
  induction ts as [|t ts IH]; simpl.
  - split; [intros _ j Hj; lia|done].
  - rewrite andb_true_iff, IH. split.
    + intros [Ht H] [|j] Hj; simpl; [by destruct t|apply H; lia].
    + intros H. split.
      * specialize (H 0 ltac:(lia)). simpl in H. by injection H as ->.
      * intros j Hj. apply (H (S j)). lia.
Qed.

End Statuses.

(** ** Projections of the log *)

Lemma starts_app a b : starts (a ++ b) = starts a ++ starts b.
Proof. apply omap_app. Qed.

Lemma pushed_app a b : pushed (a ++ b) = pushed a ++ pushed b.
Proof. apply omap_app. Qed.

Lemma starts_batch es : Forall (fun e => task_event e = false) es -> starts es = [].
Proof.
  induction 1 as [|e es He _ IH]; [done|].
  destruct e; try discriminate He; exact IH.
Qed.

Lemma pushed_batch es : Forall (fun e => task_event e = false) es -> pushed es = [].
Proof.
  induction 1 as [|e es He _ IH]; [done|].
  destruct e; try discriminate He; exact IH.
Qed.

Lemma guarded_app ev es :
  guarded ev ->
  (forall before i args after,
      es = before ++ ETransferStart (S i) args :: after ->
      exists s, ETransferSettle i s ∈ ev ++ before) ->
  guarded (ev ++ es).
Proof.
  intros Hg Hes before i args after Heq.
  apply List.app_eq_app in Heq as [l [[-> Hl]|[-> Hl]]].
  - destruct l as [|e l]; simpl in Hl.
    + destruct (Hes [] i args after) as [s Hs]; [done|].
      exists s. by rewrite !app_nil_r in *.
    + injection Hl as <- ->. by eapply Hg.
  - by eapply Hes.
Qed.

Lemma guarded_app_other ev es :
  guarded ev ->
  Forall (fun e => match e with ETransferStart _ _ => False | _ => True end) es ->
  guarded (ev ++ es).
Proof.
  intros Hg Hes. apply guarded_app; [done|].
  intros before i args after ->.
  rewrite Forall_app, Forall_cons in Hes. tauto.
Qed.

(** ** Facts about [upload] *)

Section UploadFacts.

Variable w : World.
Variable o : UploadOptions.
Variable profile : UploaderProfile.
Variable up : Uploader.

Local Abbreviation n := (length (files o)).
Local Abbreviation step := (Upload.step w o profile up).
Local Abbreviation run := (Upload.run w o profile up).
Local Abbreviation start := (Upload.start w o profile up).
Local Abbreviation sync := (sync_events w o profile up).
Local Abbreviation status0 := (initial_status up).
Local Abbreviation srec := (success_record w o profile up).
Local Abbreviation frec := (failure_record w o profile up).
Local Abbreviation orec := (outcome_record w o profile up).
Local Abbreviation jevents := (join_events w o).
Local Abbreviation jreturn := (join_return w o).
Local Abbreviation cevents := (catch_events o).
Local Abbreviation coreI := (core w o profile up).
Local Abbreviation joinI := (joinv w o).
Local Abbreviation resolved0 := (resolved w o profile up).
Local Abbreviation dispatched0 := (dispatched w o profile up).
Local Abbreviation configure :=
  (EConfigure (uploaderOptions profile) (proxy (configuration w))).

Lemma catch_block_eq message st :
  catch_block o message st =
  mkState (uploadQuence st) (successRes st) (failRes st) (Some RetUndefined)
          (events st ++ cevents message).
Proof. reflexivity. Qed.

Lemma after_join_eq st :
  after_join w o st =
  mkState (uploadQuence st) (successRes st) (failRes st)
          (Some (jreturn (successRes st) (failRes st)))
          (events st ++ jevents (successRes st) (failRes st)).
Proof.
  unfold after_join, join_return, join_events.
  destruct (1 <? n).
  - unfold set_returned, emit. simpl. f_equal. by list_norm.
  - destruct (handleSingleUploaded w _ _).
    + unfold set_returned, emit. simpl. f_equal. by list_norm.
    + rewrite catch_block_eq. simpl. f_equal. by list_norm.
Qed.

Lemma dispatch_eq index fs st :
  dispatch w o profile up index fs st =
  mkState (uploadQuence st ++ (status0 <$> seq index (length fs)))
          (successRes st) (failRes st) (returned st)
          (events st ++ sync index fs).
Proof.
  revert index st. induction fs as [|file fs IH]; intros index st.
  - simpl. rewrite !app_nil_r. by destruct st.
  - simpl. rewrite IH. unfold toUpload_begin, initial_status.
    destruct (sequenced up index); simpl; f_equal; by list_norm.
Qed.


Lemma batch_not_prepare es :
  Forall (fun e => task_event e = false) es ->
  Forall (fun e => is_prepare e = false) es.
Proof. intros H. eapply Forall_impl; [exact H|]. by intros []. Qed.

Lemma batch_not_start es :
  Forall (fun e => task_event e = false) es ->
  Forall (fun e => match e with ETransferStart _ _ => False | _ => True end) es.
Proof. intros H. eapply Forall_impl; [exact H|]. by intros []. Qed.

(** Events of the batch change nothing of the above. *)
Lemma core_batch st es r :
  coreI st ->
  Forall (fun e => task_event e = false) es ->
  coreI (mkState (uploadQuence st) (successRes st) (failRes st) r (events st ++ es)).
Proof.
  intros [Hlen (rest & Hev & Hrest) Hg (k & Hk & Hin & Haw) Hnd Hdone Hs Hf Hset] Hes.
  split; simpl; rewrite ?starts_app, ?pushed_app, ?(starts_batch es), ?(pushed_batch es),
    ?app_nil_r; try done.
  - exists (rest ++ es). rewrite Hev. split; [by list_norm|].
    apply Forall_app. split; [done|by apply batch_not_prepare].
  - intros Hm. apply guarded_app_other; [auto|by apply batch_not_start].
  - by exists k.
  - intros j Hj. destruct (Hset j Hj) as [? ?]. split; [|done].
    apply elem_of_app. by left.
Qed.

Lemma cevents_batch m : Forall (fun e => task_event e = false) (cevents m).
Proof. unfold catch_events. destruct (isTest o); repeat constructor. Qed.

Lemma jevents_batch s f : Forall (fun e => task_event e = false) (jevents s f).
Proof.
  unfold join_events, handleAddHistory, handleBatchUploaded, handleSingleUploaded.
  rewrite !Forall_app. split_and!.
  - destruct (win_isDestroyed w); repeat constructor.
  - destruct (isFromFileManage o); repeat constructor.
  - destruct (isTest o); repeat constructor.
  - repeat case_match; simplify_eq; rewrite ?Forall_app; repeat split;
      try apply cevents_batch; repeat constructor; repeat case_match;
      repeat constructor.
Qed.

Lemma core_join st : coreI st -> coreI (join w o st).
Proof.
  intros H. unfold join. destruct (returned st); [done|].
  destruct (forallb _ _); [|done].
  rewrite after_join_eq. apply core_batch; [done|apply jevents_batch].
Qed.

Lemma core_join_rejected m st : coreI st -> coreI (join_rejected o m st).
Proof.
  intros H. unfold join_rejected. destruct (returned st); [done|].
  rewrite catch_block_eq. apply core_batch; [done|apply cevents_batch].
Qed.


(** *** The synchronous phase *)

Lemma sync_start_unsequenced index fs j args :
  ETransferStart j args ∈ sync index fs -> sequenced up j = false.
Proof.
  revert index. induction fs as [|file fs IH]; intros index; simpl.
  - by intros ?%elem_of_nil.
  - rewrite elem_of_cons, elem_of_app. intros [?|[H|H]]; [done| |by eapply IH].
    destruct (sequenced up index) eqn:Hs.
    + by apply elem_of_nil in H.
    + apply list_elem_of_singleton in H. by injection H as -> _.
Qed.

Lemma sync_events_only index fs :
  Forall (fun e => match e with
                   | EPrepare _ _ | ETransferStart _ _ => True
                   | _ => False
                   end) (sync index fs).
Proof.
  revert index. induction fs as [|file fs IH]; intros index; simpl; [done|].
  constructor; [done|]. apply Forall_app. split; [|done].
  destruct (sequenced up index); repeat constructor.
Qed.

Lemma pushed_sync index fs : pushed (sync index fs) = [].
Proof.
  revert index. induction fs as [|file fs IH]; intros index; simpl; [done|].
  change (pushed ((if sequenced up index then []
                   else [ETransferStart index (uploadArgs w o file)])
                  ++ sync (S index) fs) = []).
  rewrite pushed_app, IH. by destruct (sequenced up index).
Qed.

Lemma starts_sync index fs :
  starts (sync index fs) =
  List.filter (fun j => negb (sequenced up j)) (seq index (length fs)).
Proof.
  revert index. induction fs as [|file fs IH]; intros index; simpl; [done|].
  change (starts ((if sequenced up index then []
                   else [ETransferStart index (uploadArgs w o file)])
                  ++ sync (S index) fs) = 
          if negb (sequenced up index)
          then index :: List.filter (fun j => negb (sequenced up j)) (seq (S index) (length fs))
          else List.filter (fun j => negb (sequenced up j)) (seq (S index) (length fs))).
  rewrite starts_app, IH. by destruct (sequenced up index).
Qed.

Lemma filter_seq_all (f : nat -> bool) a len :
  (forall j, a <= j -> f j = true) -> List.filter f (seq a len) = seq a len.
Proof.
  revert a. induction len as [|len IH]; intros a H; simpl; [done|].
  rewrite H by lia. f_equal. apply IH. intros j Hj. apply H. lia.
Qed.

Lemma filter_seq_none (f : nat -> bool) a len :
  (forall j, a <= j -> f j = false) -> List.filter f (seq a len) = [].
Proof.
  revert a. induction len as [|len IH]; intros a H; simpl; [done|].
  rewrite H by lia. apply IH. intros j Hj. apply H. lia.
Qed.

Lemma start_order :
  exists k,
    starts (sync 0 (files o)) = seq 0 k
    /\ (forall j, j < n -> sequenced up j = false -> j < k)
    /\ (forall j, sequenced up j = true -> k <= j).
Proof.
  rewrite starts_sync. unfold sequenced.
  destruct (String.eqb (batchUploadMode up) "Sequence"); simpl.
  - destruct n as [|m]; simpl.
    + exists 0. split_and!; [done|intros; lia|intros; lia].
    + exists 1. rewrite filter_seq_none.
      * split_and!; [done| |].
        -- intros [|j] _ Hj; [lia|done].
        -- intros [|j] Hj; [done|lia].
      * intros [|j] Hj; [lia|done].
  - exists n. rewrite filter_seq_all by done. split_and!; [done|auto|done].
Qed.

Lemma lookup_status0 len j s :
  (status0 <$> seq 0 len) !! j = Some s -> s = status0 j /\ j < len.
Proof.
  intros H. apply list_lookup_fmap_Some in H as (x & -> & Hx).
  destruct (proj1 (lookup_seq _ _ _ _) Hx) as [-> ?]. done.
Qed.

Lemma start_eq : start = join w o dispatched0.
Proof. unfold Upload.start. by rewrite dispatch_eq. Qed.

Lemma core_dispatched : coreI dispatched0.
Proof.
  split; simpl.
  - by rewrite length_fmap, length_seq.
  - exists []. by rewrite app_nil_r.
  - intros Hm before i args after Heq.
    assert (ETransferStart (S i) args ∈ configure :: sync 0 (files o)) as Hin.
    { rewrite Heq. apply elem_of_app. right. by left. }
    apply elem_of_cons in Hin as [?|Hin]; [done|].
    apply sync_start_unsequenced in Hin. unfold sequenced in Hin.
    rewrite Hm in Hin. done.
  - destruct start_order as (k & Hk & Hin & Haw). exists k. split_and!.
    + done.
    + intros j [Hs Hj]%lookup_status0. apply Hin; [done|].
      unfold initial_status in Hs. by destruct (sequenced up j).
    + intros j [Hs Hj]%lookup_status0. apply Haw.
      unfold initial_status in Hs. by destruct (sequenced up j).
  - change (NoDup (pushed (sync 0 (files o)))). rewrite pushed_sync. constructor.
  - change (forall j, j ∈ pushed (sync 0 (files o)) <->
                      (status0 <$> seq 0 n) !! j = Some Fulfilled).
    rewrite pushed_sync. intros j. split; [by intros ?%elem_of_nil|].
    intros [Hs _]%lookup_status0. unfold initial_status in Hs.
    by destruct (sequenced up j).
  - change ([] = omap srec (pushed (sync 0 (files o)))). by rewrite pushed_sync.
  - change ([] = omap frec (pushed (sync 0 (files o)))). by rewrite pushed_sync.
  - intros j [Hs _]%lookup_status0. unfold initial_status in Hs.
    by destruct (sequenced up j).
Qed.

Lemma core_start : coreI start.
Proof. rewrite start_eq. apply core_join, core_dispatched. Qed.


(** *** One settlement *)

Lemma srec_frec_resolved i file res :
  files o !! i = Some file -> transfer up i = Resolves res ->
  match res with
  | SuccessResponse data =>
      srec i = Some (spread (baseInfo w profile i file) data) /\ frec i = None
  | FailResponse desc =>
      srec i = None /\ frec i = Some (failed (baseInfo w profile i file) desc)
  end.
Proof.
  intros Hf Ht. unfold success_record, failure_record. rewrite Hf, Ht.
  by destruct res.
Qed.

(** The task resumes with the adapter's response and records its outcome. *)
Lemma core_finish i file res st :
  coreI st ->
  uploadQuence st !! i = Some InFlight ->
  files o !! i = Some file ->
  transfer up i = Resolves res ->
  coreI (toUpload_finish w profile i file res
          (emit [ETransferSettle i (transfer up i)] st)).
Proof.
  intros [Hlen (rest & Hev & Hrest) Hg (k & Hk & Hin & Haw) Hnd Hdone Hs Hf Hset]
         Hi Hfile Htr.
  pose proof (srec_frec_resolved i file res Hfile Htr) as Hrec.
  assert (i ∉ pushed (events st)) as Hfresh.
  { rewrite Hdone, Hi. discriminate. }
  assert (i < length (uploadQuence st)) as Hlt by by eapply lookup_lt_Some.
  assert (exists e r, (e = EPushSuccess i r \/ e = EPushFail i r) /\
            events (toUpload_finish w profile i file res
                      (emit [ETransferSettle i (transfer up i)] st))
            = events st ++ [ETransferSettle i (transfer up i); e]) as (e & r & He & Hev').
  { destruct res; simpl; eexists _, _; (split; last by list_norm); eauto. }
  assert (uploadQuence (toUpload_finish w profile i file res
                   (emit [ETransferSettle i (transfer up i)] st))
          = <[i := Fulfilled]> (uploadQuence st)) as Hts' by by destruct res.
  assert (starts [ETransferSettle i (transfer up i); e] = []) as Hst
    by by destruct He as [-> | ->].
  assert (pushed [ETransferSettle i (transfer up i); e] = [i]) as Hpu
    by by destruct He as [-> | ->].
  split; rewrite ?Hev', ?Hts', ?starts_app, ?pushed_app, ?Hst, ?Hpu, ?app_nil_r.
  - by rewrite length_insert.
  - exists (rest ++ [ETransferSettle i (transfer up i); e]). rewrite Hev.
    split; [by list_norm|]. apply Forall_app. split; [done|].
    destruct He as [-> | ->]; by repeat constructor.
  - intros Hm. apply guarded_app_other; [auto|].
    destruct He as [-> | ->]; by repeat constructor.
  - exists k. split_and!; [done| |].
    + intros j [(_ & ? & _)|[_ ?]]%list_lookup_insert_Some; [done|auto].
    + intros j [(_ & ? & _)|[_ ?]]%list_lookup_insert_Some; [done|auto].
  - apply NoDup_app. split_and!; [done| |apply NoDup_singleton].
    intros x Hx ->%list_elem_of_singleton. done.
  - intros j. rewrite elem_of_app, list_elem_of_singleton, Hdone, list_lookup_insert_Some.
    split.
    + intros [?| ->]; [right|left; done]. split; [|done]. intros <-. congruence.
    + intros [(<- & _)|[_ ?]]; auto.
  - rewrite omap_app. simpl. destruct res; simpl; destruct Hrec as [Hsr Hfr];
      rewrite Hsr; simpl; by rewrite ?app_nil_r, <- ?Hs.
  - rewrite omap_app. simpl. destruct res; simpl; destruct Hrec as [Hsr Hfr];
      rewrite Hfr; simpl; by rewrite ?app_nil_r, <- ?Hf.
  - intros j [(<- & _)|[_ Hj]]%list_lookup_insert_Some.
    + split; [|eauto]. apply elem_of_app. right. by left.
    + destruct (Hset j Hj) as [? ?]. split; [|done]. apply elem_of_app. by left.
Qed.

(** The next task of a sequence resumes and calls the adapter. *)
Lemma core_wake i st :
  coreI st ->
  (exists s, ETransferSettle i s ∈ events st) ->
  (forall k, starts (events st) = seq 0 k -> i < k) ->
  coreI (wake w o (S i) st).
Proof.
  intros Hc Hsettled Hstarted. unfold wake.
  destruct (uploadQuence st !! S i) as [[]|] eqn:Hnext; try done.
  destruct (files o !! S i) as [file|] eqn:Hfile; [|done].
  destruct Hc as [Hlen (rest & Hev & Hrest) Hg (k & Hk & Hin & Haw) Hnd Hdone Hs Hf Hset].
  assert (k = S i) as ->.
  { specialize (Hstarted k Hk). specialize (Haw (S i) Hnext). lia. }
  split; simpl; rewrite ?starts_app, ?pushed_app, ?app_nil_r; simpl; rewrite ?app_nil_r.
  - by rewrite length_insert.
  - exists (rest ++ [ETransferStart (S i) (uploadArgs w o file)]). rewrite Hev.
    split; [by list_norm|]. apply Forall_app. split; [done|by repeat constructor].
  - intros Hm. apply guarded_app; [auto|].
    intros [|e before] j args after Heq; simpl in Heq.
    + injection Heq as <- _ _. destruct Hsettled as [s Hs']. exists s.
      by rewrite app_nil_r.
    + injection Heq as _ Heq. by destruct before.
  - exists (S (S i)). split_and!.
    + by rewrite Hk, (seq_S (S i)).
    + intros j [(<- & _)|[_ Hj]]%list_lookup_insert_Some; [lia|].
      specialize (Hin j Hj). lia.
    + intros j [(_ & ? & _)|[Hne Hj]]%list_lookup_insert_Some; [done|].
      specialize (Haw j Hj). lia.
  - done.
  - intros j. rewrite Hdone, list_lookup_insert_Some. split; [|intros [(_ & ? & _)|[_ ?]]; done].
    intros Hj. right. split; [|done]. intros <-. congruence.
  - done.
  - done.
  - intros j [(_ & ? & _)|[_ Hj]]%list_lookup_insert_Some; [done|].
    destruct (Hset j Hj) as [? ?]. split; [|done]. apply elem_of_app. by left.
Qed.

(** The task is rejected, and so are the tasks waiting in a row behind it. *)
Lemma core_reject i m st :
  coreI st ->
  uploadQuence st !! i = Some InFlight ->
  coreI (set_queue (reject i m (uploadQuence st))
          (emit [ETransferSettle i (transfer up i)] st)).
Proof.
  intros [Hlen (rest & Hev & Hrest) Hg (k & Hk & Hin & Haw) Hnd Hdone Hs Hf Hset] Hi.
  assert (i < length (uploadQuence st)) as Hlt by by eapply lookup_lt_Some.
  split; simpl; rewrite ?starts_app, ?pushed_app, ?app_nil_r; simpl; rewrite ?app_nil_r.
  - by rewrite reject_length.
  - exists (rest ++ [ETransferSettle i (transfer up i)]). rewrite Hev.
    split; [by list_norm|]. apply Forall_app. split; [done|by repeat constructor].
  - intros Hm. apply guarded_app_other; [auto|by repeat constructor].
  - exists k. split_and!; [done| |].
    + intros j [?|[? _]]%reject_lookup; [done|auto|done].
    + intros j [?|[? _]]%reject_lookup; [done|auto|done].
  - done.
  - intros j. rewrite Hdone. split.
    + intros Hj. apply reject_lookup_keep; [done| |done|done]. intros ->. congruence.
    + intros [?|[? _]]%reject_lookup; done.
  - done.
  - done.
  - intros j [?|[Hj _]]%reject_lookup; [done| |done].
    destruct (Hset j Hj) as [? ?]. split; [|done]. apply elem_of_app. by left.
Qed.

Lemma starts_unique k k' : seq 0 k = seq 0 k' -> k = k'.
Proof. intros H. apply (f_equal length) in H. by rewrite !length_seq in H. Qed.

Lemma core_step i st : coreI st -> coreI (step i st).
Proof.
  intros Hc. unfold Upload.step.
  destruct (uploadQuence st !! i) as [[]|] eqn:Hi; try done.
  destruct (files o !! i) as [file|] eqn:Hfile; [|done].
  destruct (transfer up i) as [res|m] eqn:Htr.
  - apply core_join. rewrite <- Htr. apply core_wake.
    + by apply core_finish.
    + exists (transfer up i). destruct res; simpl; rewrite !elem_of_app;
        left; right; by left.
    + intros k Hk. destruct (core_order _ _ _ _ _ Hc) as (k0 & Hk0 & Hin & _).
      assert (starts (events (toUpload_finish w profile i file res
                (emit [ETransferSettle i (transfer up i)] st))) = starts (events st)) as Heq.
      { destruct res; simpl; by rewrite !starts_app, !app_nil_r. }
      rewrite Heq, Hk0 in Hk. apply starts_unique in Hk as <-. auto.
  - apply core_join_rejected. rewrite <- Htr. exact (core_reject i m st Hc Hi).
Qed.

Lemma run_snoc schedule i st : run (schedule ++ [i]) st = step i (run schedule st).
Proof. unfold Upload.run. by rewrite foldl_snoc. Qed.

Lemma run_app s1 s2 st : run (s1 ++ s2) st = run s2 (run s1 st).
Proof. unfold Upload.run. by rewrite foldl_app. Qed.

Lemma core_run schedule : coreI (run schedule start).
Proof.
  induction schedule as [|i schedule IH] using rev_ind.
  - apply core_start.
  - rewrite run_snoc. by apply core_step.
Qed.


(** *** The state after a resolved transfer, explicitly *)

Lemma resolved_tasks i file res st :
  length (uploadQuence st) = n ->
  uploadQuence (resolved0 i file res st) =
  if decide (uploadQuence st !! S i = Some AwaitPrev)
  then <[S i := InFlight]> (<[i := Fulfilled]> (uploadQuence st))
  else <[i := Fulfilled]> (uploadQuence st).
Proof.
  intros Hlen. unfold resolved, wake.
  assert (uploadQuence (toUpload_finish w profile i file res
                   (emit [ETransferSettle i (transfer up i)] st))
          = <[i := Fulfilled]> (uploadQuence st)) as -> by by destruct res.
  rewrite list_lookup_insert_ne by lia.
  destruct (uploadQuence st !! S i) as [t|] eqn:Hnext.
  - assert (is_Some (files o !! S i)) as [f Hf].
    { apply lookup_lt_is_Some. rewrite <- Hlen. by eapply lookup_lt_Some. }
    rewrite Hf. destruct t; simpl; try (by destruct res); by rewrite decide_True.
  - by destruct res.
Qed.

Lemma resolved_returned i file res st :
  returned (resolved0 i file res st) = returned st.
Proof. unfold resolved, wake. repeat case_match; by destruct res. Qed.

Lemma resolved_events i file res st :
  exists delta,
    events (resolved0 i file res st) = events st ++ delta
    /\ Forall (fun e => task_event e = true) delta
    /\ Forall (fun e => is_prepare e = false) delta.
Proof.
  unfold resolved, wake. repeat case_match; destruct res; simpl;
    eexists; (split; [by list_norm|]); split; by repeat constructor.
Qed.

Lemma resolved_lookup i file res st j s :
  length (uploadQuence st) = n ->
  uploadQuence st !! i = Some InFlight ->
  uploadQuence (resolved0 i file res st) !! j = Some s ->
  (j = i /\ s = Fulfilled)
  \/ (j = S i /\ s = InFlight /\ uploadQuence st !! S i = Some AwaitPrev)
  \/ (j <> i /\ uploadQuence st !! j = Some s /\
       (uploadQuence st !! S i = Some AwaitPrev -> j <> S i)).
Proof.
  intros Hlen Hi. rewrite resolved_tasks by done. case_decide as Hw.
  - intros [(<- & <- & _)|[Hne H]]%list_lookup_insert_Some; [by auto|].
    apply list_lookup_insert_Some in H as [(<- & <- & _)|[Hne' H]]; [by auto|].
    right; right. auto.
  - intros [(<- & <- & _)|[Hne' H]]%list_lookup_insert_Some; [by auto|].
    right; right. split_and!; [done|done|]. intros ?. done.
Qed.

Lemma resolved_lookup_keep i file res st j s :
  length (uploadQuence st) = n ->
  uploadQuence st !! i = Some InFlight ->
  uploadQuence st !! j = Some s -> s <> InFlight -> s <> AwaitPrev ->
  uploadQuence (resolved0 i file res st) !! j = Some s.
Proof.
  intros Hlen Hi Hj H1 H2. rewrite resolved_tasks by done.
  assert (j <> i) by (intros ->; congruence).
  case_decide as Hw.
  - rewrite !list_lookup_insert_ne; [done|done|]. intros <-. congruence.
  - by rewrite list_lookup_insert_ne.
Qed.

Lemma resolved_lookup_self i file res st :
  length (uploadQuence st) = n ->
  uploadQuence st !! i = Some InFlight ->
  uploadQuence (resolved0 i file res st) !! i = Some Fulfilled.
Proof.
  intros Hlen Hi. rewrite resolved_tasks by done.
  assert (i < length (uploadQuence st)) by by eapply lookup_lt_Some.
  case_decide.
  - rewrite list_lookup_insert_ne by lia. by apply list_lookup_insert_eq.
  - by apply list_lookup_insert_eq.
Qed.

Lemma step_resolved i file res st :
  uploadQuence st !! i = Some InFlight ->
  files o !! i = Some file ->
  transfer up i = Resolves res ->
  step i st = join w o (resolved0 i file res st).
Proof.
  intros Hi Hf Ht. unfold Upload.step, resolved0. by rewrite Hi, Hf, Ht.
Qed.

Lemma step_rejected i file m st :
  uploadQuence st !! i = Some InFlight ->
  files o !! i = Some file ->
  transfer up i = Rejects m ->
  step i st =
  join_rejected o m
    (mkState (reject i m (uploadQuence st)) (successRes st) (failRes st) (returned st)
             (events st ++ [ETransferSettle i (Rejects m)])).
Proof.
  intros Hi Hf Ht. unfold Upload.step. by rewrite Hi, Hf, Ht.
Qed.

Lemma step_idle i st :
  uploadQuence st !! i <> Some InFlight -> step i st = st.
Proof.
  intros Hi. unfold Upload.step. destruct (uploadQuence st !! i) as [[]|]; done.
Qed.

Lemma inflight_not_all_fulfilled ts i :
  ts !! i = Some InFlight -> forallb is_fulfilled ts = false.
Proof.
  intros Hi. destruct (forallb is_fulfilled ts) eqn:Hall; [|done].
  rewrite forallb_fulfilled_lookup in Hall.
  rewrite Hall in Hi by by eapply lookup_lt_Some. done.
Qed.

(** *** Where [upload] itself stands *)

Lemma joinv_join st :
  returned st = None ->
  Forall (fun e => task_event e = true) (events st) ->
  (forall j m, uploadQuence st !! j <> Some (Rejected m)) ->
  joinI (join w o st).
Proof.
  intros Hr Hev Hrej. unfold join. rewrite Hr.
  destruct (forallb is_fulfilled (uploadQuence st)) eqn:Hall.
  - rewrite after_join_eq. split; simpl; [done|].
    intros r [= <-]. left. split_and!; [done|done|]. by exists (events st).
  - split; [done|]. intros r Hr'. congruence.
Qed.

Lemma sync_task_events index fs : Forall (fun e => task_event e = true) (sync index fs).
Proof.
  eapply Forall_impl; [apply sync_events_only|]. by intros [].
Qed.

Lemma joinv_start : joinI start.
Proof.
  rewrite start_eq. apply joinv_join; simpl.
  - done.
  - constructor; [done|apply sync_task_events].
  - intros j m [Hs _]%lookup_status0. unfold initial_status in Hs.
    by destruct (sequenced up j).
Qed.

Lemma joinv_step i st : coreI st -> joinI st -> joinI (step i st).
Proof.
  intros Hc [Hwait Hjoined].
  destruct (decide (uploadQuence st !! i = Some InFlight)) as [Hi|Hi];
    [|by rewrite step_idle].
  pose proof (core_len _ _ _ _ _ Hc) as Hlen.
  assert (is_Some (files o !! i)) as [file Hfile].
  { apply lookup_lt_is_Some. rewrite <- Hlen. by eapply lookup_lt_Some. }
  pose proof (inflight_not_all_fulfilled _ _ Hi) as Hnot.
  destruct (transfer up i) as [res|m] eqn:Htr.
  - rewrite (step_resolved i file res) by done.
    destruct (resolved_events i file res st) as (delta & Hev & Hdelta & _).
    destruct (returned st) as [r|] eqn:Hr.
    + unfold join. rewrite resolved_returned, Hr.
      split; [rewrite resolved_returned, Hr; done|].
      rewrite resolved_returned, Hr. intros r' [= <-].
      destruct (Hjoined r eq_refl) as [(Hall & _)|(-> & j & m & pre & post & Hj & Hevst & Hpre & Hpost)];
        [congruence|].
      right. split; [done|]. exists j, m, pre, (post ++ delta). split_and!.
      * by apply resolved_lookup_keep.
      * rewrite Hev, Hevst. by list_norm.
      * done.
      * by apply Forall_app.
    + destruct (Hwait eq_refl) as (_ & Hevs & Hrej).
      apply joinv_join.
      * by rewrite resolved_returned.
      * rewrite Hev. by apply Forall_app.
      * intros j m Hj. apply resolved_lookup in Hj; [|done|done].
        destruct Hj as [[_ ?]|[(_ & ? & _)|(_ & Hj & _)]]; [done|done|].
        by eapply Hrej.
  - rewrite (step_rejected i file m) by done.
    assert (i < length (uploadQuence st)) as Hlt by by eapply lookup_lt_Some.
    unfold join_rejected. simpl. destruct (returned st) as [r|] eqn:Hr.
    + split; simpl; [done|]. intros r' [= <-].
      destruct (Hjoined r eq_refl) as [(Hall & _)|(-> & j & m' & pre & post & Hj & Hevst & Hpre & Hpost)];
        [congruence|].
      right. split; [done|].
      exists j, m', pre, (post ++ [ETransferSettle i (Rejects m)]). split_and!.
      * apply reject_lookup_keep; [done| |done|done]. intros ->. congruence.
      * rewrite Hevst. by list_norm.
      * done.
      * apply Forall_app. split; [done|by repeat constructor].
    + destruct (Hwait eq_refl) as (_ & Hevs & Hrej).
      rewrite catch_block_eq. split; simpl; [done|]. intros r' [= <-]. right.
      split; [done|].
      exists i, m, (events st ++ [ETransferSettle i (Rejects m)]), []. split_and!.
      * by apply reject_lookup_self.
      * by rewrite app_nil_r.
      * apply Forall_app. split; [done|by repeat constructor].
      * done.
Qed.

Lemma joinv_run schedule : joinI (run schedule start).
Proof.
  induction schedule as [|i schedule IH] using rev_ind.
  - apply joinv_start.
  - rewrite run_snoc. apply joinv_step; [apply core_run|done].
Qed.


(** *** Adapters that never reject *)

Lemma structured_resolves j :
  structured o up = true -> j < n -> exists res, transfer up j = Resolves res.
Proof.
  unfold structured. rewrite forallb_forall. intros H Hj.
  specialize (H j). rewrite <- list_elem_of_In, elem_of_seq in H.
  destruct (transfer up j); [eauto|]. discriminate H. lia.
Qed.

Lemma join_tasks st : uploadQuence (join w o st) = uploadQuence st.
Proof.
  unfold join. destruct (returned st); [done|].
  destruct (forallb _ _); [|done]. by rewrite after_join_eq.
Qed.

Lemma join_results st :
  successRes (join w o st) = successRes st /\ failRes (join w o st) = failRes st.
Proof.
  unfold join. destruct (returned st); [done|].
  destruct (forallb _ _); [|done]. by rewrite after_join_eq.
Qed.

Lemma sinv_start : sinv start.
Proof.
  rewrite start_eq. split; rewrite join_tasks; simpl.
  - intros j m [Hs _]%lookup_status0. unfold initial_status in Hs.
    by destruct (sequenced up j).
  - intros [Hs _]%lookup_status0. unfold initial_status, sequenced in Hs.
    simpl in Hs. by rewrite andb_false_r in Hs.
  - intros j [_ Hj]%lookup_status0.
    assert (is_Some ((status0 <$> seq 0 n) !! j)) as [s Hs].
    { apply lookup_lt_is_Some. rewrite length_fmap, length_seq. lia. }
    rewrite Hs. apply lookup_status0 in Hs as [-> _]. unfold initial_status.
    destruct (sequenced up j); auto.
Qed.

Lemma sinv_step i st :
  structured o up = true -> coreI st -> sinv st -> sinv (step i st).
Proof.
  intros Hstr Hc [Hrej Hhead Hchain].
  destruct (decide (uploadQuence st !! i = Some InFlight)) as [Hi|Hi];
    [|by rewrite step_idle].
  pose proof (core_len _ _ _ _ _ Hc) as Hlen.
  assert (i < n) as Hlt by (rewrite <- Hlen; by eapply lookup_lt_Some).
  assert (is_Some (files o !! i)) as [file Hfile] by by apply lookup_lt_is_Some.
  destruct (structured_resolves i Hstr Hlt) as [res Htr].
  rewrite (step_resolved i file res) by done.
  split; rewrite join_tasks.
  - intros j m Hj. apply resolved_lookup in Hj; [|done|done].
    destruct Hj as [[_ ?]|[(_ & ? & _)|(_ & Hj & _)]]; [done|done|].
    by eapply Hrej.
  - intros Hj. apply resolved_lookup in Hj; [|done|done].
    destruct Hj as [[_ ?]|[(? & _)|(_ & Hj & _)]]; done.
  - intros j Hj. apply resolved_lookup in Hj; [|done|done].
    destruct Hj as [[_ ?]|[(_ & ? & _)|(Hne & Hj & Hw)]]; [done|done|].
    destruct (decide (j = i)) as [->|Hji]; [by specialize (Hw Hj)|].
    rewrite resolved_tasks by done. case_decide as Hwoke.
    + destruct (decide (j = S i)) as [->|Hjs].
      * left. rewrite list_lookup_insert_eq; [done|].
        rewrite length_insert. by eapply lookup_lt_Some.
      * rewrite !list_lookup_insert_ne by done. auto.
    + rewrite list_lookup_insert_ne by done. auto.
Qed.

Lemma sinv_run schedule : structured o up = true -> sinv (run schedule start).
Proof.
  intros Hstr. induction schedule as [|i schedule IH] using rev_ind.
  - apply sinv_start.
  - rewrite run_snoc. apply sinv_step; [done|apply core_run|done].
Qed.

Lemma quiescent_lookup st :
  quiescent st = true <-> forall j, uploadQuence st !! j <> Some InFlight.
Proof.
  unfold quiescent. rewrite forallb_forall. split.
  - intros H j Hj. apply list_elem_of_lookup_2, list_elem_of_In, H in Hj. done.
  - intros H t Ht. apply list_elem_of_In, list_elem_of_lookup in Ht as [j Hj].
    destruct t; try done. by apply H in Hj.
Qed.

Lemma not_quiescent st :
  quiescent st = false -> exists j, uploadQuence st !! j = Some InFlight.
Proof.
  unfold quiescent. induction (uploadQuence st) as [|t ts IH]; simpl; [done|].
  destruct t; simpl; try (intros H; destruct (IH H) as [j Hj]; by exists (S j)).
  intros _. by exists 0.
Qed.

Lemma sinv_no_waiting st :
  sinv st -> quiescent st = true -> forall j, uploadQuence st !! j <> Some AwaitPrev.
Proof.
  intros [_ Hhead Hchain] Hq j.
  pose proof (proj1 (quiescent_lookup st) Hq) as Hq'.
  induction j as [|j IH]; [done|].
  intros [?|?]%Hchain; [by eapply Hq'|done].
Qed.

Lemma sinv_quiescent_fulfilled st :
  sinv st -> quiescent st = true -> forallb is_fulfilled (uploadQuence st) = true.
Proof.
  intros Hs Hq. apply forallb_fulfilled_lookup. intros j Hj.
  destruct (lookup_lt_is_Some_2 _ _ Hj) as [t Ht]. rewrite Ht.
  destruct t; [| |done|].
  - by apply sinv_no_waiting in Ht.
  - by apply (proj1 (quiescent_lookup st) Hq) in Ht.
  - by apply (sv_norej _ Hs) in Ht.
Qed.

Lemma step_fulfilled_keep i j st :
  coreI st -> uploadQuence st !! j = Some Fulfilled -> uploadQuence (step i st) !! j = Some Fulfilled.
Proof.
  intros Hc Hj.
  destruct (decide (uploadQuence st !! i = Some InFlight)) as [Hi|Hi];
    [|by rewrite step_idle].
  pose proof (core_len _ _ _ _ _ Hc) as Hlen.
  assert (i < length (uploadQuence st)) as Hlt by by eapply lookup_lt_Some.
  assert (is_Some (files o !! i)) as [file Hfile].
  { apply lookup_lt_is_Some. by rewrite <- Hlen. }
  destruct (transfer up i) as [res|m] eqn:Htr.
  - rewrite (step_resolved i file res), join_tasks by done.
    by apply resolved_lookup_keep.
  - rewrite (step_rejected i file m) by done. unfold join_rejected. simpl.
    destruct (returned st); simpl;
      (apply reject_lookup_keep; [done| |done|done]; intros ->; congruence).
Qed.

(** Settling the transfers in index order completes the batch from every
    reachable state. *)
Lemma complete_prefix schedule j :
  structured o up = true -> j <= n ->
  forall i, i < j -> uploadQuence (run (schedule ++ seq 0 j) start) !! i = Some Fulfilled.
Proof.
  intros Hstr. induction j as [|j IH]; intros Hj i Hi; [lia|].
  rewrite seq_S, app_assoc, run_snoc. simpl.
  set (st := run (schedule ++ seq 0 j) start) in *.
  assert (coreI st) as Hc by apply core_run.
  assert (sinv st) as Hs by by apply sinv_run.
  destruct (decide (i = j)) as [->|Hne];
    [|apply step_fulfilled_keep; [done|apply IH; lia]].
  pose proof (core_len _ _ _ _ _ Hc) as Hlen.
  destruct (lookup_lt_is_Some_2 (uploadQuence st) j ltac:(lia)) as [t Ht].
  destruct t.
  - exfalso. destruct j as [|j']; [by apply (sv_head _ Hs)|].
    apply (sv_chain _ Hs) in Ht. rewrite IH in Ht by lia. by destruct Ht.
  - assert (is_Some (files o !! j)) as [file Hfile] by (apply lookup_lt_is_Some; lia).
    destruct (structured_resolves j Hstr ltac:(lia)) as [res Htr].
    rewrite (step_resolved j file res), join_tasks by done.
    by apply resolved_lookup_self.
  - by apply step_fulfilled_keep.
  - by apply (sv_norej _ Hs) in Ht.
Qed.

Lemma complete schedule :
  structured o up = true -> quiescent (run (schedule ++ seq 0 n) start) = true.
Proof.
  intros Hstr. apply quiescent_lookup. intros j Hj.
  assert (j < n) as Hlt.
  { rewrite <- (core_len _ _ _ _ _ (core_run (schedule ++ seq 0 n))). by eapply lookup_lt_Some. }
  rewrite (complete_prefix schedule n Hstr) in Hj; [done|lia|done].
Qed.


(** *** The events of the batch *)

Lemma filter_none {A} (f : A -> bool) l :
  Forall (fun x => f x = false) l -> List.filter f l = [].
Proof. induction 1 as [|x l Hx _ IH]; simpl; [done|]. by rewrite Hx. Qed.

Lemma task_not_history l :
  Forall (fun e => task_event e = true) l -> Forall (fun e => is_history e = false) l.
Proof. intros H. eapply Forall_impl; [exact H|]. by intros []. Qed.

Lemma task_not_notification l :
  Forall (fun e => task_event e = true) l ->
  Forall (fun e => is_notification e = false) l.
Proof. intros H. eapply Forall_impl; [exact H|]. by intros []. Qed.

Lemma cevents_history m : Forall (fun e => is_history e = false) (cevents m).
Proof. unfold catch_events. destruct (isTest o); by repeat constructor. Qed.

Lemma cevents_notification m :
  List.filter is_notification (cevents m) = [ENotification t_abnormal m false].
Proof. unfold catch_events. by destruct (isTest o). Qed.

Lemma cevents_presentation m : Forall (fun e => presentation e = true) (cevents m).
Proof. unfold catch_events. destruct (isTest o); repeat constructor. Qed.

Lemma jevents_head s f :
  exists tail,
    jevents s f = EHistoryAdd (f ++ s) :: tail
    /\ Forall (fun e => presentation e = true) tail.
Proof.
  unfold join_events, handleAddHistory, handleBatchUploaded, handleSingleUploaded.
  simpl. eexists. split; [reflexivity|].
  rewrite !Forall_app. split_and!.
  - destruct (win_isDestroyed w); repeat constructor.
  - destruct (isFromFileManage o); repeat constructor.
  - destruct (isTest o); repeat constructor.
  - repeat case_match; simplify_eq; rewrite ?Forall_app; repeat split;
      try apply cevents_presentation; repeat constructor; repeat case_match;
      repeat constructor.
Qed.

Lemma presentation_not_history l :
  Forall (fun e => presentation e = true) l -> Forall (fun e => is_history e = false) l.
Proof. intros H. eapply Forall_impl; [exact H|]. by intros []. Qed.

Lemma presentation_not_task l :
  Forall (fun e => presentation e = true) l -> Forall (fun e => task_event e = false) l.
Proof. intros H. eapply Forall_impl; [exact H|]. by intros []. Qed.

Lemma jevents_history s f :
  List.filter is_history (jevents s f) = [EHistoryAdd (f ++ s)].
Proof.
  destruct (jevents_head s f) as (tail & -> & Htail). simpl.
  rewrite filter_none; [done|by apply presentation_not_history].
Qed.

Lemma jevents_notification s f :
  1 < n -> length (List.filter is_notification (jevents s f)) = 1.
Proof.
  intros Hn. unfold join_events, handleAddHistory.
  apply Nat.ltb_lt in Hn. rewrite Hn. simpl.
  rewrite !List.filter_app, !length_app.
  unfold handleBatchUploaded.
  destruct (win_isDestroyed w), (isFromFileManage o), (isTest o); simpl;
    repeat case_match; done.
Qed.

(** An event of a kind that occurs nowhere else sits where it is expected. *)
Lemma split_unique {A} (P : A -> bool) (pre tail before after : list A) (h e : A) :
  pre ++ h :: tail = before ++ e :: after ->
  P e = true ->
  Forall (fun x => P x = false) pre ->
  Forall (fun x => P x = false) tail ->
  before = pre /\ e = h /\ after = tail.
Proof.
  intros Heq He Hpre Htail. revert before Heq.
  induction Hpre as [|p pre Hp _ IH]; intros [|b before] Heq; simpl in *.
  - by injection Heq as -> ->.
  - injection Heq as -> ->. rewrite Forall_app, Forall_cons in Htail.
    destruct Htail as (_ & ? & _). congruence.
  - injection Heq as -> _. congruence.
  - injection Heq as -> Heq. by destruct (IH _ Heq) as (-> & -> & ->).
Qed.

(** A prefix is passed before anything that does not occur in it. *)
Lemma prefix_before {A} (l rest before after : list A) (e : A) :
  l ++ rest = before ++ e :: after -> e ∉ l -> exists mid, before = l ++ mid.
Proof.
  intros Heq He. apply List.app_eq_app in Heq as [mid [[-> Hmid]|[-> _]]].
  - destruct mid as [|x mid]; [exists []; by rewrite !app_nil_r|].
    injection Hmid as <- _. exfalso. apply He, elem_of_app. right. by left.
  - by exists mid.
Qed.

Lemma sync_prepare_elem index fs i file :
  fs !! i = Some file ->
  EPrepare (index + i) (baseInfo w profile (index + i) file) ∈ sync index fs.
Proof.
  revert index i. induction fs as [|f fs IH]; intros index i Hi; [done|].
  destruct i as [|i]; simpl in *.
  - injection Hi as ->. rewrite Nat.add_0_r. by left.
  - right. apply elem_of_app. right.
    replace (index + S i) with (S index + i) by lia. by apply IH.
Qed.

Lemma sync_prepares index fs :
  omap (fun e => match e with EPrepare j info => Some (j, info) | _ => None end)
       (sync index fs)
  = imap (fun j file => (index + j, baseInfo w profile (index + j) file)) fs.
Proof.
  revert index. induction fs as [|f fs IH]; intros index; [done|].
  simpl. rewrite omap_app, IH, Nat.add_0_r.
  assert (forall l : list (nat * UploadedFileInfo),
    omap (fun e => match e with EPrepare j info => Some (j, info) | _ => None end)
         (if sequenced up index then []
          else [ETransferStart index (uploadArgs w o f)]) ++ l = l) as ->
    by by destruct (sequenced up index).
  f_equal. apply imap_ext. intros j x _. simpl.
  by rewrite <- !Nat.add_succ_r.
Qed.

(** *** Records *)

Lemma srec_frec_exclusive j : srec j = None \/ frec j = None.
Proof.
  unfold success_record, failure_record.
  destruct (files o !! j); [|by left]. destruct (transfer up j) as [[]|]; auto.
Qed.

Lemma records_perm p : omap srec p ++ omap frec p ≡ₚ omap orec p.
Proof.
  induction p as [|j p IH]; [done|]. simpl. unfold outcome_record at 1.
  destruct (srec_frec_exclusive j) as [Hj|Hj]; rewrite Hj.
  - destruct (frec j); [|done]. rewrite <- Permutation_middle. by f_equiv.
  - destruct (srec j); simpl; [by f_equiv|done].
Qed.

Lemma orec_is_Some j :
  structured o up = true -> j < n -> is_Some (orec j).
Proof.
  intros Hstr Hj. destruct (structured_resolves j Hstr Hj) as [res Hres].
  destruct (lookup_lt_is_Some_2 (files o) j Hj) as [file Hfile].
  unfold outcome_record, success_record, failure_record. rewrite Hfile, Hres.
  destruct res; eauto.
Qed.

Lemma length_omap_all {A B} (f : A -> option B) l :
  Forall (fun x => is_Some (f x)) l -> length (omap f l) = length l.
Proof.
  induction 1 as [|x l [y Hy] _ IH]; [done|]. simpl. rewrite Hy. simpl.
  f_equal. exact IH.
Qed.

Lemma pushed_all st :
  coreI st -> forallb is_fulfilled (uploadQuence st) = true -> pushed (events st) ≡ₚ seq 0 n.
Proof.
  intros Hc Hall. apply NoDup_Permutation; [apply Hc|apply NoDup_seq|].
  intros j. rewrite (core_done _ _ _ _ _ Hc), elem_of_seq.
  rewrite forallb_fulfilled_lookup, (core_len _ _ _ _ _ Hc) in Hall. split.
  - intros Hj%lookup_lt_Some. rewrite (core_len _ _ _ _ _ Hc) in Hj. lia.
  - intros [_ Hj]. apply Hall. lia.
Qed.


(** Where the history write sits in the log, if there is one. *)
Lemma history_position st :
  coreI st -> joinI st ->
  (List.filter is_history (events st) = []
   /\ forallb is_fulfilled (uploadQuence st) = false)
  \/ (forallb is_fulfilled (uploadQuence st) = true
      /\ returned st = Some (jreturn (successRes st) (failRes st))
      /\ exists pre tail,
          events st = pre ++ EHistoryAdd (failRes st ++ successRes st) :: tail
          /\ jevents (successRes st) (failRes st)
             = EHistoryAdd (failRes st ++ successRes st) :: tail
          /\ Forall (fun e => task_event e = true) pre
          /\ Forall (fun e => presentation e = true) tail).
Proof.
  intros Hc [Hwait Hjoined]. destruct (returned st) as [r|] eqn:Hr.
  - destruct (Hjoined r eq_refl)
      as [(Hall & -> & pre & Hev & Hpre)|(-> & j & m & pre & post & Hj & Hev & Hpre & Hpost)].
    + right. split_and!; [done|done|].
      destruct (jevents_head (successRes st) (failRes st)) as (tail & Htail & Hpres).
      exists pre, tail. by rewrite Hev, Htail.
    + left. split.
      * rewrite Hev, !List.filter_app.
        rewrite (filter_none _ pre), (filter_none _ post), (filter_none _ (cevents m));
          [done|apply cevents_history|by apply task_not_history|by apply task_not_history].
      * destruct (forallb is_fulfilled (uploadQuence st)) eqn:Hall; [|done].
        rewrite forallb_fulfilled_lookup in Hall.
        rewrite Hall in Hj by by eapply lookup_lt_Some. done.
  - destruct (Hwait eq_refl) as (Hall & Hev & _). left. split; [|done].
    apply filter_none. by apply task_not_history.
Qed.

Lemma filter_elem {A} (f : A -> bool) l x :
  x ∈ l -> f x = true -> x ∈ List.filter f l.
Proof.
  intros Hx Hf. apply list_elem_of_In, filter_In. split; [|done].
  by apply list_elem_of_In.
Qed.

Lemma start_events :
  exists rest,
    events start = configure :: sync 0 (files o) ++ rest
    /\ Forall (fun e => task_event e = false) rest.
Proof.
  rewrite start_eq. unfold join. simpl. destruct (forallb _ _).
  - rewrite after_join_eq. simpl. eexists. split; [reflexivity|]. apply jevents_batch.
  - exists []. by rewrite app_nil_r.
Qed.

Lemma run_no_tasks schedule st : uploadQuence st = [] -> run schedule st = st.
Proof.
  intros Hts. induction schedule as [|i schedule IH] using rev_ind; [done|].
  rewrite run_snoc, IH. apply step_idle. by rewrite Hts.
Qed.

End UploadFacts.

(** ** The claims about [upload] *)

Section UploadClaims.

Variable w : World.
Variable o : UploadOptions.
Variable profile : UploaderProfile.
Variable up : Uploader.

Hypothesis Hprofile : selectProfile w o = Some profile.
Hypothesis Huploader : getUploaderByName w (uploaderName profile) = Some up.

Local Abbreviation n := (length (files o)).

Lemma upload_resolved schedule :
  upload w o schedule = run w o profile up schedule (start w o profile up).
Proof. unfold upload. by rewrite Hprofile, Huploader. Qed.

(** C1, as it holds of the code.  When every transfer of the batch ends in a
    structured response, a failed task holds nothing up: as long as [upload]
    waits some transfer is in flight, every transfer can still be settled
    whatever was settled before, and once none is in flight every task has
    recorded its one outcome and all of them were written to the history.  An
    adapter that throws is not caught per task: the rejection reaches the
    [try]/[catch] around the whole of [upload], which returns [undefined],
    shows one error notification and writes no history. *)
Theorem structured_failures_isolated schedule :
  let st := upload w o schedule in
  (structured o up = true ->
     (returned st = None -> exists j, uploadQuence st !! j = Some InFlight)
     /\ quiescent (upload w o (schedule ++ seq 0 n)) = true
     /\ (quiescent st = true ->
         EHistoryAdd (failRes st ++ successRes st) ∈ events st
         /\ successRes st ++ failRes st ≡ₚ omap (outcome_record w o profile up) (seq 0 n)
         /\ length (successRes st ++ failRes st) = n))
  /\ (forall j m, uploadQuence st !! j = Some (Rejected m) ->
        returned st = Some RetUndefined
        /\ List.filter is_history (events st) = []
        /\ exists m', List.filter is_notification (events st)
                      = [ENotification t_abnormal m' false]).
Proof.
  rewrite !upload_resolved. cbv zeta.
  set (st := run w o profile up schedule (start w o profile up)).
  pose proof (core_run w o profile up schedule) as Hc.
  pose proof (joinv_run w o profile up schedule) as [Hwait Hjoined].
  fold st in Hc, Hwait, Hjoined. split.
  - intros Hstr. pose proof (sinv_run w o profile up schedule Hstr) as Hs.
    fold st in Hs. split_and!.
    + intros Hr. destruct (quiescent st) eqn:Hq; [|by apply not_quiescent].
      apply (sinv_quiescent_fulfilled _ Hs) in Hq.
      destruct (Hwait Hr) as [Hall _]. congruence.
    + by apply complete.
    + intros Hq. pose proof (sinv_quiescent_fulfilled _ Hs Hq) as Hall.
      destruct (returned st) as [r|] eqn:Hr;
        [|destruct (Hwait eq_refl) as [? _]; congruence].
      destruct (Hjoined r eq_refl)
        as [(_ & _ & pre & Hev & _)|(_ & j & m & _ & _ & Hrej & _)];
        [|by destruct Hs as [Hno _ _]; apply Hno in Hrej].
      assert (successRes st ++ failRes st
              ≡ₚ omap (outcome_record w o profile up) (seq 0 n)) as Hperm.
      { pose proof Hc as [_ _ _ _ _ _ -> -> _]. rewrite records_perm.
        by rewrite (pushed_all _ _ _ _ _ Hc Hall). }
      split_and!.
      * rewrite Hev. destruct (jevents_head w o (successRes st) (failRes st))
          as (tail & -> & _).
        apply elem_of_app. right. by left.
      * done.
      * rewrite Hperm, length_omap_all, length_seq; [done|].
        apply Forall_seq. intros j Hj'. apply orec_is_Some; [done|lia].
  - intros j m Hrej.
    destruct (returned st) as [r|] eqn:Hr;
      [|destruct (Hwait eq_refl) as (_ & _ & Hno); by apply Hno in Hrej].
    destruct (Hjoined r eq_refl)
      as [(Hall & _)|(-> & _ & m' & pre & post & _ & Hev & Hpre & Hpost)].
    + rewrite forallb_fulfilled_lookup in Hall.
      rewrite Hall in Hrej by by eapply lookup_lt_Some. done.
    + split_and!; [done| |exists m'].
      * rewrite Hev, !List.filter_app. 
        rewrite (filter_none _ pre), (filter_none _ post), (filter_none _ (catch_events o m'));
          [done|apply cevents_history|by apply task_not_history|by apply task_not_history].
      * rewrite Hev, !List.filter_app, cevents_notification.
        rewrite (filter_none _ pre), (filter_none _ post);
          [done|by apply task_not_notification|by apply task_not_notification].
Qed.


(** C2, as it holds of the code.  The history is written at most once per
    call, never per task, and only after the transfer of every task of the
    batch has settled: everything before the write in the log belongs to
    single tasks, everything after it is what [upload] shows and sends.  When
    no transfer ends in an unstructured error the write is made exactly once,
    as soon as no transfer is in flight, and for a batch of more than one file
    so is the aggregate notification.  When a transfer was rejected no write
    is made. *)
Theorem batch_effects_after_all_settled schedule :
  let st := upload w o schedule in
  length (List.filter is_history (events st)) <= 1
  /\ (forall before records after,
        events st = before ++ EHistoryAdd records :: after ->
        records = failRes st ++ successRes st
        /\ (forall j, j < n -> exists s, ETransferSettle j s ∈ before)
        /\ Forall (fun e => task_event e = true) before
        /\ Forall (fun e => presentation e = true) after)
  /\ (returned st = None ->
        Forall (fun e => task_event e = true) (events st))
  /\ (structured o up = true -> quiescent st = true ->
        length (List.filter is_history (events st)) = 1
        /\ (1 < n -> length (List.filter is_notification (events st)) = 1))
  /\ (forall j m, uploadQuence st !! j = Some (Rejected m) ->
        List.filter is_history (events st) = []).
Proof.
  rewrite !upload_resolved. cbv zeta.
  set (st := run w o profile up schedule (start w o profile up)).
  pose proof (core_run w o profile up schedule) as Hc.
  pose proof (joinv_run w o profile up schedule) as Hj.
  fold st in Hc, Hj.
  pose proof (history_position w o profile up st Hc Hj) as Hpos.
  split_and!.
  - destruct Hpos as [[-> _]|(_ & _ & pre & tail & -> & _ & Hpre & Htail)]; [simpl; lia|].
    rewrite List.filter_app. simpl.
    rewrite (filter_none _ pre), (filter_none _ tail); [done| |];
      [by apply presentation_not_history|by apply task_not_history].
  - intros before records after Hev.
    destruct Hpos as [[Hnone _]|(Hall & _ & pre & tail & Hev' & _ & Hpre & Htail)].
    + assert (EHistoryAdd records ∈ List.filter is_history (events st)) as Hin.
      { apply filter_elem; [|done]. rewrite Hev. apply elem_of_app. right. by left. }
      rewrite Hnone in Hin. by apply elem_of_nil in Hin.
    + rewrite Hev' in Hev.
      apply (split_unique is_history) in Hev as (-> & [= ->] & ->);
        [|done|by apply task_not_history|by apply presentation_not_history].
      split_and!; [done| |done|done].
      intros j Hlt. exists (transfer up j).
      pose proof Hc as [Hlen _ _ _ _ _ _ _ Hset].
      rewrite forallb_fulfilled_lookup, Hlen in Hall.
      destruct (Hset j (Hall j Hlt)) as [Hin _]. rewrite Hev' in Hin.
      apply elem_of_app in Hin as [?|Hin]; [done|].
      apply elem_of_cons in Hin as [?|Hin]; [done|].
      rewrite Forall_forall in Htail. by apply Htail in Hin.
  - intros Hr. destruct Hj as [Hwait _]. by destruct (Hwait Hr) as (_ & ? & _).
  - intros Hstr Hq.
    pose proof (sinv_run w o profile up schedule Hstr) as Hs. fold st in Hs.
    pose proof (sinv_quiescent_fulfilled _ Hs Hq) as Hall.
    destruct Hpos as [[_ ?]|(_ & _ & pre & tail & -> & Hje & Hpre & Htail)]; [congruence|].
    rewrite !List.filter_app. simpl.
    rewrite (filter_none is_history pre), (filter_none is_history tail),
      (filter_none is_notification pre);
      [|by apply task_not_notification|by apply presentation_not_history
       |by apply task_not_history].
    split; [done|]. intros Hn.
    pose proof (jevents_notification w o (successRes st) (failRes st) Hn) as Hcount.
    by rewrite Hje in Hcount.
  - intros j m Hrej. destruct Hpos as [[? _]|(Hall & _)]; [done|].
    rewrite forallb_fulfilled_lookup in Hall.
    rewrite Hall in Hrej by by eapply lookup_lt_Some. done.
Qed.

(** C3.  Under an adapter whose [batchUploadMode] is ['Sequence'], whenever
    the adapter's transfer is invoked for a task other than the first, the
    transfer of the task before it has settled earlier; transfers are
    invoked in the order of the indices, without gaps; and the preparation of
    no task waits: when [upload] starts to wait, every task is prepared and
    only the transfer of the first one has been invoked. *)
Theorem sequence_transfers_in_order schedule :
  batchUploadMode up = "Sequence" ->
  let ev := events (upload w o schedule) in
  guarded ev
  /\ (exists k, starts ev = seq 0 k)
  /\ (forall j file,
        files o !! j = Some file ->
        EPrepare j (baseInfo w profile j file) ∈ events (upload w o []))
  /\ starts (events (upload w o [])) = seq 0 (min 1 n).
Proof.
  intros Hm. rewrite !upload_resolved. cbv zeta.
  pose proof (core_run w o profile up schedule) as [_ _ Hg (k & Hk & _) _ _ _ _ _].
  split_and!; [auto|by exists k| |].
  - intros j file Hfile. simpl.
    destruct (start_events w o profile up) as (rest & -> & _).
    right. apply elem_of_app. left.
    by apply (sync_prepare_elem w o profile up 0).
  - simpl. destruct (start_events w o profile up) as (rest & -> & Hrest).
    change (starts (sync_events w o profile up 0 (files o) ++ rest) = seq 0 (1 `min` n)).
    rewrite starts_app, (starts_batch rest), app_nil_r, starts_sync by done.
    unfold sequenced. rewrite Hm. simpl. destruct n as [|m]; [done|]. simpl.
    by rewrite filter_seq_none by (intros [|j] ?; [lia|done]).
Qed.

(** C4, as it holds of the code.  [files.map] builds the tasks in the order of
    the inputs, each with the name given by the rename policy and the MIME
    type inferred from the path or taken from the buffer's metadata.  This is
    over for every task of the batch before the transfer of any task settles,
    that is before any task gets past its first [await]; within [files.map]
    itself the transfer of a task that need not wait is invoked right after
    the preparation of that task. *)
Theorem tasks_prepared_before_settlement schedule :
  let ev := events (upload w o schedule) in
  (exists rest,
      ev = EConfigure (uploaderOptions profile) (proxy (configuration w))
           :: sync_events w o profile up 0 (files o) ++ rest
      /\ Forall (fun e => is_prepare e = false) rest)
  /\ omap (fun e => match e with EPrepare j info => Some (j, info) | _ => None end)
          (sync_events w o profile up 0 (files o))
     = imap (fun j file => (j, baseInfo w profile j file)) (files o)
  /\ Forall (fun e => match e with
                      | EPrepare _ _ | ETransferStart _ _ => True
                      | _ => False
                      end) (sync_events w o profile up 0 (files o))
  /\ (forall before i s after,
        ev = before ++ ETransferSettle i s :: after ->
        forall j file,
          files o !! j = Some file ->
          EPrepare j (baseInfo w profile j file) ∈ before)
  /\ (forall j file,
        fi_name (baseInfo w profile j file)
        = Some (getFileNameByFormat w (source_name file)
                  (rename (configuration w)) (renameFormat (configuration w)))
        /\ fi_type (baseInfo w profile j file)
           = match file with
             | PathFile p => or_default (mime_lookup w p) "-"
             | BufferFile form => mimetype form
             end).
Proof.
  rewrite !upload_resolved. cbv zeta.
  pose proof (core_run w o profile up schedule) as [_ (rest & Hev & Hrest) _ _ _ _ _ _ _].
  split_and!.
  - by exists rest.
  - apply (sync_prepares w o profile up 0).
  - apply sync_events_only.
  - intros before i s after Heq j file Hfile. rewrite Hev in Heq.
    change (?c :: ?l ++ rest) with ((c :: l) ++ rest) in Heq.
    apply prefix_before in Heq as [mid ->].
    + apply elem_of_app. left. right.
      by apply (sync_prepare_elem w o profile up 0).
    + intros [?|Hin]%elem_of_cons; [done|].
      pose proof (sync_events_only w o profile up 0 (files o)) as Honly.
      rewrite Forall_forall in Honly. by apply Honly in Hin.
  - done.
Qed.

(** C5, as it holds of the code.  When no transfer ends in an unstructured
    error then, once no transfer is in flight, the successes and the failures
    add up to the number of files: every task pushed exactly one record, to
    exactly one of the two arrays. *)
Theorem one_outcome_per_task schedule :
  structured o up = true ->
  let st := upload w o schedule in
  quiescent st = true ->
  length (successRes st) + length (failRes st) = n
  /\ pushed (events st) ≡ₚ seq 0 n
  /\ successRes st = omap (success_record w o profile up) (pushed (events st))
  /\ failRes st = omap (failure_record w o profile up) (pushed (events st))
  /\ (forall j, success_record w o profile up j = None
                \/ failure_record w o profile up j = None)
  /\ (forall j, j < n -> is_Some (outcome_record w o profile up j)).
Proof.
  intros Hstr. rewrite !upload_resolved. cbv zeta.
  set (st := run w o profile up schedule (start w o profile up)). intros Hq.
  pose proof (core_run w o profile up schedule) as Hc. fold st in Hc.
  pose proof (sinv_run w o profile up schedule Hstr) as Hs. fold st in Hs.
  pose proof (sinv_quiescent_fulfilled _ Hs Hq) as Hall.
  pose proof (pushed_all _ _ _ _ _ Hc Hall) as Hperm.
  pose proof Hc as [_ _ _ _ _ _ Hsucc Hfail _].
  split_and!; [|done|done|done|apply srec_frec_exclusive|intros; by apply orec_is_Some].
  rewrite <- length_app, Hsucc, Hfail, records_perm, Hperm, length_omap_all, length_seq;
    [done|].
  apply Forall_seq. intros j Hj'. apply orec_is_Some; [done|lia].
Qed.

(** C10.  With no file in the request nothing is dispatched; the history is
    written once, with no record; [handleSingleUploaded] is then called with
    two missing records and throws on [failFile.errorMessage]; the call ends
    in the [catch] block, which shows the error and does not return
    [successRes]. *)
Theorem empty_batch_ends_in_catch schedule :
  files o = [] ->
  let st := upload w o schedule in
  events st =
    [EConfigure (uploaderOptions profile) (proxy (configuration w)); EHistoryAdd []]
    ++ (if win_isDestroyed w then []
        else [EIpc "uploaded-files-get-reply" (FilesPayload (history_add w []))])
    ++ (if isFromFileManage o then [EIpc "file-upload-reply" NoPayload] else [])
    ++ (if isTest o
        then [EIpc "uploader-profile-test-reply" (BoolPayload false);
              EIpc "uploader-profile-test-reply" (BoolPayload false)]
        else [])
    ++ [ENotification t_abnormal (typeError_message w) false]
  /\ handleSingleUploaded w None None = Throw (typeError_message w)
  /\ returned st = Some RetUndefined
  /\ uploadQuence st = [] /\ successRes st = [] /\ failRes st = [].
Proof.
  intros Hfiles. rewrite upload_resolved. cbv zeta.
  assert (start w o profile up =
          mkState [] [] [] (Some RetUndefined)
            ([EConfigure (uploaderOptions profile) (proxy (configuration w))]
             ++ join_events w o [] [])) as Hstart.
  { rewrite start_eq. unfold dispatched, join. rewrite Hfiles. simpl.
    rewrite after_join_eq. simpl. unfold join_return. by rewrite Hfiles. }
  rewrite run_no_tasks by by rewrite Hstart.
  rewrite Hstart. simpl. split_and!; try done.
  unfold join_events, handleAddHistory, catch_events. rewrite Hfiles. simpl.
  destruct (win_isDestroyed w), (isFromFileManage o), (isTest o); done.
Qed.

End UploadClaims.

(** ** Profile and adapter resolution *)

(** C6, as it holds of the code.  What decides is the [isTest] flag, not the
    presence of a test profile: a request flagged as a test uses [testProfile]
    whatever the two ids are; any other request uses the first known profile
    whose id is the explicit id when that is a non-empty string, and the
    configured default id otherwise. *)
Theorem profile_selection (w : World) (o : UploadOptions) :
  (isTest o = true -> selectProfile w o = testProfile o)
  /\ (isTest o = false ->
      let wanted := js_or (customUploaderProfileId o)
                          (defaultUploaderProfileId (configuration w)) in
      (truthy (customUploaderProfileId o) = true ->
         wanted = customUploaderProfileId o)
      /\ (truthy (customUploaderProfileId o) = false ->
         wanted = defaultUploaderProfileId (configuration w))
      /\ selectProfile w o
         = List.find (fun p => bool_decide (Some (profile_id p) = wanted))
                     (uploaderProfiles w)
      /\ (forall p, selectProfile w o = Some p ->
                   p ∈ uploaderProfiles w /\ Some (profile_id p) = wanted)
      /\ (selectProfile w o = None ->
         forall p, p ∈ uploaderProfiles w -> Some (profile_id p) <> wanted)).
Proof.
  unfold selectProfile. split; intros Ht; rewrite Ht; [done|].
  cbv zeta. unfold js_or. split_and!.
  - by intros ->.
  - by intros ->.
  - done.
  - intros p [Hin Hp]%find_some. split; [by apply list_elem_of_In|].
    by apply bool_decide_eq_true in Hp.
  - intros Hnone p Hin%list_elem_of_In Hp.
    pose proof (find_none _ _ Hnone p Hin) as Hf. simpl in Hf.
    by rewrite bool_decide_eq_false in Hf.
Qed.

(** C7.  When no profile is selected, or no adapter is registered under the
    name the selected profile gives, [upload] shows one notification and
    returns [false]: nothing is configured, prepared, transferred or written
    to the history, whatever the environment does next.  The text tells an
    explicit id that was not found from a missing default. *)
Theorem unresolved_request_stops (w : World) (o : UploadOptions) (schedule : list nat) :
  (selectProfile w o = None
   \/ exists p, selectProfile w o = Some p
               /\ getUploaderByName w (uploaderName p) = None) ->
  let st := upload w o schedule in
  exists body,
    events st = [ENotification t_abnormal body false]
    /\ returned st = Some RetFalse
    /\ uploadQuence st = [] /\ successRes st = [] /\ failRes st = []
    /\ (selectProfile w o = None ->
        if truthy (customUploaderProfileId o)
        then body = "上传器配置不存在"
        else body = (if 0 <? length (uploaderProfiles w)
                     then "请配置默认的上传器" else "请添加上传器配置")
             /\ body <> "上传器配置不存在")
    /\ (forall p, selectProfile w o = Some p ->
                 body = "没有找到" +:+ uploaderName p +:+ "上传器").
Proof.
  intros [Hnone|(p & Hp & Hup)]; unfold upload; cbv zeta.
  - rewrite Hnone. exists (missing_profile_body w o). simpl.
    split_and!; try done. intros _. unfold missing_profile_body.
    destruct (truthy (customUploaderProfileId o)); [done|].
    split; [done|]. by destruct (0 <? length (uploaderProfiles w)).
  - rewrite Hp, Hup. exists (missing_uploader_body p). simpl.
    split_and!; try done. by intros p' [= <-].
Qed.

(** ** Checks on the sample requests *)

Section Samples.
Import Sample.

(** A sequence of three files, the second of which the adapter refuses: the
    transfers run one after the other and the batch ends with the history
    write and the aggregate notification. *)
Example sequence_run :
  let st := upload seq_world (request three) [0; 1; 2] in
  tag <$> events st
  = [("configure", None);
     ("prepare", Some 0); ("transfer starts", Some 0);
     ("prepare", Some 1); ("prepare", Some 2);
     ("transfer settles", Some 0); ("success recorded", Some 0);
     ("transfer starts", Some 1);
     ("transfer settles", Some 1); ("failure recorded", Some 1);
     ("transfer starts", Some 2);
     ("transfer settles", Some 2); ("success recorded", Some 2);
     ("history", None); ("ipc", None); ("notification", None)]
  /\ (exists a b, returned st = Some (RetSuccess [a; b]))
  /\ List.filter is_notification (events st)
     = [ENotification "批量上传结束" "成功2个，失败1个" false].
Proof. split_and!; [reflexivity|by eexists _, _|reflexivity]. Qed.

(** The same sequence when the first transfer throws: the two tasks behind
    it are rejected without their transfer ever being invoked. *)
Example sequence_fault_run :
  let st := upload (world (Some (sequence first_throws))) (request three) [0; 1; 2] in
  uploadQuence st
  = [Rejected "socket hang up"; Rejected "socket hang up"; Rejected "socket hang up"]
  /\ tag <$> events st
     = [("configure", None);
        ("prepare", Some 0); ("transfer starts", Some 0);
        ("prepare", Some 1); ("prepare", Some 2);
        ("transfer settles", Some 0); ("notification", None)]
  /\ returned st = Some RetUndefined.
Proof. split_and!; reflexivity. Qed.

(** One file: the link is shown in the notification. *)
Example single_run :
  let st := upload par_world (request [PathFile "a.png"]) [0] in
  tag <$> events st
  = [("configure", None);
     ("prepare", Some 0); ("transfer starts", Some 0);
     ("transfer settles", Some 0); ("success recorded", Some 0);
     ("history", None); ("ipc", None); ("notification", None)]
  /\ fi_type <$> successRes st = ["image/png"]
  /\ List.filter is_notification (events st)
     = [ENotification "上传成功" "https://cdn.example.com/f" false].
Proof. split_and!; reflexivity. Qed.

(** A download of unknown size whose writer fails after the first chunk:
    the error is the only message. *)
Example failed_download :
  Download.download "f.bin"
    (Download.Streams None
       [Download.Data 10; Download.WriterError "disk full"; Download.WriterClose])
  = [EIpc "file-download-reply" (TextPayload "disk full")].
Proof. reflexivity. Qed.

(** C1 does not hold as worded.  The first of two parallel transfers throws;
    both transfers settle; [upload] has gone to its [catch] block, which
    showed the error, and nothing was written to the history, although the
    second file was uploaded. *)
Lemma faults_not_isolated :
  let st := upload (world (Some (parallel first_throws))) (request two) [0; 1] in
  uploadQuence st = [Rejected "socket hang up"; Fulfilled]
  /\ tag <$> events st
     = [("configure", None);
        ("prepare", Some 0); ("transfer starts", Some 0);
        ("prepare", Some 1); ("transfer starts", Some 1);
        ("transfer settles", Some 0); ("notification", None);
        ("transfer settles", Some 1); ("success recorded", Some 1)]
  /\ returned st = Some RetUndefined
  /\ pushed (events st) = [1]
  /\ failRes st = []
  /\ List.filter is_history (events st) = []
  /\ ~ faults_isolated (world (Some (parallel first_throws))) (request two).
Proof.
  split_and!; [reflexivity..|].
  intros H. destruct (H [0; 1] eq_refl) as (_ & records & Hin).
  vm_compute in Hin. absent Hin.
Qed.

(** C2 does not hold as worded.  In the same batch, with the transfers
    settling in the other order, the history write is made zero times. *)
Lemma batch_effects_not_once :
  let st := upload (world (Some (parallel first_throws))) (request two) [1; 0] in
  quiescent st = true
  /\ tag <$> events st
     = [("configure", None);
        ("prepare", Some 0); ("transfer starts", Some 0);
        ("prepare", Some 1); ("transfer starts", Some 1);
        ("transfer settles", Some 1); ("success recorded", Some 1);
        ("transfer settles", Some 0); ("notification", None)]
  /\ ~ batch_effects_once (world (Some (parallel first_throws))) (request two).
Proof.
  split_and!; [reflexivity|reflexivity|].
  intros H. specialize (H [1; 0] eq_refl). vm_compute in H. discriminate H.
Qed.

(** C4 does not hold as worded.  The transfer of the first file is invoked
    before the second file is prepared. *)
Lemma transfer_before_all_prepared :
  let st := upload (world (Some (parallel (fun _ => ok)))) (request two) [] in
  tag <$> events st
  = [("configure", None);
     ("prepare", Some 0); ("transfer starts", Some 0);
     ("prepare", Some 1); ("transfer starts", Some 1)]
  /\ ~ prepared_before_transfers (world (Some (parallel (fun _ => ok)))) (request two).
Proof.
  split; [reflexivity|]. intros H.
  destruct (H [] (firstn 2 (events (upload (world (Some (parallel (fun _ => ok))))
                                           (request two) [])))
              0 _ _ eq_refl 1 ltac:(simpl; lia)) as [info Hin].
  vm_compute in Hin. absent Hin.
Qed.

(** C5 does not hold as worded.  Of three parallel transfers the first
    throws; once all three have settled there are two outcomes. *)
Lemma outcome_missing :
  let st := upload (world (Some (parallel first_throws))) (request three) [2; 0; 1] in
  uploadQuence st = [Rejected "socket hang up"; Fulfilled; Fulfilled]
  /\ length (successRes st) = 2
  /\ length (failRes st) = 0
  /\ ~ one_outcome_each (world (Some (parallel first_throws))) (request three).
Proof.
  split_and!; [reflexivity|reflexivity|reflexivity|].
  intros H. specialize (H [2; 0; 1] eq_refl). vm_compute in H. discriminate H.
Qed.

(** C6 does not hold as worded.  A request that carries a test profile but
    is not flagged as a test gets the default profile. *)
Lemma test_profile_ignored :
  isTest unflagged_test = false
  /\ profile_id <$> testProfile unflagged_test = Some "t"
  /\ profile_id <$> selectProfile par_world unflagged_test = Some "p1"
  /\ ~ test_profile_wins par_world unflagged_test.
Proof.
  split_and!; [reflexivity|reflexivity|reflexivity|].
  unfold test_profile_wins. simpl. vm_compute. discriminate.
Qed.

(** The theorems above at sample requests: their hypotheses can be met. *)

Lemma structured_failures_isolated_witness :
  selectProfile seq_world (request three) = Some oss
  /\ getUploaderByName seq_world (uploaderName oss) = Some (sequence second_fails)
  /\ structured (request three) (sequence second_fails) = true
  /\ quiescent (upload seq_world (request three) ([0] ++ seq 0 3)) = true
  /\ quiescent (upload seq_world (request three) [0; 1; 2]) = true
  /\ length (successRes (upload seq_world (request three) [0; 1; 2])
             ++ failRes (upload seq_world (request three) [0; 1; 2])) = 3.
Proof.
  split_and!; [reflexivity|reflexivity|reflexivity| |reflexivity|].
  - exact (proj1 (proj2 (proj1
      (structured_failures_isolated seq_world (request three) oss
         (sequence second_fails) eq_refl eq_refl [0]) eq_refl))).
  - exact (proj2 (proj2 (proj2 (proj2 (proj1
      (structured_failures_isolated seq_world (request three) oss
         (sequence second_fails) eq_refl eq_refl [0; 1; 2]) eq_refl)) eq_refl))).
Defined.

Lemma batch_effects_after_all_settled_witness :
  selectProfile par_world (request three) = Some oss
  /\ getUploaderByName par_world (uploaderName oss) = Some (parallel second_fails)
  /\ structured (request three) (parallel second_fails) = true
  /\ quiescent (upload par_world (request three) [2; 0; 1]) = true
  /\ length (List.filter is_history
               (events (upload par_world (request three) [2; 0; 1]))) = 1.
Proof.
  split_and!; [reflexivity|reflexivity|reflexivity|reflexivity|].
  exact (proj1 (proj1 (proj2 (proj2 (proj2
    (batch_effects_after_all_settled par_world (request three) oss
       (parallel second_fails) eq_refl eq_refl [2; 0; 1])))) eq_refl eq_refl)).
Defined.

Lemma sequence_transfers_in_order_witness :
  selectProfile seq_world (request three) = Some oss
  /\ getUploaderByName seq_world (uploaderName oss) = Some (sequence second_fails)
  /\ batchUploadMode (sequence second_fails) = "Sequence"
  /\ guarded (events (upload seq_world (request three) [1; 0; 2; 1])).
Proof.
  split_and!; [reflexivity|reflexivity|reflexivity|].
  exact (proj1
    (sequence_transfers_in_order seq_world (request three) oss
       (sequence second_fails) eq_refl eq_refl [1; 0; 2; 1] eq_refl)).
Defined.

Lemma tasks_prepared_before_settlement_witness :
  selectProfile par_world (request two) = Some oss
  /\ getUploaderByName par_world (uploaderName oss) = Some (parallel second_fails)
  /\ forall before i s after,
       events (upload par_world (request two) [1]) = before ++ ETransferSettle i s :: after ->
       forall j file,
         files (request two) !! j = Some file ->
         EPrepare j (baseInfo par_world oss j file) ∈ before.
Proof.
  split_and!; [reflexivity|reflexivity|].
  exact (proj1 (proj2 (proj2 (proj2
    (tasks_prepared_before_settlement par_world (request two) oss
       (parallel second_fails) eq_refl eq_refl [1]))))).
Defined.

Lemma one_outcome_per_task_witness :
  selectProfile par_world (request three) = Some oss
  /\ getUploaderByName par_world (uploaderName oss) = Some (parallel second_fails)
  /\ structured (request three) (parallel second_fails) = true
  /\ quiescent (upload par_world (request three) [1; 2; 0]) = true
  /\ length (successRes (upload par_world (request three) [1; 2; 0]))
     + length (failRes (upload par_world (request three) [1; 2; 0])) = 3.
Proof.
  split_and!; [reflexivity|reflexivity|reflexivity|reflexivity|].
  exact (proj1
    (one_outcome_per_task par_world (request three) oss
       (parallel second_fails) eq_refl eq_refl [1; 2; 0] eq_refl eq_refl)).
Defined.

Lemma profile_selection_witness :
  isTest test_request = true
  /\ selectProfile par_world test_request = testProfile test_request.
Proof.
  split; [reflexivity|].
  exact (proj1 (profile_selection par_world test_request) eq_refl).
Defined.

Lemma unresolved_request_stops_witness :
  selectProfile par_world unknown_profile = None
  /\ exists body,
      events (upload par_world unknown_profile [0])
      = [ENotification t_abnormal body false]
      /\ returned (upload par_world unknown_profile [0]) = Some RetFalse.
Proof.
  split; [reflexivity|].
  destruct (unresolved_request_stops par_world unknown_profile [0] (or_introl eq_refl))
    as (body & Hev & Hret & _).
  exists body. split; [exact Hev|exact Hret].
Defined.

Lemma empty_batch_ends_in_catch_witness :
  selectProfile par_world (request []) = Some oss
  /\ getUploaderByName par_world (uploaderName oss) = Some (parallel second_fails)
  /\ files (request []) = []
  /\ returned (upload par_world (request []) [0]) = Some RetUndefined.
Proof.
  split_and!; [reflexivity|reflexivity|reflexivity|].
  exact (proj1 (proj2 (proj2
    (empty_batch_ends_in_catch par_world (request []) oss
       (parallel second_fails) eq_refl eq_refl [0] eq_refl)))).
Defined.

Lemma download_unknown_size_done_witness :
  Download.closes [Download.Data 10; Download.WriterError "disk full"; Download.WriterClose] <= 1
  /\ length (Download.terminals
       (Download.download "f.bin"
          (Download.Streams None
             [Download.Data 10; Download.WriterError "disk full"; Download.WriterClose]))) <= 1.
Proof.
  assert (Download.closes [Download.Data 10; Download.WriterError "disk full";
                           Download.WriterClose] <= 1) as H by (vm_compute; lia).
  split; [exact H|].
  exact (proj1 (proj2 (proj2
    (download_unknown_size_done "f.bin"
       [Download.Data 10; Download.WriterError "disk full"; Download.WriterClose]))) H).
Defined.

End Samples.

(** ** More about [upload] *)

Section UploadMore.

Variable w : World.
Variable o : UploadOptions.
Variable profile : UploaderProfile.
Variable up : Uploader.

Hypothesis Hprofile : selectProfile w o = Some profile.
Hypothesis Huploader : getUploaderByName w (uploaderName profile) = Some up.

Local Abbreviation n := (length (files o)).
Local Abbreviation step := (Upload.step w o profile up).
Local Abbreviation run := (Upload.run w o profile up).
Local Abbreviation start := (Upload.start w o profile up).
Local Abbreviation srec := (success_record w o profile up).
Local Abbreviation frec := (failure_record w o profile up).

Lemma join_rejected_tasks m st :
  uploadQuence (join_rejected o m st) = uploadQuence st.
Proof. unfold join_rejected. by destruct (returned st). Qed.

Lemma start_tasks : uploadQuence start = initial_status up <$> seq 0 n.
Proof. by rewrite start_eq, join_tasks. Qed.

(** What one settlement does to the queue, whatever the answer. *)
Lemma step_tasks_cases i st :
  core w o profile up st ->
  uploadQuence st !! i = Some InFlight ->
  (exists file res,
      files o !! i = Some file /\ transfer up i = Resolves res
      /\ uploadQuence (step i st) = uploadQuence (resolved w o profile up i file res st))
  \/ (exists m,
      transfer up i = Rejects m
      /\ uploadQuence (step i st) = reject i m (uploadQuence st)).
Proof.
  intros Hc Hi. pose proof Hc as [Hlen _ _ _ _ _ _ _ _].
  assert (is_Some (files o !! i)) as [file Hfile].
  { apply lookup_lt_is_Some. rewrite <- Hlen. by eapply lookup_lt_Some. }
  destruct (transfer up i) as [res|m] eqn:Htr.
  - left. exists file, res. split_and!; [done|done|].
    by rewrite (step_resolved w o profile up i file res), join_tasks.
  - right. exists m. split; [done|].
    by rewrite (step_rejected w o profile up i file m), join_rejected_tasks.
Qed.

Lemma resolved_log i file res st :
  length (uploadQuence st) = n ->
  files o !! i = Some file ->
  exists record,
    events (resolved w o profile up i file res st)
    = events st
      ++ [ETransferSettle i (transfer up i);
          match res with
          | SuccessResponse _ => EPushSuccess i record
          | FailResponse _ => EPushFail i record
          end]
      ++ (if decide (uploadQuence st !! S i = Some AwaitPrev)
          then match files o !! S i with
               | Some next => [ETransferStart (S i) (uploadArgs w o next)]
               | None => []
               end
          else []).
Proof.
  intros Hlen Hfile. unfold resolved, wake.
  assert (uploadQuence (toUpload_finish w profile i file res
                   (emit [ETransferSettle i (transfer up i)] st))
          = <[i := Fulfilled]> (uploadQuence st)) as -> by by destruct res.
  rewrite list_lookup_insert_ne by lia.
  destruct (uploadQuence st !! S i) as [t|] eqn:Hnext.
  - assert (is_Some (files o !! S i)) as [f Hf].
    { apply lookup_lt_is_Some. rewrite <- Hlen. by eapply lookup_lt_Some. }
    rewrite Hf. destruct t, res; simpl; eexists;
      rewrite ?decide_True by done; rewrite ?decide_False by done;
      by list_norm.
  - rewrite decide_False by done. destruct res; simpl; eexists; by list_norm.
Qed.

Lemma resolved_pushed i file res st :
  length (uploadQuence st) = n ->
  files o !! i = Some file ->
  pushed (events (resolved w o profile up i file res st)) = pushed (events st) ++ [i].
Proof.
  intros Hlen Hfile.
  destruct (resolved_log i file res st Hlen Hfile) as [record ->].
  rewrite !pushed_app. case_decide; [destruct (files o !! S i)|];
    destruct res; simpl; by rewrite ?app_nil_r.
Qed.

Lemma resolved_starts i file res st :
  length (uploadQuence st) = n ->
  files o !! i = Some file ->
  (forall j, uploadQuence st !! j <> Some AwaitPrev) ->
  starts (events (resolved w o profile up i file res st)) = starts (events st).
Proof.
  intros Hlen Hfile Hno.
  destruct (resolved_log i file res st Hlen Hfile) as [record ->].
  rewrite decide_False by apply Hno.
  rewrite !starts_app. destruct res; simpl; by rewrite ?app_nil_r.
Qed.

Lemma join_log st :
  exists tail,
    events (join w o st) = events st ++ tail
    /\ Forall (fun e => task_event e = false) tail.
Proof.
  unfold join. destruct (returned st); [exists []; by rewrite app_nil_r|].
  destruct (forallb _ _); [|exists []; by rewrite app_nil_r].
  rewrite after_join_eq. simpl. eexists. split; [done|]. apply jevents_batch.
Qed.

Lemma join_rejected_log m st :
  exists tail,
    events (join_rejected o m st) = events st ++ tail
    /\ Forall (fun e => task_event e = false) tail.
Proof.
  unfold join_rejected. destruct (returned st); [exists []; by rewrite app_nil_r|].
  rewrite catch_block_eq. simpl. eexists. split; [done|]. apply cevents_batch.
Qed.

(** What one settlement adds to the outcomes recorded and to the transfers
    invoked. *)
Lemma step_pushed i st :
  core w o profile up st ->
  uploadQuence st !! i = Some InFlight ->
  pushed (events (step i st))
  = pushed (events st) ++ (if resolves (transfer up i) then [i] else []).
Proof.
  intros Hc Hi. pose proof Hc as [Hlen _ _ _ _ _ _ _ _].
  assert (is_Some (files o !! i)) as [file Hfile].
  { apply lookup_lt_is_Some. rewrite <- Hlen. by eapply lookup_lt_Some. }
  destruct (transfer up i) as [res|m] eqn:Htr; simpl.
  - rewrite (step_resolved w o profile up i file res) by done.
    destruct (join_log (resolved w o profile up i file res st)) as (tail & -> & Htail).
    by rewrite pushed_app, (pushed_batch tail), app_nil_r, resolved_pushed.
  - rewrite (step_rejected w o profile up i file m) by done.
    destruct (join_rejected_log m
      {| uploadQuence := reject i m (uploadQuence st); successRes := successRes st;
         failRes := failRes st; returned := returned st;
         events := events st ++ [ETransferSettle i (Rejects m)] |}) as (tail & -> & Htail).
    simpl. by rewrite !pushed_app, (pushed_batch tail), !app_nil_r.
Qed.

(** *** Adapters that are not sequential *)

Lemma parallel_never_waits schedule :
  String.eqb (batchUploadMode up) "Sequence" = false ->
  forall j, uploadQuence (run schedule start) !! j <> Some AwaitPrev.
Proof.
  intros Hm. induction schedule as [|i schedule IH] using rev_ind; intros j.
  - simpl. rewrite start_tasks. intros [Hs _]%lookup_status0.
    unfold initial_status, sequenced in Hs. by rewrite Hm in Hs.
  - rewrite run_snoc.
    set (st := run schedule start) in *.
    pose proof (core_run w o profile up schedule) as Hc. fold st in Hc.
    pose proof Hc as [Hlen _ _ _ _ _ _ _ _].
    destruct (decide (uploadQuence st !! i = Some InFlight)) as [Hi|Hi];
      [|by rewrite step_idle].
    destruct (step_tasks_cases i st Hc Hi)
      as [(file & res & _ & _ & ->)|(m & _ & ->)].
    + intros Hj. apply resolved_lookup in Hj; [|done|done].
      destruct Hj as [[_ ?]|[(_ & ? & _)|(_ & Hj & _)]]; [done|done|].
      by apply IH in Hj.
    + intros Hj. apply reject_lookup in Hj as [?|[Hj _]]; [done| |].
      * by apply IH in Hj.
      * by eapply lookup_lt_Some.
Qed.

Lemma parallel_starts schedule :
  String.eqb (batchUploadMode up) "Sequence" = false ->
  starts (events (run schedule start)) = seq 0 n.
Proof.
  intros Hm. induction schedule as [|i schedule IH] using rev_ind.
  - simpl. destruct (start_events w o profile up) as (rest & -> & Hrest).
    change (starts (sync_events w o profile up 0 (files o) ++ rest) = seq 0 n).
    rewrite starts_app, (starts_batch rest), app_nil_r, starts_sync by done.
    apply filter_seq_all. intros j _. unfold sequenced. by rewrite Hm.
  - rewrite run_snoc.
    set (st := run schedule start) in *.
    pose proof (core_run w o profile up schedule) as Hc. fold st in Hc.
    pose proof Hc as [Hlen _ _ _ _ _ _ _ _].
    destruct (decide (uploadQuence st !! i = Some InFlight)) as [Hi|Hi];
      [|by rewrite step_idle].
    assert (is_Some (files o !! i)) as [file Hfile].
    { apply lookup_lt_is_Some. rewrite <- Hlen. by eapply lookup_lt_Some. }
    destruct (transfer up i) as [res|m] eqn:Htr.
    + rewrite (step_resolved w o profile up i file res) by done.
      destruct (join_log (resolved w o profile up i file res st)) as (tail & -> & Htail).
      rewrite starts_app, (starts_batch tail), app_nil_r, resolved_starts; try done.
      by apply parallel_never_waits.
    + rewrite (step_rejected w o profile up i file m) by done.
      destruct (join_rejected_log m
        {| uploadQuence := reject i m (uploadQuence st); successRes := successRes st;
           failRes := failRes st; returned := returned st;
           events := events st ++ [ETransferSettle i (Rejects m)] |}) as (tail & -> & Htail).
      simpl. by rewrite !starts_app, (starts_batch tail), !app_nil_r.
Qed.

(** X1.  Whatever [batchUploadMode] is, if it is not exactly ['Sequence']
    the adapter is treated as parallel: [files.map] invokes the transfer of
    every file before [upload] first suspends, all of them are then in
    flight, and no transfer is invoked later. *)
Theorem parallel_transfers_start_at_once schedule :
  String.eqb (batchUploadMode up) "Sequence" = false ->
  uploadQuence (upload w o []) = replicate n InFlight
  /\ starts (events (upload w o [])) = seq 0 n
  /\ starts (events (upload w o schedule)) = seq 0 n.
Proof.
  intros Hm. rewrite !(upload_resolved w o profile up Hprofile Huploader). split_and!.
  - simpl. rewrite start_tasks. apply list_eq. intros j.
    rewrite list_lookup_fmap. destruct (decide (j < n)) as [Hj|Hj].
    + rewrite lookup_seq_lt, lookup_replicate_2 by done. simpl.
      unfold initial_status, sequenced. by rewrite Hm.
    + rewrite lookup_seq_ge by lia. simpl. symmetry.
      apply lookup_replicate_None. lia.
  - by apply (parallel_starts []).
  - by apply parallel_starts.
Qed.

(** *** Sequential adapters *)

Lemma sequence_inflight_after_fulfilled schedule :
  batchUploadMode up = "Sequence" ->
  forall i j,
    uploadQuence (run schedule start) !! i = Some InFlight ->
    j < i ->
    uploadQuence (run schedule start) !! j = Some Fulfilled.
Proof.
  intros Hm. induction schedule as [|i0 schedule IH] using rev_ind; intros i j.
  - simpl. rewrite start_tasks. intros [Hs _]%lookup_status0 Hj.
    unfold initial_status, sequenced in Hs. rewrite Hm in Hs. simpl in Hs.
    destruct i; [lia|done].
  - rewrite run_snoc.
    set (st := run schedule start) in *.
    pose proof (core_run w o profile up schedule) as Hc. fold st in Hc.
    pose proof Hc as [Hlen _ _ _ _ _ _ _ _].
    destruct (decide (uploadQuence st !! i0 = Some InFlight)) as [Hi0|Hi0];
      [|rewrite step_idle by done; apply IH].
    assert (i0 < length (uploadQuence st)) as Hlt by by eapply lookup_lt_Some.
    destruct (step_tasks_cases i0 st Hc Hi0)
      as [(file & res & _ & _ & ->)|(m & _ & ->)].
    + intros Hi Hj. apply resolved_lookup in Hi; [|done|done].
      destruct Hi as [[_ ?]|[(-> & _ & _)|(Hne & Hi & _)]]; [done| |].
      * destruct (decide (j = i0)) as [->|Hne]; [by apply resolved_lookup_self|].
        apply resolved_lookup_keep; [done|done| |done|done].
        apply (IH i0); [done|lia].
      * apply resolved_lookup_keep; [done|done| |done|done]. by apply (IH i).
    + intros Hi Hj. apply reject_lookup in Hi as [?|[Hi Hne]]; [done| |done].
      pose proof (IH i j Hi Hj) as Hful.
      apply reject_lookup_keep; [done| |done|done]. intros ->. congruence.
Qed.

(** X2.  Under an adapter whose [batchUploadMode] is ['Sequence'] at most
    one transfer is in flight at any time, and every file before it has
    already recorded its outcome. *)
Theorem sequence_one_transfer_at_a_time schedule i j :
  batchUploadMode up = "Sequence" ->
  uploadQuence (upload w o schedule) !! i = Some InFlight ->
  (uploadQuence (upload w o schedule) !! j = Some InFlight -> i = j)
  /\ (j < i -> j ∈ pushed (events (upload w o schedule))).
Proof.
  intros Hm. rewrite !(upload_resolved w o profile up Hprofile Huploader). intros Hi. split.
  - intros Hj. destruct (Nat.lt_trichotomy i j) as [Hlt|[?|Hlt]]; [|done|].
    + pose proof (sequence_inflight_after_fulfilled schedule Hm j i Hj Hlt). congruence.
    + pose proof (sequence_inflight_after_fulfilled schedule Hm i j Hi Hlt). congruence.
  - intros Hlt. pose proof (core_run w o profile up schedule) as [_ _ _ _ _ Hdone _ _ _].
    apply Hdone. by apply (sequence_inflight_after_fulfilled schedule Hm i j).
Qed.

Lemma sequence_pushed schedule :
  batchUploadMode up = "Sequence" ->
  exists p, pushed (events (run schedule start)) = seq 0 p.
Proof.
  intros Hm. induction schedule as [|i schedule IH] using rev_ind.
  - exists 0. simpl. destruct (start_events w o profile up) as (rest & -> & Hrest).
    change (pushed ([EConfigure (uploaderOptions profile) (proxy (configuration w))]
                    ++ sync_events w o profile up 0 (files o) ++ rest) = []).
    by rewrite !pushed_app, pushed_sync, (pushed_batch rest).
  - rewrite run_snoc. destruct IH as [p Hp].
    pose proof (sequence_inflight_after_fulfilled schedule Hm) as Hbefore.
    set (st := run schedule start) in *.
    pose proof (core_run w o profile up schedule) as Hc. fold st in Hc.
    destruct (decide (uploadQuence st !! i = Some InFlight)) as [Hi|Hi];
      [|rewrite step_idle by done; by exists p].
    rewrite step_pushed by done.
    destruct (resolves (transfer up i)); [|exists p; by rewrite app_nil_r].
    exists (S p). rewrite Hp, seq_S. simpl. do 2 f_equal.
    pose proof Hc as [_ _ _ _ _ Hdone _ _ _].
    assert (~ i < p) as Hge.
    { intros Hlt. assert (i ∈ pushed (events st)) as Hin
        by (rewrite Hp, elem_of_seq; lia).
      apply Hdone in Hin. congruence. }
    assert (~ p < i) as Hle.
    { intros Hlt. pose proof (Hbefore i p Hi Hlt) as Hful.
      apply Hdone in Hful. rewrite Hp, elem_of_seq in Hful. lia. }
    lia.
Qed.

(** X3.  Under a ['Sequence'] adapter the outcomes are recorded in the order
    of submission: at every moment the files that have recorded an outcome
    are the first [p] files, [successRes] and [failRes] list them in that
    order, and when every transfer has ended in a response [p] is the
    number of files. *)
Theorem sequence_outcomes_in_submission_order schedule :
  batchUploadMode up = "Sequence" ->
  let st := upload w o schedule in
  exists p,
    pushed (events st) = seq 0 p
    /\ p <= n
    /\ successRes st = omap (success_record w o profile up) (seq 0 p)
    /\ failRes st = omap (failure_record w o profile up) (seq 0 p)
    /\ (structured o up = true -> quiescent st = true -> p = n).
Proof.
  intros Hm. rewrite !(upload_resolved w o profile up Hprofile Huploader). cbv zeta.
  destruct (sequence_pushed schedule Hm) as [p Hp].
  set (st := run schedule start) in *.
  pose proof (core_run w o profile up schedule) as Hc. fold st in Hc.
  pose proof Hc as [Hlen _ _ _ _ Hdone Hsucc Hfail _].
  exists p. rewrite Hsucc, Hfail, Hp. split_and!; try done.
  - destruct p as [|p]; [lia|].
    assert (p ∈ pushed (events st)) as Hin by (rewrite Hp, elem_of_seq; lia).
    apply Hdone, lookup_lt_Some in Hin. lia.
  - intros Hstr Hq.
    pose proof (sinv_run w o profile up schedule Hstr) as Hs. fold st in Hs.
    pose proof (sinv_quiescent_fulfilled _ Hs Hq) as Hall.
    pose proof (pushed_all _ _ _ _ _ Hc Hall) as Hperm.
    apply Permutation_length in Hperm. by rewrite Hp, !length_seq in Hperm.
Qed.


(** *** When [upload] returns, and what *)

Lemma waiting_step i st :
  core w o profile up st ->
  returned (step i st) = None ->
  returned st = None
  /\ (uploadQuence st !! i = Some InFlight ->
      exists file res, files o !! i = Some file /\ transfer up i = Resolves res).
Proof.
  intros Hc Hnone. pose proof Hc as [Hlen _ _ _ _ _ _ _ _].
  destruct (decide (uploadQuence st !! i = Some InFlight)) as [Hi|Hi];
    [|by rewrite step_idle in Hnone].
  assert (is_Some (files o !! i)) as [file Hfile].
  { apply lookup_lt_is_Some. rewrite <- Hlen. by eapply lookup_lt_Some. }
  destruct (transfer up i) as [res|m] eqn:Htr.
  - rewrite (step_resolved w o profile up i file res) in Hnone by done.
    split; [|by eauto].
    destruct (returned st) as [r|] eqn:Hr; [|done].
    unfold join in Hnone. rewrite resolved_returned, Hr in Hnone.
    by rewrite resolved_returned, Hr in Hnone.
  - rewrite (step_rejected w o profile up i file m) in Hnone by done.
    unfold join_rejected in Hnone. simpl in Hnone.
    destruct (returned st); [done|by rewrite catch_block_eq in Hnone].
Qed.

Lemma sinv_step_resolved i file res st :
  core w o profile up st -> sinv st ->
  uploadQuence st !! i = Some InFlight ->
  files o !! i = Some file ->
  transfer up i = Resolves res ->
  sinv (step i st).
Proof.
  intros Hc [Hrej Hhead Hchain] Hi Hfile Htr.
  pose proof Hc as [Hlen _ _ _ _ _ _ _ _].
  rewrite (step_resolved w o profile up i file res) by done.
  split; rewrite join_tasks.
  - intros j m Hj. apply resolved_lookup in Hj; [|done|done].
    destruct Hj as [[_ ?]|[(_ & ? & _)|(_ & Hj & _)]]; [done|done|].
    by eapply Hrej.
  - intros Hj. apply resolved_lookup in Hj; [|done|done].
    destruct Hj as [[_ ?]|[(? & _)|(_ & Hj & _)]]; done.
  - intros j Hj. apply resolved_lookup in Hj; [|done|done].
    destruct Hj as [[_ ?]|[(_ & ? & _)|(Hne & Hj & Hw)]]; [done|done|].
    destruct (decide (j = i)) as [->|Hji]; [by specialize (Hw Hj)|].
    rewrite resolved_tasks by done. case_decide as Hwoke.
    + destruct (decide (j = S i)) as [->|Hjs].
      * left. rewrite list_lookup_insert_eq; [done|].
        rewrite length_insert. by eapply lookup_lt_Some.
      * rewrite !list_lookup_insert_ne by done. auto.
    + rewrite list_lookup_insert_ne by done. auto.
Qed.

(** As long as [upload] waits, no transfer has been rejected and every
    waiting task has a predecessor that has not settled. *)
Lemma waiting_sinv schedule :
  returned (run schedule start) = None -> sinv (run schedule start).
Proof.
  induction schedule as [|i schedule IH] using rev_ind; [intros _; apply sinv_start|].
  rewrite run_snoc. intros Hnone.
  pose proof (core_run w o profile up schedule) as Hc.
  destruct (waiting_step _ _ Hc Hnone) as [Hbefore Hres].
  destruct (decide (uploadQuence (run schedule start) !! i = Some InFlight)) as [Hi|Hi];
    [|rewrite step_idle by done; by apply IH].
  destruct (Hres Hi) as (file & res & Hfile & Htr).
  eapply sinv_step_resolved; eauto.
Qed.

Lemma run_quiescent_returned schedule :
  quiescent (run schedule start) = true -> returned (run schedule start) <> None.
Proof.
  intros Hq Hnone.
  pose proof (sinv_quiescent_fulfilled _ (waiting_sinv schedule Hnone) Hq) as Hall.
  destruct (joinv_run w o profile up schedule) as [Hwait _].
  destruct (Hwait Hnone) as [Hnot _]. congruence.
Qed.

Lemma waiting_prefix schedule j :
  j <= n ->
  returned (run (schedule ++ seq 0 j) start) = None ->
  forall i, i < j -> uploadQuence (run (schedule ++ seq 0 j) start) !! i = Some Fulfilled.
Proof.
  induction j as [|j IH]; intros Hj Hnone i Hi; [lia|].
  revert Hnone. rewrite seq_S, app_assoc, run_snoc. simpl. intros Hnone.
  pose proof (core_run w o profile up (schedule ++ seq 0 j)) as Hc.
  destruct (waiting_step _ _ Hc Hnone) as [Hbefore Hres].
  pose proof (waiting_sinv _ Hbefore) as [Hrej Hhead Hchain].
  specialize (IH ltac:(lia) Hbefore).
  set (st := run (schedule ++ seq 0 j) start) in *.
  destruct (decide (i = j)) as [->|Hne];
    [|apply step_fulfilled_keep; [done|apply IH; lia]].
  pose proof Hc as [Hlen _ _ _ _ _ _ _ _].
  destruct (lookup_lt_is_Some_2 (uploadQuence st) j ltac:(lia)) as [t Ht].
  destruct t as [| | |m].
  - destruct j as [|j]; [done|].
    destruct (Hchain j Ht) as [Hp|Hp]; rewrite IH in Hp by lia; done.
  - destruct (Hres Ht) as (file & res & Hfile & Htr).
    rewrite (step_resolved w o profile up j file res) by done.
    rewrite join_tasks. by apply resolved_lookup_self.
  - by apply step_fulfilled_keep.
  - by apply Hrej in Ht.
Qed.

Lemma run_settles schedule :
  returned (run (schedule ++ seq 0 n) start) <> None.
Proof.
  intros Hnone. apply (run_quiescent_returned (schedule ++ seq 0 n)); [|done].
  apply quiescent_lookup. intros j Hj.
  pose proof (core_run w o profile up (schedule ++ seq 0 n)) as [Hlen _ _ _ _ _ _ _ _].
  assert (j < n) as Hlt by (rewrite <- Hlen; by eapply lookup_lt_Some).
  rewrite (waiting_prefix schedule n) in Hj; [done|lia|done|done].
Qed.

Lemma fulfilled_count st :
  core w o profile up st ->
  forallb is_fulfilled (uploadQuence st) = true ->
  length (successRes st) + length (failRes st) = n.
Proof.
  intros Hc Hall. pose proof Hc as [Hlen _ _ _ _ Hdone Hsucc Hfail Hset].
  rewrite Hsucc, Hfail, <- length_app, (records_perm w o profile up).
  rewrite length_omap_all.
  - rewrite (pushed_all _ _ _ _ _ Hc Hall). apply length_seq.
  - apply Forall_forall. intros j Hj. apply Hdone in Hj.
    destruct (Hset j Hj) as [_ [res Hres]].
    assert (is_Some (files o !! j)) as [file Hfile].
    { apply lookup_lt_is_Some. rewrite <- Hlen. by eapply lookup_lt_Some. }
    unfold outcome_record, success_record, failure_record. rewrite Hfile, Hres.
    destruct res; eauto.
Qed.

Lemma join_return_cases succ fail :
  (join_return w o succ fail = RetSuccess succ
   /\ (1 < n \/ succ <> [] \/ fail <> []))
  \/ (join_return w o succ fail = RetUndefined
      /\ n <= 1 /\ succ = [] /\ fail = []).
Proof.
  unfold join_return. destruct (1 <? n) eqn:Hn.
  - left. apply Nat.ltb_lt in Hn. auto.
  - apply Nat.ltb_ge in Hn. unfold handleSingleUploaded.
    destruct succ as [|s succ]; simpl.
    + destruct fail as [|f fail]; simpl; [by right|left; split; [done|auto]].
    + left. split; [|by auto]. by repeat case_match.
Qed.

Lemma run_return schedule r :
  returned (run schedule start) = Some r ->
  let st := run schedule start in
  (r = RetSuccess (successRes st)
   /\ forallb is_fulfilled (uploadQuence st) = true
   /\ 1 <= n
   /\ length (successRes st) + length (failRes st) = n)
  \/ (r = RetUndefined
      /\ ((exists j m, uploadQuence st !! j = Some (Rejected m)) \/ files o = [])).
Proof.
  intros Hr. cbv zeta.
  pose proof (core_run w o profile up schedule) as Hc.
  destruct (joinv_run w o profile up schedule) as [_ Hjoined].
  destruct (Hjoined r Hr) as [(Hall & -> & _)|(-> & j & m & _ & _ & Hj & _)].
  - pose proof (fulfilled_count _ Hc Hall) as Hcount.
    destruct (join_return_cases (successRes (run schedule start))
                (failRes (run schedule start)))
      as [[-> Hn]|(-> & Hn & Hs & Hf)].
    + left. split_and!; try done.
      destruct Hn as [?|[Hn|Hn]]; [lia| |].
      * destruct (successRes (run schedule start)); [done|]. simpl in Hcount. lia.
      * destruct (failRes (run schedule start)); [done|]. simpl in Hcount.
        rewrite Nat.add_succ_r in Hcount. lia.
    + right. split; [done|]. right.
      rewrite Hs, Hf in Hcount. simpl in Hcount. by apply nil_length_inv.
  - right. split; [done|]. left. eauto.
Qed.

End UploadMore.

(** X4.  [upload] always comes back: while it has not returned some
    transfer is still in flight, and however far the batch has got, it has
    returned once the adapter has settled each transfer that is still in
    flight, whether the adapter answers or throws. *)
Theorem upload_returns_once_transfers_settle (w : World) (o : UploadOptions)
    (schedule : list nat) :
  (quiescent (upload w o schedule) = true -> returned (upload w o schedule) <> None)
  /\ returned (upload w o (schedule ++ seq 0 (length (files o)))) <> None.
Proof.
  unfold upload. destruct (selectProfile w o) as [profile|]; [|done].
  destruct (getUploaderByName w (uploaderName profile)) as [up|]; [|done].
  split; [apply run_quiescent_returned|apply run_settles].
Qed.

(** X5.  What [upload] returns.  It returns [false] exactly when no profile
    or no adapter was found, and then nothing was uploaded.  It returns the
    array [successRes] when every transfer was answered and there was at
    least one file; the array may be empty, namely when every file failed.
    It returns [undefined], from its [catch] block, when a transfer was
    rejected or there was no file at all. *)
Theorem upload_return_value (w : World) (o : UploadOptions) (schedule : list nat)
    (r : UploadReturn) :
  let st := upload w o schedule in
  returned st = Some r ->
  match r with
  | RetFalse =>
      (selectProfile w o = None
       \/ exists p, selectProfile w o = Some p
                    /\ getUploaderByName w (uploaderName p) = None)
      /\ uploadQuence st = [] /\ List.filter task_event (events st) = []
  | RetSuccess l =>
      l = successRes st
      /\ forallb is_fulfilled (uploadQuence st) = true
      /\ 1 <= length (files o)
      /\ length (successRes st) + length (failRes st) = length (files o)
  | RetUndefined =>
      (exists j m, uploadQuence st !! j = Some (Rejected m)) \/ files o = []
  end.
Proof.
  cbv zeta. unfold upload. destruct (selectProfile w o) as [profile|] eqn:Hp.
  - destruct (getUploaderByName w (uploaderName profile)) as [up|] eqn:Hu.
    + intros Hr.
      destruct (run_return w o profile up schedule r Hr)
        as [(-> & ? & ? & ?)|[-> ?]]; done.
    + simpl. intros [= <-]. split_and!; eauto.
  - simpl. intros [= <-]. split_and!; eauto.
Qed.

(** *** What the renderer is told *)

Section UploadReplies.

Variable w : World.
Variable o : UploadOptions.
Variable profile : UploaderProfile.
Variable up : Uploader.

Hypothesis Hprofile : selectProfile w o = Some profile.
Hypothesis Huploader : getUploaderByName w (uploaderName profile) = Some up.

Local Abbreviation n := (length (files o)).
Local Abbreviation step := (Upload.step w o profile up).
Local Abbreviation run := (Upload.run w o profile up).
Local Abbreviation start := (Upload.start w o profile up).

Lemma rejected_not_all_fulfilled ts j m :
  ts !! j = Some (Rejected m) -> forallb is_fulfilled ts = false.
Proof.
  intros Hj. destruct (forallb is_fulfilled ts) eqn:Hall; [|done].
  rewrite forallb_fulfilled_lookup in Hall.
  rewrite Hall in Hj by by eapply lookup_lt_Some. done.
Qed.

(** The part of the log that is not about single tasks, at any moment. *)
Lemma run_filter (f : Event -> bool) schedule :
  (forall e, task_event e = true -> f e = false) ->
  let st := run schedule start in
  (returned st = None
   /\ forallb is_fulfilled (uploadQuence st) = false
   /\ List.filter f (events st) = [])
  \/ (forallb is_fulfilled (uploadQuence st) = true
      /\ returned st = Some (join_return w o (successRes st) (failRes st))
      /\ List.filter f (events st)
         = List.filter f (join_events w o (successRes st) (failRes st)))
  \/ (exists j m,
        uploadQuence st !! j = Some (Rejected m)
        /\ forallb is_fulfilled (uploadQuence st) = false
        /\ returned st = Some RetUndefined
        /\ List.filter f (events st) = List.filter f (catch_events o m)).
Proof.
  intros Hf. cbv zeta.
  assert (forall l, Forall (fun e => task_event e = true) l -> List.filter f l = [])
    as Htask.
  { intros l Hl. apply filter_none. eapply Forall_impl; [exact Hl|]. exact Hf. }
  destruct (joinv_run w o profile up schedule) as [Hwait Hjoined].
  destruct (returned (run schedule start)) as [r|] eqn:Hr.
  - right. destruct (Hjoined r eq_refl)
      as [(Hall & -> & pre & Hev & Hpre)|(-> & j & m & pre & post & Hj & Hev & Hpre & Hpost)].
    + left. split_and!; [done|done|].
      by rewrite Hev, List.filter_app, (Htask pre).
    + right. exists j, m. split_and!; [done| |done|].
      * by eapply rejected_not_all_fulfilled.
      * by rewrite Hev, !List.filter_app, (Htask pre), (Htask post), app_nil_r.
  - left. destruct (Hwait eq_refl) as (Hnot & Hev & _). split_and!; [done|done|].
    by apply Htask.
Qed.

Lemma single_normal_quiet (f : Event -> bool) s fl es :
  (forall t b x, f (ENotification t b x) = false) ->
  (forall t, f (EClipboardWrite t) = false) ->
  (forall ms t x, f (ESetTimeout ms t x) = false) ->
  handleSingleUploaded w s fl = Normal es -> List.filter f es = [].
Proof.
  intros Hn Hc Ht. unfold handleSingleUploaded.
  intros He. repeat case_match; simplify_eq; simpl;
    rewrite ?Hn, ?Hc, ?Ht; done.
Qed.

Lemma jevents_file_upload_reply s f :
  List.filter is_file_upload_reply (join_events w o s f)
  = if isFromFileManage o then [EIpc "file-upload-reply" NoPayload] else [].
Proof.
  unfold join_events, handleAddHistory, catch_events.
  rewrite !List.filter_app.
  assert (List.filter is_file_upload_reply
            (if 1 <? n then handleBatchUploaded (length s) (length f)
             else match handleSingleUploaded w (head s) (head f) with
                  | Normal es => es
                  | Throw message =>
                      (if isTest o
                       then [EIpc "uploader-profile-test-reply" (BoolPayload false)]
                       else []) ++ [ENotification t_abnormal message false]
                  end) = []) as ->.
  { destruct (1 <? n).
    - unfold handleBatchUploaded. by repeat case_match.
    - destruct (handleSingleUploaded w (head s) (head f)) as [es|m] eqn:He.
      + by apply (single_normal_quiet is_file_upload_reply _ _ _
               ltac:(done) ltac:(done) ltac:(done) He).
      + by destruct (isTest o). }
  destruct (win_isDestroyed w), (isFromFileManage o), (isTest o); done.
Qed.

(** X6.  The file manager is answered on ['file-upload-reply'] exactly once,
    at the moment every transfer of its request has been answered, and only
    if the request came from it.  When a transfer is rejected the answer is
    never sent, whatever happens to the other files. *)
Theorem file_upload_reply_only_when_all_answered schedule :
  let st := upload w o schedule in
  List.filter is_file_upload_reply (events st)
  = (if isFromFileManage o && forallb is_fulfilled (uploadQuence st)
     then [EIpc "file-upload-reply" NoPayload] else [])
  /\ (forall j m, uploadQuence st !! j = Some (Rejected m) ->
                  List.filter is_file_upload_reply (events st) = []).
Proof.
  cbv zeta. rewrite (upload_resolved w o profile up Hprofile Huploader).
  assert (forall m, List.filter is_file_upload_reply (catch_events o m) = []) as Hcatch.
  { intros m. unfold catch_events. by destruct (isTest o). }
  destruct (run_filter is_file_upload_reply schedule ltac:(by intros [])) 
    as [(_ & Hall & Hev)|[(Hall & _ & Hev)|(j & m & _ & Hall & _ & Hev)]];
    rewrite Hev, Hall, ?andb_false_r, ?andb_true_r, ?Hcatch.
  - done.
  - rewrite jevents_file_upload_reply. split; [done|].
    intros j m Hj. by rewrite (rejected_not_all_fulfilled _ _ _ Hj) in Hall.
  - done.
Qed.

Lemma jevents_test_reply s f :
  isTest o = true -> s <> [] \/ f <> [] \/ 1 < n ->
  List.filter is_test_reply (join_events w o s f)
  = [EIpc "uploader-profile-test-reply" (BoolPayload (0 <? length s))].
Proof.
  intros Ht Hne. unfold join_events, handleAddHistory. rewrite Ht.
  rewrite !List.filter_app.
  assert (List.filter is_test_reply
            (if 1 <? n then handleBatchUploaded (length s) (length f)
             else match handleSingleUploaded w (head s) (head f) with
                  | Normal es => es
                  | Throw message => catch_events o message
                  end) = []) as ->.
  { destruct (1 <? n) eqn:Hn.
    - unfold handleBatchUploaded. by repeat case_match.
    - destruct (handleSingleUploaded w (head s) (head f)) as [es|m] eqn:He.
      + by apply (single_normal_quiet is_test_reply _ _ _
               ltac:(done) ltac:(done) ltac:(done) He).
      + exfalso. apply Nat.ltb_ge in Hn. unfold handleSingleUploaded in He.
        destruct s, f; simpl in He; repeat case_match; simplify_eq.
        destruct Hne as [?|[?|?]]; [done|done|lia]. }
  destruct (win_isDestroyed w), (isFromFileManage o); done.
Qed.

(** X7.  A test of a profile on at least one file is answered on
    ['uploader-profile-test-reply'] exactly once, when [upload] returns:
    with [true] if every transfer was answered and at least one file
    succeeded, with [false] if every transfer was answered and none
    succeeded or if a transfer was rejected.  Before that nothing is sent
    on the channel. *)
Theorem test_reply_once schedule :
  isTest o = true -> 1 <= length (files o) ->
  let st := upload w o schedule in
  List.filter is_test_reply (events st)
  = match returned st with
    | None => []
    | Some r =>
        [EIpc "uploader-profile-test-reply"
              (BoolPayload match r with
                           | RetSuccess l => 0 <? length l
                           | _ => false
                           end)]
    end.
Proof.
  intros Ht Hn. cbv zeta. rewrite (upload_resolved w o profile up Hprofile Huploader).
  pose proof (core_run w o profile up schedule) as Hc.
  destruct (run_filter is_test_reply schedule ltac:(by intros [])) 
    as [(Hr & _ & Hev)|[(Hall & Hr & Hev)|(j & m & _ & _ & Hr & Hev)]];
    rewrite Hev, Hr.
  - done.
  - pose proof (fulfilled_count w o profile up _ Hc Hall) as Hcount.
    destruct (join_return_cases w o (successRes (run schedule start))
                (failRes (run schedule start))) as [[-> Hne]|(_ & _ & Hs & Hf)].
    + apply jevents_test_reply; [done|]. destruct Hne as [?|[?|?]]; auto.
    + rewrite Hs, Hf in Hcount. simpl in Hcount. lia.
  - unfold catch_events. by rewrite Ht.
Qed.

Lemma jevents_shown s f :
  1 < n ->
  List.filter (fun e => is_notification e || is_clipboard e) (join_events w o s f)
  = handleBatchUploaded (length s) (length f).
Proof.
  intros Hn. apply Nat.ltb_lt in Hn. unfold join_events, handleAddHistory.
  rewrite Hn, !List.filter_app.
  assert (List.filter (fun e => is_notification e || is_clipboard e)
            (handleBatchUploaded (length s) (length f))
          = handleBatchUploaded (length s) (length f)) as ->.
  { unfold handleBatchUploaded. by repeat case_match. }
  destruct (win_isDestroyed w), (isFromFileManage o), (isTest o); done.
Qed.

(** X8.  A batch of more than one file whose transfers were all answered
    shows exactly one notification, the summary of [handleBatchUploaded];
    the two counts in it are the numbers of records in [successRes] and
    [failRes] and add up to the number of files, so that it announces a
    success exactly when no file failed.  The clipboard is left alone and no
    timer is set, whatever the settings say. *)
Theorem batch_summary_counts schedule :
  1 < length (files o) ->
  let st := upload w o schedule in
  forallb is_fulfilled (uploadQuence st) = true ->
  let s := length (successRes st) in
  let f := length (failRes st) in
  s + f = length (files o)
  /\ List.filter (fun e => is_notification e || is_clipboard e) (events st)
     = handleBatchUploaded s f
  /\ (ENotification "批量上传成功" ("总共" +:+ show_nat (length (files o)) +:+ "个文件") false
        ∈ events st <-> f = 0).
Proof.
  intros Hn. cbv zeta. rewrite (upload_resolved w o profile up Hprofile Huploader).
  intros Hall.
  pose proof (core_run w o profile up schedule) as Hc.
  pose proof (fulfilled_count w o profile up _ Hc Hall) as Hcount.
  assert (List.filter (fun e => is_notification e || is_clipboard e)
            (events (run schedule start))
          = handleBatchUploaded (length (successRes (run schedule start)))
              (length (failRes (run schedule start)))) as Hshown.
  { destruct (run_filter (fun e => is_notification e || is_clipboard e) schedule
                ltac:(by intros []))
      as [(_ & Hnot & _)|[(_ & _ & Hev)|(j & m & _ & Hnot & _)]]; [congruence| |congruence].
    rewrite Hev. by apply jevents_shown. }
  split_and!; [done|done|].
  set (note := ENotification _ _ _).
  assert (note ∈ events (run schedule start)
          <-> note ∈ handleBatchUploaded (length (successRes (run schedule start)))
                       (length (failRes (run schedule start)))) as ->.
  { rewrite <- Hshown. rewrite !list_elem_of_In, filter_In. subst note. simpl. tauto. }
  subst note. unfold handleBatchUploaded.
  destruct (length (failRes (run schedule start))) as [|f] eqn:Hf; simpl.
  - rewrite Nat.add_0_r in Hcount. rewrite Hcount. split; [done|]. intros _. apply list_elem_of_here.
  - destruct (length (successRes (run schedule start)) =? 0);
      split; try done; intros Hin; absent Hin.
Qed.

Lemma jevents_history_reply s f :
  List.filter is_history_reply (join_events w o s f)
  = if win_isDestroyed w then []
    else [EIpc "uploaded-files-get-reply" (FilesPayload (history_add w (f ++ s)))].
Proof.
  unfold join_events, handleAddHistory.
  rewrite !List.filter_app.
  assert (List.filter is_history_reply
            (if 1 <? n then handleBatchUploaded (length s) (length f)
             else match handleSingleUploaded w (head s) (head f) with
                  | Normal es => es
                  | Throw message => catch_events o message
                  end) = []) as ->.
  { destruct (1 <? n).
    - unfold handleBatchUploaded. by repeat case_match.
    - destruct (handleSingleUploaded w (head s) (head f)) as [es|m] eqn:He.
      + by apply (single_normal_quiet is_history_reply _ _ _
               ltac:(done) ltac:(done) ltac:(done) He).
      + unfold catch_events. by destruct (isTest o). }
  destruct (win_isDestroyed w), (isFromFileManage o), (isTest o); reflexivity.
Qed.

(** X22.  The renderer is sent the updated history on
    ['uploaded-files-get-reply'] exactly once, when every transfer has been
    answered: what [history.add] returned for the failures followed by the
    successes.  Nothing is sent on that channel while a transfer is
    outstanding, after a transfer was rejected, or when the window has been
    destroyed. *)
Theorem history_reply_when_all_answered schedule :
  let st := upload w o schedule in
  List.filter is_history_reply (events st)
  = if forallb is_fulfilled (uploadQuence st) && negb (win_isDestroyed w)
    then [EIpc "uploaded-files-get-reply"
               (FilesPayload (history_add w (failRes st ++ successRes st)))]
    else [].
Proof.
  cbv zeta. rewrite (upload_resolved w o profile up Hprofile Huploader).
  assert (forall m, List.filter is_history_reply (catch_events o m) = []) as Hcatch.
  { intros m. unfold catch_events. by destruct (isTest o). }
  destruct (run_filter is_history_reply schedule ltac:(by intros []))
    as [(_ & Hall & Hev)|[(Hall & _ & Hev)|(j & m & _ & Hall & _ & Hev)]];
    rewrite Hev, Hall, ?Hcatch; [reflexivity| |reflexivity].
  rewrite jevents_history_reply. by destruct (win_isDestroyed w).
Qed.

End UploadReplies.

(** *** Uploads of one file *)

Section SingleFile.

Variable w : World.
Variable o : UploadOptions.
Variable profile : UploaderProfile.
Variable up : Uploader.
Variable file : FileInput.

Hypothesis Hprofile : selectProfile w o = Some profile.
Hypothesis Huploader : getUploaderByName w (uploaderName profile) = Some up.
Hypothesis Hfiles : files o = [file].

Local Abbreviation cfg := (configuration w).
Local Abbreviation step := (Upload.step w o profile up).
Local Abbreviation run := (Upload.run w o profile up).
Local Abbreviation start := (Upload.start w o profile up).
Local Abbreviation base := (baseInfo w profile 0 file).
Local Abbreviation shown := (fun e => is_notification e || is_clipboard e).

Lemma single_start :
  start = mkState [InFlight] [] [] None
            [EConfigure (uploaderOptions profile) (proxy cfg);
             EPrepare 0 base; ETransferStart 0 (uploadArgs w o file)].
Proof.
  unfold Upload.start. rewrite Hfiles. simpl.
  unfold toUpload_begin, sequenced. rewrite andb_false_r. reflexivity.
Qed.

Lemma single_step :
  step 0 start
  = match transfer up 0 with
    | Resolves res =>
        after_join w o
          (toUpload_finish w profile 0 file res
             (emit [ETransferSettle 0 (Resolves res)] start))
    | Rejects m =>
        catch_block o m
          (mkState [Rejected m] [] [] None
             (events start ++ [ETransferSettle 0 (Rejects m)]))
    end.
Proof.
  rewrite single_start. unfold Upload.step. rewrite Hfiles. simpl.
  destruct (transfer up 0) as [[d|desc]|m]; reflexivity.
Qed.

Lemma single_step_settled i : uploadQuence (step 0 start) !! i <> Some InFlight.
Proof.
  rewrite single_step.
  destruct (transfer up 0) as [[d|desc]|m];
    rewrite ?after_join_eq, ?catch_block_eq; simpl; rewrite ?single_start; simpl;
    by destruct i as [|[|i]].
Qed.

(** Only the settlement of the one transfer matters. *)
Lemma single_file_run schedule :
  run schedule start = if bool_decide (0 ∈ schedule) then step 0 start else start.
Proof.
  induction schedule as [|i schedule IH] using rev_ind; [done|].
  rewrite run_snoc, IH. case_bool_decide as Hin.
  - rewrite bool_decide_eq_true_2 by (apply elem_of_app; auto).
    apply step_idle, single_step_settled.
  - destruct i as [|i].
    + rewrite bool_decide_eq_true_2; [done|]. apply elem_of_app. right. apply list_elem_of_here.
    + rewrite bool_decide_eq_false_2.
      * apply step_idle. by rewrite single_start.
      * rewrite elem_of_app, list_elem_of_singleton. intros [?|?]; [done|lia].
Qed.

Lemma single_success schedule d :
  transfer up 0 = Resolves (SuccessResponse d) -> 0 ∈ schedule ->
  let record := spread base d in
  let st := upload w o schedule in
  successRes st = [record] /\ failRes st = []
  /\ events st
     = events start
       ++ [ETransferSettle 0 (Resolves (SuccessResponse d)); EPushSuccess 0 record]
       ++ join_events w o [record] []
  /\ returned st = Some (join_return w o [record] []).
Proof.
  intros Htr Hin. cbv zeta.
  rewrite (upload_resolved w o profile up Hprofile Huploader), single_file_run.
  rewrite bool_decide_eq_true_2 by done.
  rewrite single_step, Htr, after_join_eq, single_start. simpl. done.
Qed.

Lemma single_failure schedule desc :
  transfer up 0 = Resolves (FailResponse desc) -> 0 ∈ schedule ->
  let record := failed base desc in
  let st := upload w o schedule in
  successRes st = [] /\ failRes st = [record]
  /\ events st
     = events start
       ++ [ETransferSettle 0 (Resolves (FailResponse desc)); EPushFail 0 record]
       ++ join_events w o [] [record]
  /\ returned st = Some (join_return w o [] [record]).
Proof.
  intros Htr Hin. cbv zeta.
  rewrite (upload_resolved w o profile up Hprofile Huploader), single_file_run.
  rewrite bool_decide_eq_true_2 by done.
  rewrite single_step, Htr, after_join_eq, single_start. simpl. done.
Qed.

Lemma single_rejected schedule m :
  transfer up 0 = Rejects m -> 0 ∈ schedule ->
  let st := upload w o schedule in
  events st = events start ++ [ETransferSettle 0 (Rejects m)] ++ catch_events o m
  /\ returned st = Some RetUndefined.
Proof.
  intros Htr Hin. cbv zeta.
  rewrite (upload_resolved w o profile up Hprofile Huploader), single_file_run.
  rewrite bool_decide_eq_true_2 by done.
  rewrite single_step, Htr, catch_block_eq, single_start. simpl. split; [|done].
  by list_norm.
Qed.

Lemma single_waiting schedule :
  0 ∉ schedule -> upload w o schedule = start.
Proof.
  intros Hin. rewrite (upload_resolved w o profile up Hprofile Huploader), single_file_run.
  by rewrite bool_decide_eq_false_2.
Qed.

(** What [handleSingleUploaded] does with a successful record. *)
Lemma handleSingleUploaded_success record fl :
  handleSingleUploaded w (Some record) fl
  = Normal
      (if known_urlType (urlType cfg) then
         let link := or_default (shaped_link (urlType cfg) (fi_url record)) "" in
         if autoCopy cfg then
           [EClipboardWrite link]
           ++ (if showNotifaction cfg
               then [ENotification "上传成功" "链接已自动复制到粘贴板" (negb (sound cfg))]
               else [])
           ++ (if autoRecover cfg
               then [ESetTimeout 5000
                       (if autoRecover cfg then clipboard_readText w else "")
                       (negb (sound cfg))]
               else [])
         else
           (if showNotifaction cfg
            then [ENotification "上传成功" link (negb (sound cfg))]
            else [])
       else []).
Proof.
  unfold handleSingleUploaded, known_urlType, shaped_link.
  destruct (String.eqb (urlType cfg) "URL"); [by destruct (autoCopy cfg)|].
  destruct (String.eqb (urlType cfg) "HTML"); [by destruct (autoCopy cfg)|].
  destruct (String.eqb (urlType cfg) "Markdown"); [by destruct (autoCopy cfg)|done].
Qed.

Lemma single_join_events succ fail :
  join_events w o succ fail
  = handleAddHistory w (fail ++ succ)
    ++ (if isFromFileManage o then [EIpc "file-upload-reply" NoPayload] else [])
    ++ (if isTest o
        then [EIpc "uploader-profile-test-reply" (BoolPayload (0 <? length succ))]
        else [])
    ++ match handleSingleUploaded w (head succ) (head fail) with
       | Normal es => es
       | Throw message => catch_events o message
       end.
Proof. unfold join_events. by rewrite Hfiles. Qed.

Lemma single_join_return_success record :
  join_return w o [record] [] = RetSuccess [record].
Proof.
  unfold join_return. rewrite Hfiles.
  change (head [record]) with (Some record).
  by rewrite handleSingleUploaded_success.
Qed.

(** X9.  A single file was uploaded and the link format is one of ['URL'],
    ['HTML'] and ['Markdown'].  With [autoCopy] the shaped link is on the
    clipboard when [upload] returns.  With [autoRecover] as well, a timer
    of five seconds is set whose callback puts back the text the clipboard
    held before, and shows its notification even when notifications are
    switched off; without [autoRecover] no timer is set. *)
Theorem single_upload_clipboard_round_trip schedule d before :
  transfer up 0 = Resolves (SuccessResponse d) -> 0 ∈ schedule ->
  known_urlType (urlType cfg) = true -> autoCopy cfg = true ->
  let st := upload w o schedule in
  let link := or_default (shaped_link (urlType cfg) (d_url d)) "" in
  returned st = Some (RetSuccess (successRes st))
  /\ clipboard_after before (events st) = link
  /\ (autoRecover cfg = true ->
      clipboard_after before (events st ++ flat_map timer_fires (events st))
      = clipboard_readText w
      /\ flat_map timer_fires (events st)
         = [EClipboardWrite (clipboard_readText w);
            ENotification "粘贴板已恢复" "已自动恢复上次粘贴板中的内容" (negb (sound cfg))])
  /\ (autoRecover cfg = false -> flat_map timer_fires (events st) = []).
Proof.
  intros Htr Hin Hknown Hcopy. cbv zeta.
  destruct (single_success schedule d Htr Hin) as (Hs & Hf & Hev & Hr).
  rewrite Hr, Hs, Hev, single_join_return_success, single_start, single_join_events.
  change (head [spread base d]) with (Some (spread base d)).
  rewrite handleSingleUploaded_success, Hknown, Hcopy.
  assert (fi_url (spread base d) = d_url d) as -> by (simpl; by destruct (d_url d)).
  unfold handleAddHistory.
  split; [done|].
  destruct (win_isDestroyed w), (isFromFileManage o), (isTest o),
    (showNotifaction cfg), (autoRecover cfg);
    (split; [reflexivity|]; split; intros Hflag;
     [try discriminate Hflag; split; reflexivity
     |try discriminate Hflag; reflexivity]).
Qed.

(** X10.  When the link format in the settings is none of the three that
    [handleSingleUploaded] knows, a successful single upload is recorded in
    the history and returned, and nothing else happens: no notification is
    shown and the clipboard is not written, whatever [autoCopy] and
    [showNotifaction] say. *)
Theorem single_upload_unknown_format_is_silent schedule d :
  transfer up 0 = Resolves (SuccessResponse d) -> 0 ∈ schedule ->
  known_urlType (urlType cfg) = false ->
  let st := upload w o schedule in
  List.filter (fun e => is_notification e || is_clipboard e) (events st) = []
  /\ List.filter is_history (events st) = [EHistoryAdd [spread base d]]
  /\ returned st = Some (RetSuccess [spread base d]).
Proof.
  intros Htr Hin Hknown. cbv zeta.
  destruct (single_success schedule d Htr Hin) as (Hs & Hf & Hev & Hr).
  rewrite Hr, Hev, single_join_return_success, single_start, single_join_events.
  change (head [spread base d]) with (Some (spread base d)).
  rewrite handleSingleUploaded_success, Hknown.
  unfold handleAddHistory.
  destruct (win_isDestroyed w), (isFromFileManage o), (isTest o);
    repeat split; reflexivity.
Qed.

(** X11.  When the adapter answers the transfer of a single file with a
    failure, exactly one notification is shown, with the adapter's [desc]
    or, if that is missing or empty, with ['错误未捕获']; it is shown even
    when notifications are switched off and is never silent.  The clipboard
    is not written, the failure is recorded in the history, and [upload]
    returns the empty array, not [false]. *)
Theorem single_upload_failure_is_shown schedule desc :
  transfer up 0 = Resolves (FailResponse desc) -> 0 ∈ schedule ->
  let st := upload w o schedule in
  List.filter (fun e => is_notification e || is_clipboard e) (events st)
  = [ENotification "上传失败" (or_default desc "错误未捕获") false]
  /\ List.filter is_history (events st) = [EHistoryAdd [failed base desc]]
  /\ returned st = Some (RetSuccess []).
Proof.
  intros Htr Hin. cbv zeta.
  destruct (single_failure schedule desc Htr Hin) as (Hs & Hf & Hev & Hr).
  rewrite Hr, Hev, single_start, single_join_events.
  unfold join_return. rewrite Hfiles. simpl.
  unfold handleAddHistory.
  destruct (win_isDestroyed w), (isFromFileManage o), (isTest o);
    repeat split; reflexivity.
Qed.

End SingleFile.

(** *** What is transferred *)

Section UploadFlow.

Variable w : World.
Variable o : UploadOptions.
Variable profile : UploaderProfile.
Variable up : Uploader.

Hypothesis Hprofile : selectProfile w o = Some profile.
Hypothesis Huploader : getUploaderByName w (uploaderName profile) = Some up.

Local Abbreviation step := (Upload.step w o profile up).
Local Abbreviation run := (Upload.run w o profile up).
Local Abbreviation start := (Upload.start w o profile up).

Lemma elem_of_starts j es :
  j ∈ starts es <-> exists args, ETransferStart j args ∈ es.
Proof.
  unfold starts. rewrite list_elem_of_omap. split.
  - intros (e & He & Hj). destruct e; simplify_eq. eauto.
  - intros (args & He). eauto.
Qed.

(** What one settlement adds to the log: the only transfer it can start is
    that of the next file, and only if the adapter answered. *)
Lemma step_log i st :
  core w o profile up st ->
  uploadQuence st !! i = Some InFlight ->
  exists delta,
    events (step i st) = events st ++ delta
    /\ forall j args,
         ETransferStart j args ∈ delta ->
         j = S i /\ resolves (transfer up i) = true
         /\ exists next, files o !! S i = Some next /\ args = uploadArgs w o next.
Proof.
  intros Hc Hi. pose proof Hc as [Hlen _ _ _ _ _ _ _ _].
  assert (is_Some (files o !! i)) as [file Hfile].
  { apply lookup_lt_is_Some. rewrite <- Hlen. by eapply lookup_lt_Some. }
  assert (forall tail j args,
            Forall (fun e => task_event e = false) tail ->
            ETransferStart j args ∈ tail -> False) as Hbatch.
  { intros tail j args Htail Hin.
    by apply (proj1 (Forall_forall _ _) Htail) in Hin. }
  destruct (transfer up i) as [res|m] eqn:Htr.
  - rewrite (step_resolved w o profile up i file res) by done.
    destruct (join_log w o (resolved w o profile up i file res st)) as (tail & -> & Htail).
    destruct (resolved_log w o profile up i file res st Hlen Hfile) as [record ->].
    eexists. split; [by rewrite <- !app_assoc|].
    intros j args Hin.
    rewrite !elem_of_app in Hin. destruct Hin as [Hin|[Hin|Hin]].
    + apply elem_of_cons in Hin as [?|Hin]; [done|].
      apply list_elem_of_singleton in Hin. by destruct res.
    + case_decide; [|by apply elem_of_nil in Hin].
      destruct (files o !! S i) as [next|]; [|by apply elem_of_nil in Hin].
      apply list_elem_of_singleton in Hin. injection Hin as -> ->. eauto.
    + by destruct (Hbatch _ _ _ Htail Hin).
  - rewrite (step_rejected w o profile up i file m) by done.
    destruct (join_rejected_log o m
      {| uploadQuence := reject i m (uploadQuence st); successRes := successRes st;
         failRes := failRes st; returned := returned st;
         events := events st ++ [ETransferSettle i (Rejects m)] |}) as (tail & -> & Htail).
    simpl. eexists. split; [by rewrite <- !app_assoc|].
    intros j args Hin. apply elem_of_cons in Hin as [?|Hin]; [done|].
    by destruct (Hbatch _ _ _ Htail Hin).
Qed.

Lemma sync_start_file index fs j args :
  ETransferStart j args ∈ sync_events w o profile up index fs ->
  exists file, fs !! (j - index) = Some file /\ index <= j /\ args = uploadArgs w o file.
Proof.
  revert index. induction fs as [|file fs IH]; intros index Hin; simpl in Hin.
  - by apply elem_of_nil in Hin.
  - apply elem_of_cons in Hin as [?|Hin]; [done|].
    apply elem_of_app in Hin as [Hin|Hin].
    + destruct (sequenced up index); [by apply elem_of_nil in Hin|].
      apply list_elem_of_singleton in Hin. injection Hin as -> ->.
      exists file. by rewrite Nat.sub_diag.
    + destruct (IH _ Hin) as (f & Hf & Hle & ->).
      exists f. split_and!; [|lia|done].
      replace (j - index) with (S (j - S index)) by lia. done.
Qed.

Lemma run_start_file schedule j args :
  ETransferStart j args ∈ events (run schedule start) ->
  exists file, files o !! j = Some file /\ args = uploadArgs w o file.
Proof.
  induction schedule as [|i schedule IH] using rev_ind.
  - simpl. destruct (start_events w o profile up) as (rest & -> & Hrest).
    intros Hin. apply elem_of_cons in Hin as [?|Hin]; [done|].
    apply elem_of_app in Hin as [Hin|Hin].
    + destruct (sync_start_file _ _ _ _ Hin) as (file & Hfile & _ & ->).
      rewrite Nat.sub_0_r in Hfile. eauto.
    + by apply (proj1 (Forall_forall _ _) Hrest) in Hin.
  - rewrite run_snoc.
    pose proof (core_run w o profile up schedule) as Hc.
    destruct (decide (uploadQuence (run schedule start) !! i = Some InFlight)) as [Hi|Hi];
      [|by rewrite step_idle].
    destruct (step_log i _ Hc Hi) as (delta & -> & Hdelta).
    intros Hin. apply elem_of_app in Hin as [Hin|Hin]; [by apply IH|].
    destruct (Hdelta _ _ Hin) as (-> & _ & next & Hnext & ->). eauto.
Qed.

(** X20.  The adapter is asked to transfer each file at most once, and
    always with that file's own content and resolved name, and with the
    directory and the origin of the request. *)
Theorem transfers_carry_their_own_file schedule j args :
  ETransferStart j args ∈ events (upload w o schedule) ->
  NoDup (starts (events (upload w o schedule)))
  /\ exists file,
       files o !! j = Some file
       /\ a_file args = match file with
                        | PathFile p => inl p
                        | BufferFile f => inr (buffer f)
                        end
       /\ a_fileName args
          = getFileNameByFormat w (source_name file)
              (rename (configuration w)) (renameFormat (configuration w))
       /\ a_directoryPath args = directoryPath o
       /\ a_isFromFileManage args = isFromFileManage o.
Proof.
  rewrite (upload_resolved w o profile up Hprofile Huploader). intros Hin. split.
  - destruct (core_run w o profile up schedule) as [_ _ _ (k & -> & _) _ _ _ _ _].
    apply NoDup_seq.
  - destruct (run_start_file schedule j args Hin) as (file & Hfile & ->).
    exists file. by destruct file.
Qed.

Lemma sequence_start_needs_answer schedule j args :
  batchUploadMode up = "Sequence" ->
  ETransferStart (S j) args ∈ events (run schedule start) ->
  resolves (transfer up j) = true.
Proof.
  intros Hm. induction schedule as [|i schedule IH] using rev_ind.
  - simpl. destruct (start_events w o profile up) as (rest & -> & Hrest).
    intros Hin. apply elem_of_cons in Hin as [?|Hin]; [done|].
    apply elem_of_app in Hin as [Hin|Hin].
    + apply sync_start_unsequenced in Hin. unfold sequenced in Hin.
      by rewrite Hm in Hin.
    + by apply (proj1 (Forall_forall _ _) Hrest) in Hin.
  - rewrite run_snoc.
    pose proof (core_run w o profile up schedule) as Hc.
    destruct (decide (uploadQuence (run schedule start) !! i = Some InFlight)) as [Hi|Hi];
      [|by rewrite step_idle].
    destruct (step_log i _ Hc Hi) as (delta & -> & Hdelta).
    intros Hin. apply elem_of_app in Hin as [Hin|Hin]; [by apply IH|].
    destruct (Hdelta _ _ Hin) as (Heq & Hres & _). by injection Heq as ->.
Qed.

Lemma pushed_were_started schedule j :
  j ∈ pushed (events (run schedule start)) -> j ∈ starts (events (run schedule start)).
Proof.
  induction schedule as [|i schedule IH] using rev_ind.
  - simpl. destruct (start_events w o profile up) as (rest & -> & Hrest).
    change (j ∈ pushed ([EConfigure (uploaderOptions profile) (proxy (configuration w))]
                        ++ sync_events w o profile up 0 (files o) ++ rest) -> 
            j ∈ starts (EConfigure (uploaderOptions profile) (proxy (configuration w))
                        :: sync_events w o profile up 0 (files o) ++ rest)).
    rewrite !pushed_app, pushed_sync, (pushed_batch rest) by done.
    by intros ?%elem_of_nil.
  - rewrite run_snoc.
    pose proof (core_run w o profile up schedule) as Hc.
    destruct (decide (uploadQuence (run schedule start) !! i = Some InFlight)) as [Hi|Hi];
      [|by rewrite step_idle].
    rewrite step_pushed by done.
    destruct (step_log i _ Hc Hi) as (delta & -> & _).
    rewrite starts_app, !elem_of_app. intros [Hj|Hj]; [left; by apply IH|].
    left. assert (j = i) as ->.
    { destruct (resolves (transfer up i)); [by apply list_elem_of_singleton in Hj|].
      by apply elem_of_nil in Hj. }
    destruct Hc as [_ _ _ (k & -> & Hk & _) _ _ _ _ _].
    apply elem_of_seq. specialize (Hk i Hi). lia.
Qed.

(** X21.  Under a ['Sequence'] adapter a transfer that throws ends the
    batch for every file after it: none of them is ever handed to the
    adapter, and none of them gets a record, neither as a success nor as a
    failure. *)
Theorem sequence_throw_abandons_later_files schedule i j m :
  batchUploadMode up = "Sequence" ->
  transfer up i = Rejects m ->
  i < j ->
  (j ∉ starts (events (upload w o schedule)))
  /\ (j ∉ pushed (events (upload w o schedule))).
Proof.
  intros Hm Htr Hlt. rewrite (upload_resolved w o profile up Hprofile Huploader).
  assert (j ∉ starts (events (run schedule start))) as Hnot.
  { intros Hj.
    assert (S i ∈ starts (events (run schedule start))) as Hnext.
    { destruct (core_run w o profile up schedule) as [_ _ _ (k & Hk & _) _ _ _ _ _].
      rewrite Hk in *. apply elem_of_seq in Hj. apply elem_of_seq. lia. }
    apply elem_of_starts in Hnext as [args Hargs].
    pose proof (sequence_start_needs_answer schedule i args Hm Hargs) as Hres.
    by rewrite Htr in Hres. }
  split; [done|]. intros Hj. by apply Hnot, pushed_were_started.
Qed.

End UploadFlow.

(** ** [handleUploadTest] *)

(** X12.  Testing a profile uploads the application's icon with the
    candidate profile itself, saved or not, into the directory
    ['aragorn-upload-test'].  If no adapter is registered under the
    candidate's [uploaderName] the only effect is a notification: nothing
    is ever sent on ['uploader-profile-test-reply'].  Otherwise the adapter
    is configured with the candidate's options, the transfer is invoked
    once, and once it has settled exactly one reply is sent on that
    channel: [true] if the adapter reported a success, [false] if it
    reported a failure or threw.  An answered test writes its record to
    the upload history like any other upload. *)
Theorem handleUploadTest_reply (w : World) (iconPath : string)
    (candidate : UploaderProfile) (schedule : list nat) :
  let st := handleUploadTest w iconPath candidate schedule in
  let o := handleUploadTest_options iconPath candidate in
  match getUploaderByName w (uploaderName candidate) with
  | None =>
      returned st = Some RetFalse
      /\ events st
         = [ENotification "上传操作异常" ("没有找到" +:+ uploaderName candidate +:+ "上传器") false]
  | Some up =>
      (exists rest,
          events st
          = [EConfigure (uploaderOptions candidate) (proxy (configuration w));
             EPrepare 0 (baseInfo w candidate 0 (PathFile iconPath));
             ETransferStart 0
               {| a_file := inl iconPath;
                  a_fileName := getFileNameByFormat w iconPath
                                  (rename (configuration w))
                                  (renameFormat (configuration w));
                  a_directoryPath := Some "aragorn-upload-test";
                  a_isFromFileManage := false |}] ++ rest
          /\ starts rest = []
          /\ (rest = [] <-> 0 ∉ schedule))
      /\ List.filter is_test_reply (events st)
         = (if bool_decide (0 ∈ schedule)
            then [EIpc "uploader-profile-test-reply"
                       (BoolPayload match transfer up 0 with
                                    | Resolves (SuccessResponse _) => true
                                    | _ => false
                                    end)]
            else [])
      /\ (0 ∈ schedule -> resolves (transfer up 0) = true ->
          exists record,
            outcome_record w o candidate up 0 = Some record
            /\ List.filter is_history (events st) = [EHistoryAdd [record]])
  end.
Proof.
  cbv zeta. unfold handleUploadTest.
  set (o := handleUploadTest_options iconPath candidate).
  assert (selectProfile w o = Some candidate) as Hprofile by reflexivity.
  assert (isTest o = true) as Htest by reflexivity.
  destruct (getUploaderByName w (uploaderName candidate)) as [up|] eqn:Huploader;
    [|unfold upload; rewrite Hprofile, Huploader; split; reflexivity].
  assert (files o = [PathFile iconPath]) as Hfiles by reflexivity.
  pose proof (single_start w o candidate up _ Hfiles) as Hstart.
  change (uploadArgs w o (PathFile iconPath))
    with {| a_file := inl iconPath;
            a_fileName := getFileNameByFormat w iconPath
                            (rename (configuration w))
                            (renameFormat (configuration w));
            a_directoryPath := Some "aragorn-upload-test";
            a_isFromFileManage := false |} in Hstart.
  case_bool_decide as Hin.
  - destruct (transfer up 0) as [[d|desc]|m] eqn:Htr.
    + destruct (single_success w o candidate up _ Hprofile Huploader Hfiles
                  schedule d Htr Hin) as (_ & _ & Hev & _).
      rewrite Hev, Hstart. cbn [events]. split_and!.
      * eexists. split; [reflexivity|]. split.
        -- rewrite starts_app, (starts_batch (join_events _ _ _ _)) by apply jevents_batch.
           reflexivity.
        -- split; [intros [=]|intros Hout; by destruct Hout].
      * rewrite !List.filter_app, jevents_test_reply; [reflexivity|exact Htest|].
        left. intros [=].
      * intros _ _. eexists. split.
        -- unfold outcome_record, success_record. rewrite Hfiles, Htr. reflexivity.
        -- rewrite !List.filter_app, jevents_history. reflexivity.
    + destruct (single_failure w o candidate up _ Hprofile Huploader Hfiles
                  schedule desc Htr Hin) as (_ & _ & Hev & _).
      rewrite Hev, Hstart. cbn [events]. split_and!.
      * eexists. split; [reflexivity|]. split.
        -- rewrite starts_app, (starts_batch (join_events _ _ _ _)) by apply jevents_batch.
           reflexivity.
        -- split; [intros [=]|intros Hout; by destruct Hout].
      * rewrite !List.filter_app, jevents_test_reply; [reflexivity|exact Htest|].
        right. left. intros [=].
      * intros _ _. eexists. split.
        -- unfold outcome_record, success_record, failure_record.
           rewrite Hfiles, Htr. reflexivity.
        -- rewrite !List.filter_app, jevents_history. reflexivity.
    + destruct (single_rejected w o candidate up _ Hprofile Huploader Hfiles
                  schedule m Htr Hin) as (Hev & _).
      rewrite Hev, Hstart. cbn [events]. unfold catch_events. rewrite Htest.
      split_and!.
      * eexists. split; [reflexivity|]. split; [reflexivity|].
        split; [intros [=]|intros Hout; by destruct Hout].
      * reflexivity.
      * intros _ [=].
  - rewrite (single_waiting w o candidate up _ Hprofile Huploader Hfiles schedule Hin).
    rewrite Hstart. cbn [events]. split_and!.
    + exists []. split; [reflexivity|]. split; [reflexivity|]. split; [by intros _|reflexivity].
    + reflexivity.
    + intros Hout. by destruct Hin.
Qed.

(** ** [uploadByDifferentUploaderProfileIds] *)

Section Grouping.

Lemma js_set_from (acc l : list string) :
  NoDup acc ->
  exists ext,
    foldl (fun acc x => if bool_decide (x ∈ acc) then acc else acc ++ [x]) acc l
    = acc ++ ext
    /\ NoDup (acc ++ ext)
    /\ (forall x, x ∈ ext <-> x ∈ l /\ x ∉ acc)
    /\ sublist ext l.
Proof.
  revert acc. induction l as [|x l IH]; intros acc Hacc; simpl.
  - exists []. rewrite app_nil_r. split_and!; [done|done| |done].
    intros x. split; [by intros ?%elem_of_nil|by intros [?%elem_of_nil _]].
  - case_bool_decide as Hx.
    + destruct (IH acc Hacc) as (ext & -> & Hnd & Hin & Hsub).
      exists ext. split_and!; [done|done| |by apply sublist_cons].
      intros y. rewrite Hin, elem_of_cons. split; [tauto|].
      intros [[->|?] ?]; [done|tauto].
    + assert (NoDup (acc ++ [x])) as Hacc'.
      { apply NoDup_app. split_and!; [done| |apply NoDup_singleton].
        intros y Hy ->%list_elem_of_singleton. done. }
      destruct (IH (acc ++ [x]) Hacc') as (ext & -> & Hnd & Hin & Hsub).
      exists (x :: ext). rewrite <- app_assoc in *. simpl in *.
      split_and!; [done|done| |by apply sublist_skip].
      intros y. rewrite !elem_of_cons, Hin, elem_of_app, list_elem_of_singleton.
      destruct (decide (y = x)) as [->|Hne]; [tauto|]. tauto.
Qed.

(** [new Set] keeps each value once, in the order of first occurrence. *)
Lemma js_set_spec (l : list string) :
  NoDup (js_set l) /\ (forall x, x ∈ js_set l <-> x ∈ l) /\ sublist (js_set l) l.
Proof.
  destruct (js_set_from [] l (NoDup_nil_2)) as (ext & Heq & Hnd & Hin & Hsub).
  unfold js_set. rewrite Heq. simpl in *. split_and!; [done| |done].
  intros x. rewrite Hin. split; [tauto|]. intros ?. split; [done|]. apply not_elem_of_nil.
Qed.

Lemma filter_two {A} (p q : A -> bool) l :
  (forall x, x ∈ l -> p x = true -> q x = true -> False) ->
  List.filter p l ++ List.filter q l ≡ₚ List.filter (fun x => p x || q x) l.
Proof.
  induction l as [|x l IH]; intros Hdisj; simpl; [done|].
  assert (forall y, y ∈ l -> p y = true -> q y = true -> False) as Hl.
  { intros y Hy. apply Hdisj. by apply list_elem_of_further. }
  specialize (IH Hl).
  destruct (p x) eqn:Hp, (q x) eqn:Hq; simpl.
  - exfalso. eapply Hdisj; [apply list_elem_of_here|done|done].
  - by rewrite IH.
  - by rewrite <- Permutation_middle, IH.
  - done.
Qed.

Lemma filter_all {A} (p : A -> bool) l :
  (forall x, x ∈ l -> p x = true) -> List.filter p l = l.
Proof.
  induction l as [|x l IH]; intros Hall; simpl; [done|].
  rewrite Hall by apply list_elem_of_here. f_equal. apply IH.
  intros y Hy. apply Hall. by apply list_elem_of_further.
Qed.

Lemma groups_partition (ids : list string) (data : list DataItem) :
  NoDup ids ->
  concat ((fun id => List.filter (fun item => String.eqb (item_id item) id) data) <$> ids)
  ≡ₚ List.filter (fun item => bool_decide (item_id item ∈ ids)) data.
Proof.
  induction 1 as [|id ids Hid Hnd IH]; simpl.
  - rewrite filter_none; [done|]. by apply Forall_forall.
  - rewrite IH, filter_two.
    + erewrite filter_ext; [done|]. intros item. simpl.
      destruct (String.eqb_spec (item_id item) id) as [->|Hne]; simpl.
      * symmetry. apply bool_decide_eq_true_2, list_elem_of_here.
      * apply bool_decide_ext. rewrite elem_of_cons. tauto.
    + intros item _ ->%String.eqb_eq ?%bool_decide_eq_true_1. done.
Qed.

Lemma concat_fmap_each {A B C} (f : A -> B) (g : C -> list A) (l : list C) :
  concat ((fun c => f <$> g c) <$> l) = f <$> concat (g <$> l).
Proof.
  induction l as [|c l IH]; [done|].
  rewrite !fmap_cons. cbn [concat]. by rewrite IH, fmap_app.
Qed.

Lemma newData_paths (data : list DataItem) :
  concat (snd <$> newData data) ≡ₚ item_path <$> data.
Proof.
  unfold newData. rewrite <- list_fmap_compose. unfold compose. simpl.
  destruct (js_set_spec (item_id <$> data)) as (Hnd & Hin & _).
  rewrite concat_fmap_each, groups_partition by done.
  rewrite filter_all; [done|].
  intros item Hitem. apply bool_decide_eq_true_2, Hin.
  by apply list_elem_of_fmap_2.
Qed.

Lemma group_of_item (data : list DataItem) (item : DataItem) :
  item ∈ data ->
  let r :=
    group_request
      (item_id item,
       item_path <$> List.filter (fun x => String.eqb (item_id x) (item_id item)) data) in
  r ∈ uploadByDifferentUploaderProfileIds data
  /\ PathFile (item_path item) ∈ files r.
Proof.
  intros Hitem. cbv zeta. split.
  - unfold uploadByDifferentUploaderProfileIds, newData.
    apply list_elem_of_fmap_2.
    apply (list_elem_of_fmap_2
             (fun id => (id, item_path <$> List.filter
                               (fun x => String.eqb (item_id x) id) data))).
    apply (js_set_spec (item_id <$> data)). by apply list_elem_of_fmap_2.
  - simpl. do 2 apply list_elem_of_fmap_2.
    apply list_elem_of_In, filter_In. split; [by apply list_elem_of_In|].
    apply String.eqb_refl.
Qed.

(** X13.  [uploadByDifferentUploaderProfileIds] splits its items into one
    [upload] request for each distinct profile id, made in an order in
    which the ids occur among the items.  Every item is uploaded exactly once: the files of
    all the requests together are the paths of the items, the request for an
    id holds the paths of the items with that id in their original order,
    and no request is empty.  None of the requests is a test or comes from
    the file manager. *)
Theorem grouped_uploads_partition_items (data : list DataItem) :
  let requests := uploadByDifferentUploaderProfileIds data in
  NoDup (customUploaderProfileId <$> requests)
  /\ sublist (customUploaderProfileId <$> requests) (Some <$> (item_id <$> data))
  /\ concat (files <$> requests) ≡ₚ PathFile <$> (item_path <$> data)
  /\ Forall (fun r =>
       files r <> [] /\ isTest r = false /\ testProfile r = None
       /\ isFromFileManage r = false /\ directoryPath r = None
       /\ exists id,
            customUploaderProfileId r = Some id
            /\ files r
               = PathFile <$> (item_path
                   <$> List.filter (fun item => String.eqb (item_id item) id) data))
       requests
  /\ (forall item, item ∈ data ->
        exists r, r ∈ requests
                  /\ customUploaderProfileId r = Some (item_id item)
                  /\ PathFile (item_path item) ∈ files r).
Proof.
  cbv zeta. unfold uploadByDifferentUploaderProfileIds.
  destruct (js_set_spec (item_id <$> data)) as (Hnd & Hin & Hsub).
  assert (customUploaderProfileId <$> (group_request <$> newData data)
          = Some <$> js_set (item_id <$> data)) as Hids.
  { unfold newData. by rewrite <- !list_fmap_compose. }
  split_and!.
  - rewrite Hids. apply (NoDup_fmap_2 _). exact Hnd.
  - rewrite Hids. by apply fmap_sublist.
  - rewrite <- list_fmap_compose. unfold compose. simpl.
    rewrite (concat_fmap_each PathFile snd). by rewrite newData_paths.
  - apply Forall_forall. intros r Hr.
    apply list_elem_of_fmap in Hr as (g & -> & Hg).
    unfold newData in Hg. apply list_elem_of_fmap in Hg as (id & -> & Hid).
    simpl. split_and!; try done; [|by eexists].
    apply Hin, list_elem_of_fmap in Hid as (item & -> & Hitem).
    intros Hnil. destruct (group_of_item data item Hitem) as [_ Hm].
    simpl in Hm. rewrite Hnil in Hm. by apply elem_of_nil in Hm.
  - intros item Hitem. destruct (group_of_item data item Hitem) as [Hr Hm].
    eexists. split_and!; [exact Hr|done|exact Hm].
Qed.

Lemma find_by_id (id : string) (target : option string) (l : list UploaderProfile) :
  target = Some id ->
  List.find (fun p => bool_decide (Some (profile_id p) = target)) l
  = List.find (fun p => String.eqb (profile_id p) id) l.
Proof.
  intros ->. induction l as [|p l IH]; simpl; [done|]. rewrite IH.
  destruct (String.eqb_spec (profile_id p) id) as [->|Hne].
  - by rewrite bool_decide_eq_true_2.
  - rewrite bool_decide_eq_false_2; [done|]. congruence.
Qed.

(** X14.  Each item is uploaded with the first saved profile whose id is the
    item's id.  An item whose id is the empty string is uploaded with the
    default profile instead, because [''] is falsy; and when no saved
    profile has the id of an item, the request of its group ends in the one
    notification ['上传器配置不存在'] without any upload. *)
Theorem grouped_item_profile (w : World) (data : list DataItem) (item : DataItem)
    (schedule : list nat) :
  item ∈ data ->
  exists r,
    r ∈ uploadByDifferentUploaderProfileIds data
    /\ PathFile (item_path item) ∈ files r
    /\ (item_id item <> "" ->
        selectProfile w r
        = List.find (fun p => String.eqb (profile_id p) (item_id item)) (uploaderProfiles w)
        /\ (selectProfile w r = None ->
            upload w r schedule
            = mkState [] [] [] (Some RetFalse)
                [ENotification "上传操作异常" "上传器配置不存在" false]))
    /\ (item_id item = "" ->
        selectProfile w r
        = List.find
            (fun p => bool_decide
               (Some (profile_id p) = defaultUploaderProfileId (configuration w)))
            (uploaderProfiles w)).
Proof.
  intros Hitem. destruct (group_of_item data item Hitem) as [Hr Hfile].
  set (r := group_request _) in *.
  assert (customUploaderProfileId r = Some (item_id item)) as Hid by reflexivity.
  assert (isTest r = false) as Htest by reflexivity.
  exists r. split_and!; [done|done| |].
  - intros Hne.
    assert (truthy (customUploaderProfileId r) = true) as Htruthy.
    { rewrite Hid. simpl. by destruct (String.eqb_spec (item_id item) ""). }
    assert (selectProfile w r
            = List.find (fun p => String.eqb (profile_id p) (item_id item))
                (uploaderProfiles w)) as Hsel.
    { unfold selectProfile. rewrite Htest. apply find_by_id.
      unfold js_or. by rewrite Htruthy. }
    split; [done|]. intros Hnone.
    unfold upload, missing_profile_body. by rewrite Hnone, Htruthy.
  - intros Hempty. unfold selectProfile, js_or. rewrite Htest, Hid, Hempty. done.
Qed.

End Grouping.

(** ** File management *)

Section ManageFacts.

Variable R : Type.
Variable w : World.
Variable extras : UploaderProfile -> Manage.Extras R.

Local Abbreviation getUploader := (Manage.getUploader R w).
Local Abbreviation sends := (Manage.sends R).
Local Abbreviation configures := (Manage.configures R).

(** What the three functions have in common. *)
Lemma forward_contract (id channel : string)
    (call : Manage.Extras R -> option (Manage.Answer R)) :
  let es := (getUploader id).2 ++ Manage.forward R extras channel (getUploader id).1 call in
  length (sends es) <= 1
  /\ (forall c p, (c, p) ∈ sends es -> c = channel)
  /\ (sends es = [] <-> exists m, Manage.Unhandled R m ∈ es)
  /\ configures es = match (getUploader id).1 with Some _ => 1 | None => 0 end
  /\ ((getUploader id).1 = None -> es = [Manage.Send R channel None]).
Proof.
  cbv zeta. unfold Manage.getUploader.
  destruct (List.find _ (uploaderProfiles w)) as [p|]; simpl.
  - destruct (getUploaderByName w (uploaderName p)) as [u|]; simpl.
    + destruct (call (extras p)) as [[res|m]|]; simpl.
      * split_and!; [lia| | |reflexivity|intros [=]].
        -- intros c q [= -> _]%list_elem_of_singleton. reflexivity.
        -- split; [intros [=]|]. intros [m Hm].
           apply elem_of_cons in Hm as [[=]|Hm].
           by apply list_elem_of_singleton in Hm.
      * split_and!; [lia| | |reflexivity|intros [=]].
        -- intros c q []%elem_of_nil.
        -- split; [|reflexivity]. intros _. exists m. apply elem_of_cons. right.
           apply list_elem_of_here.
      * split_and!; [lia| | |reflexivity|intros [=]].
        -- intros c q [= -> _]%list_elem_of_singleton. reflexivity.
        -- split; [intros [=]|]. intros [m Hm].
           apply elem_of_cons in Hm as [[=]|Hm].
           by apply list_elem_of_singleton in Hm.
    + split_and!; [lia| | |reflexivity|reflexivity].
      * intros c q [= -> _]%list_elem_of_singleton. reflexivity.
      * split; [intros [=]|]. intros [m Hm].
        by apply list_elem_of_singleton in Hm.
  - split_and!; [lia| | |reflexivity|reflexivity].
    + intros c q [= -> _]%list_elem_of_singleton. reflexivity.
    + split; [intros [=]|]. intros [m Hm].
      by apply list_elem_of_singleton in Hm.
Qed.

Lemma getFileList_eq id dir :
  Manage.getFileList R w extras id dir
  = (getUploader id).2
    ++ Manage.forward R extras "file-list-get-reply" (getUploader id).1
         (fun e => (fun f => f dir) <$> Manage.getFileList_method R e).
Proof. unfold Manage.getFileList. by destruct (getUploader id). Qed.

Lemma deleteFile_eq id names :
  Manage.deleteFile R w extras id names
  = (getUploader id).2
    ++ Manage.forward R extras "file-delete-reply" (getUploader id).1
         (fun e => (fun f => f names) <$> Manage.deleteFile_method R e).
Proof. unfold Manage.deleteFile. by destruct (getUploader id). Qed.

Lemma createDirectory_eq id dir :
  Manage.createDirectory R w extras id dir
  = (getUploader id).2
    ++ Manage.forward R extras "directory-create-reply" (getUploader id).1
         (fun e => (fun f => f dir) <$> Manage.createDirectory_method R e).
Proof. unfold Manage.createDirectory. by destruct (getUploader id). Qed.

(** X15.  [getFileList], [deleteFile] and [createDirectory] each answer the
    renderer at most once, on their own channel, and they leave it without
    an answer exactly when the adapter's method throws: nothing catches
    that error.  When the profile is unknown or no adapter is registered
    for it, the answer is the empty reply and no adapter is configured;
    otherwise the adapter is configured exactly once. *)
Theorem file_management_replies (id : string) (dir : option string)
    (names : list string) (newdir : string) :
  Forall (fun '(channel, es) =>
            length (sends es) <= 1
            /\ (forall c p, (c, p) ∈ sends es -> c = channel)
            /\ (sends es = [] <-> exists m, Manage.Unhandled R m ∈ es)
            /\ configures es = match (getUploader id).1 with Some _ => 1 | None => 0 end
            /\ ((getUploader id).1 = None -> es = [Manage.Send R channel None]))
    [("file-list-get-reply", Manage.getFileList R w extras id dir);
     ("file-delete-reply", Manage.deleteFile R w extras id names);
     ("directory-create-reply", Manage.createDirectory R w extras id newdir)].
Proof.
  rewrite getFileList_eq, deleteFile_eq, createDirectory_eq.
  repeat apply Forall_cons_2; [apply forward_contract..|apply Forall_nil_2].
Qed.

Lemma find_profile_eq (o : UploadOptions) (id : string) :
  isTest o = false -> customUploaderProfileId o = Some id -> id <> "" ->
  selectProfile w o
  = List.find (fun p => String.eqb (profile_id p) id) (uploaderProfiles w).
Proof.
  intros Htest Hid Hne. unfold selectProfile. rewrite Htest. apply find_by_id.
  unfold js_or. rewrite Hid. simpl. by destruct (String.eqb_spec id "").
Qed.

(** X16.  The file manager and [upload] find their adapter alike: for a
    profile id that is not empty, [getUploader] returns an adapter exactly
    when an upload with that explicit id gets past profile and adapter
    resolution, it is the same profile and the same adapter, and both
    configure it with the same options before anything else. *)
Theorem getUploader_resolves_like_upload (o : UploadOptions) (id : string)
    (schedule : list nat) :
  isTest o = false -> customUploaderProfileId o = Some id -> id <> "" ->
  (getUploader id).1
  = match selectProfile w o with
    | Some p =>
        match getUploaderByName w (uploaderName p) with
        | Some u => Some (p, u)
        | None => None
        end
    | None => None
    end
  /\ ((getUploader id).1 = None <-> returned (upload w o schedule) = Some RetFalse)
  /\ (forall p u,
        (getUploader id).1 = Some (p, u) ->
        (getUploader id).2
        = [Manage.Configure R (uploaderOptions p) (proxy (configuration w))]
        /\ head (events (upload w o schedule))
           = Some (EConfigure (uploaderOptions p) (proxy (configuration w)))).
Proof.
  intros Htest Hid Hne. pose proof (find_profile_eq o id Htest Hid Hne) as Hsel.
  unfold Manage.getUploader, upload. rewrite Hsel.
  destruct (List.find _ (uploaderProfiles w)) as [p|]; simpl;
    [|split_and!; [reflexivity|by split|intros ? ? [=]]].
  destruct (getUploaderByName w (uploaderName p)) as [u|]; simpl;
    [|split_and!; [reflexivity|by split|intros ? ? [=]]].
  split_and!; [reflexivity| |].
  - split; [intros [=]|]. intros Hr. exfalso.
    destruct (run_return w o p u schedule _ Hr) as [[[=] _]|[[=] _]].
  - intros ? ? [= <- <-]. split; [reflexivity|].
    destruct (core_run w o p u schedule) as [_ (rest & -> & _) _ _ _ _ _ _ _].
    reflexivity.
Qed.

End ManageFacts.

(** ** More about [download] *)

Section DownloadMore.
Import Download.

Variable name : string.

Lemma on_error_first m st :
  settled st = false ->
  let st' := on_error m st in
  error st' = Some m /\ settled st' = true
  /\ terminals (sent st') = terminals (sent st) ++ [error_reply m].
Proof.
  intros Hs. unfold on_error, reject. simpl. rewrite Hs. simpl.
  split_and!; [reflexivity|reflexivity|].
  unfold terminals. by rewrite List.filter_app.
Qed.

(** Once the writer has failed, nothing more is said about the download. *)
Lemma pump_after_error total evs st :
  error st <> None -> settled st = true ->
  terminals (sent (pump name total evs st)) = terminals (sent st).
Proof.
  revert st. induction evs as [|ev evs IH]; intros st He Hs; [done|].
  rewrite pump_cons. destruct ev as [c|m|]; cbn [handle].
  - destruct (on_data_quiet name total c st) as (He' & Hs' & Ht).
    rewrite IH; [done|by rewrite He'|by rewrite Hs'].
  - rewrite IH.
    + unfold on_error, reject. simpl. by rewrite Hs.
    + unfold on_error, reject. simpl. by rewrite Hs.
    + unfold on_error, reject. simpl. by rewrite Hs.
  - unfold on_close. destruct (error st) eqn:Herr; [|done]. apply IH; [by rewrite Herr|done].
Qed.

Lemma pump_error_first total evs st m :
  first_settlement evs = Some (Some m) ->
  settled st = false -> error st = None ->
  terminals (sent (pump name total evs st)) = terminals (sent st) ++ [error_reply m].
Proof.
  revert st. induction evs as [|ev evs IH]; intros st Hfirst Hs He; [done|].
  rewrite pump_cons. destruct ev as [c|m'|]; cbn [handle first_settlement] in *.
  - destruct (on_data_quiet name total c st) as (He' & Hs' & Ht).
    rewrite IH; [by rewrite Ht|done|by rewrite Hs'|by rewrite He'].
  - injection Hfirst as ->.
    destruct (on_error_first m st Hs) as (He' & Hs' & Ht).
    rewrite pump_after_error; [done|by rewrite He'|done].
  - discriminate Hfirst.
Qed.

(** With a declared size, a download that has settled says nothing more on
    ['file-download-reply']. *)
Lemma pump_known_settled total evs st :
  settled st = true ->
  terminals (sent (pump name (Some total) evs st)) = terminals (sent st).
Proof.
  revert st. induction evs as [|ev evs IH]; intros st Hs; [done|].
  rewrite pump_cons. destruct ev as [c|m|]; cbn [handle].
  - destruct (on_data_quiet name (Some total) c st) as (_ & Hs' & Ht).
    rewrite IH; [done|by rewrite Hs'].
  - rewrite IH; unfold on_error, reject; simpl; by rewrite Hs.
  - unfold on_close. destruct (error st); [by apply IH|].
    rewrite IH; done.
Qed.

Lemma pump_known_close_first total evs st :
  (forall m, first_settlement evs <> Some (Some m)) ->
  settled st = false -> error st = None ->
  terminals (sent (pump name (Some total) evs st)) = terminals (sent st).
Proof.
  revert st. induction evs as [|ev evs IH]; intros st Hfirst Hs He; [done|].
  rewrite pump_cons. destruct ev as [c|m|]; cbn [handle first_settlement] in *.
  - destruct (on_data_quiet name (Some total) c st) as (He' & Hs' & Ht).
    rewrite IH; [done|done|by rewrite Hs'|by rewrite He'].
  - by destruct (Hfirst m).
  - unfold on_close. rewrite He. by rewrite pump_known_settled.
Qed.

(** X17.  A download that fails says so exactly once.  When the request
    itself fails, or when the writer reports an error before it closes, one
    message is sent on ['file-download-reply'] and it carries the text of
    that first error, or ['下载失败'] if the error has no text, so the text
    is never empty; no "done" message is sent, whatever the streams deliver
    afterwards and whether or not the size was declared. *)
Theorem download_failure_replies_once (total : option N)
    (evs : list StreamEvent) (m : string) :
  first_settlement evs = Some (Some m) ->
  let out := download name (Streams total evs) in
  terminals out = [error_reply m]
  /\ (done ∉ out)
  /\ download name (RequestFails m) = [error_reply m]
  /\ exists text,
       error_reply m = EIpc "file-download-reply" (TextPayload text)
       /\ text <> ""
       /\ (m <> "" -> text = m)
       /\ (m = "" -> text = "下载失败").
Proof.
  intros Hfirst. cbv zeta.
  assert (terminals (download name (Streams total evs)) = [error_reply m]) as Hterm.
  { simpl. by rewrite (pump_error_first total evs initial m). }
  split_and!; [done| |reflexivity|].
  - intros Hdone.
    assert (done ∈ terminals (download name (Streams total evs))) as Hin.
    { unfold terminals. apply list_elem_of_In, filter_In.
      split; [by apply list_elem_of_In|reflexivity]. }
    rewrite Hterm in Hin. apply list_elem_of_singleton in Hin. discriminate Hin.
  - unfold error_reply, or_default. eexists. split; [reflexivity|].
    destruct (String.eqb_spec m "") as [->|Hne]; split_and!; try done.
Qed.

(** X18.  When the response declares its size, a download that succeeds
    sends nothing on ['file-download-reply']: the renderer has only the
    progress messages to go by.  The only message ever sent on that channel
    is the error text, and it is sent exactly when the writer's first
    ['error'] comes before its first ['close']. *)
Theorem download_known_size_replies (total : N) (evs : list StreamEvent) :
  terminals (download name (Streams (Some total) evs))
  = match first_settlement evs with
    | Some (Some m) => [error_reply m]
    | _ => []
    end.
Proof.
  simpl. destruct (first_settlement evs) as [[m|]|] eqn:Hfirst.
  - by rewrite (pump_error_first (Some total) evs initial m).
  - rewrite pump_known_close_first; [done| |done|done]. by rewrite Hfirst.
  - rewrite pump_known_close_first; [done| |done|done]. by rewrite Hfirst.
Qed.

Lemma js_div_ratio (c total : N) :
  total <> 0%N -> (c <= total)%N ->
  exists q, js_div c total = Fin q /\ (0 <= q)%Q /\ (q <= 1)%Q.
Proof.
  intros Hpos Hle. destruct total as [|d]; [done|]. simpl.
  eexists. split; [reflexivity|]. rewrite !Qred_correct.
  unfold Qle. simpl. lia.
Qed.

Lemma js_div_whole (total : N) : total <> 0%N -> js_div total total = Fin 1.
Proof.
  intros Hpos. destruct total as [|d]; [done|]. simpl. f_equal.
  change 1%Q with (Qred 1). apply Qred_complete. unfold Qeq. simpl. lia.
Qed.

(** X19.  The ratio in a progress message is a number between 0 and 1 as
    long as no more bytes have arrived than the response declared, and it
    is exactly 1 in the last message when all of them have arrived.  When
    the declared size is 0 the ratio is never a finite number: it is [NaN]
    or [Infinity]. *)
Theorem download_progress_ratio (total : N) (evs : list StreamEvent) :
  let shown := List.filter is_progress (download name (Streams (Some total) evs)) in
  (total <> 0%N -> Forall (fun c => (c <= total)%N) (received 0 evs) ->
   Forall (fun e => exists q,
             e = EIpc "file-download-progress" (ProgressPayload name (Fin q) name)
             /\ (0 <= q)%Q /\ (q <= 1)%Q) shown)
  /\ (total <> 0%N -> last (received 0 evs) = Some total ->
      last shown
      = Some (EIpc "file-download-progress" (ProgressPayload name (Fin 1) name)))
  /\ (total = 0%N ->
      Forall (fun e =>
                e = EIpc "file-download-progress" (ProgressPayload name NaN name)
                \/ e = EIpc "file-download-progress" (ProgressPayload name PosInf name))
             shown).
Proof.
  cbv zeta. simpl. rewrite pump_known_progress. simpl. split_and!.
  - intros Hpos Hall. apply Forall_forall. intros e He.
    apply list_elem_of_In, in_map_iff in He as (c & <- & Hc).
    apply list_elem_of_In in Hc.
    destruct (js_div_ratio c total Hpos (proj1 (Forall_forall _ _) Hall c Hc))
      as (q & Hq & Hbounds).
    exists q. unfold progress_msg. by rewrite Hq.
  - intros Hpos Hlast.
    change (map (progress_msg name total) (received 0 evs))
      with (progress_msg name total <$> received 0 evs).
    rewrite fmap_last, Hlast. simpl. unfold progress_msg.
    by rewrite js_div_whole.
  - intros ->. apply Forall_forall. intros e He.
    apply list_elem_of_In, in_map_iff in He as (c & <- & _).
    unfold progress_msg. destruct c; simpl; auto.
Qed.

End DownloadMore.

(** ** The properties above at sample requests *)

Section MoreSamples.
Import Sample Sample2.

(** The three items of [items] go out as two requests, the one for [p2]
    first. *)
Example grouped_sample :
  uploadByDifferentUploaderProfileIds items
  = [{| files := [PathFile "a"; PathFile "c"]; customUploaderProfileId := Some "p2";
        directoryPath := None; isFromFileManage := false;
        testProfile := None; isTest := false |};
     {| files := [PathFile "b"]; customUploaderProfileId := Some "p1";
        directoryPath := None; isFromFileManage := false;
        testProfile := None; isTest := false |}].
Proof. reflexivity. Qed.

(** Listing works with the adapter [lister]; deleting gets the empty
    reply, because the adapter has no such method. *)
Example file_management_sample :
  Manage.getFileList (list string) (world2 (Some (parallel (fun _ => ok)))) lister
    "p2" (Some "pics")
  = [Manage.Configure _ [("host", "h")] None;
     Manage.Send _ "file-list-get-reply" (Some ["x"; "y"])]
  /\ Manage.deleteFile (list string) (world2 (Some (parallel (fun _ => ok)))) lister
       "p2" ["x"]
     = [Manage.Configure _ [("host", "h")] None;
        Manage.Send _ "file-delete-reply" None]
  /\ Manage.createDirectory (list string) (world2 None) lister "p2" "pics"
     = [Manage.Send _ "directory-create-reply" None].
Proof. split_and!; reflexivity. Qed.

Lemma parallel_transfers_start_at_once_witness :
  String.eqb (batchUploadMode (parallel second_fails)) "Sequence" = false
  /\ starts (events (upload par_world (request three) [1])) = [0; 1; 2].
Proof.
  split; [reflexivity|].
  exact (proj2 (proj2
    (parallel_transfers_start_at_once par_world (request three) oss
       (parallel second_fails) eq_refl eq_refl [1] eq_refl))).
Defined.

Lemma sequence_one_transfer_at_a_time_witness :
  batchUploadMode (sequence second_fails) = "Sequence"
  /\ uploadQuence (upload seq_world (request three) [0]) !! 1 = Some InFlight
  /\ 0 ∈ pushed (events (upload seq_world (request three) [0])).
Proof.
  split_and!; [reflexivity|reflexivity|].
  exact (proj2
    (sequence_one_transfer_at_a_time seq_world (request three) oss
       (sequence second_fails) eq_refl eq_refl [0] 1 0 eq_refl eq_refl)
    Nat.lt_0_1).
Defined.

Lemma sequence_outcomes_in_submission_order_witness :
  batchUploadMode (sequence second_fails) = "Sequence"
  /\ exists p, pushed (events (upload seq_world (request three) [0; 1])) = seq 0 p
               /\ p <= 3.
Proof.
  split; [reflexivity|].
  destruct (sequence_outcomes_in_submission_order seq_world (request three) oss
              (sequence second_fails) eq_refl eq_refl [0; 1] eq_refl)
    as (p & Hp & Hle & _).
  exists p. split; [exact Hp|exact Hle].
Defined.

Lemma upload_returns_once_transfers_settle_witness :
  quiescent (upload par_world (request three) [2; 0; 1]) = true
  /\ returned (upload par_world (request three) [2; 0; 1]) <> None.
Proof.
  split; [reflexivity|].
  exact (proj1 (upload_returns_once_transfers_settle par_world (request three) [2; 0; 1])
           eq_refl).
Defined.

Lemma upload_return_value_witness :
  returned (upload par_world (request three) [2; 0; 1])
  = Some (RetSuccess (successRes (upload par_world (request three) [2; 0; 1])))
  /\ length (successRes (upload par_world (request three) [2; 0; 1]))
     + length (failRes (upload par_world (request three) [2; 0; 1])) = 3.
Proof.
  split; [reflexivity|].
  exact (proj2 (proj2 (proj2
    (upload_return_value par_world (request three) [2; 0; 1]
       (RetSuccess (successRes (upload par_world (request three) [2; 0; 1])))
       eq_refl)))).
Defined.

Lemma file_upload_reply_only_when_all_answered_witness :
  selectProfile (with_settings settings (parallel second_fails)) (managed three)
  = Some oss
  /\ List.filter is_file_upload_reply
       (events (upload (with_settings settings (parallel second_fails))
                  (managed three) [1; 2; 0]))
     = [EIpc "file-upload-reply" NoPayload].
Proof.
  split; [reflexivity|].
  exact (proj1
    (file_upload_reply_only_when_all_answered
       (with_settings settings (parallel second_fails)) (managed three) oss
       (parallel second_fails) eq_refl eq_refl [1; 2; 0])).
Defined.

Lemma history_reply_when_all_answered_witness :
  getUploaderByName par_world (uploaderName oss) = Some (parallel second_fails)
  /\ List.filter is_history_reply (events (upload par_world (request three) [2; 0; 1]))
     = [EIpc "uploaded-files-get-reply"
          (FilesPayload
             (history_add par_world
                (failRes (upload par_world (request three) [2; 0; 1])
                 ++ successRes (upload par_world (request three) [2; 0; 1]))))].
Proof.
  split; [reflexivity|].
  pose proof (history_reply_when_all_answered par_world (request three) oss
                (parallel second_fails) eq_refl eq_refl [2; 0; 1]) as H.
  cbv zeta in H.
  assert (forallb is_fulfilled (uploadQuence (upload par_world (request three) [2; 0; 1]))
          && negb (win_isDestroyed par_world) = true) as Hall by reflexivity.
  rewrite Hall in H. exact H.
Defined.

Lemma test_reply_once_witness :
  isTest test_request = true
  /\ 1 <= length (files test_request)
  /\ List.filter is_test_reply
       (events (upload (world (Some (parallel (fun _ => ok)))) test_request [0]))
     = [EIpc "uploader-profile-test-reply" (BoolPayload true)].
Proof.
  split_and!; [reflexivity|apply le_n|].
  exact (test_reply_once (world (Some (parallel (fun _ => ok)))) test_request
           {| profile_id := "t"; uploaderName := "oss"; uploaderOptions := [] |}
           (parallel (fun _ => ok)) eq_refl eq_refl [0] eq_refl (le_n 1)).
Defined.

Lemma batch_summary_counts_witness :
  1 < length (files (request three))
  /\ forallb is_fulfilled (uploadQuence (upload par_world (request three) [2; 0; 1])) = true
  /\ List.filter (fun e => is_notification e || is_clipboard e)
       (events (upload par_world (request three) [2; 0; 1]))
     = [ENotification "批量上传结束" "成功2个，失败1个" false].
Proof.
  assert (1 < length (files (request three))) as Hn by (simpl; lia).
  split_and!; [exact Hn|reflexivity|].
  exact (proj1 (proj2
    (batch_summary_counts par_world (request three) oss (parallel second_fails)
       eq_refl eq_refl [2; 0; 1] Hn eq_refl))).
Defined.

Lemma single_upload_clipboard_round_trip_witness :
  known_urlType (urlType copy_settings) = true
  /\ autoCopy copy_settings = true
  /\ clipboard_after "x"
       (events (upload (with_settings copy_settings (parallel (fun _ => ok)))
                  (request one) [0]))
     = "![https://cdn.example.com/f](https://cdn.example.com/f)"
  /\ clipboard_after "x"
       (events (upload (with_settings copy_settings (parallel (fun _ => ok)))
                  (request one) [0])
        ++ flat_map timer_fires
             (events (upload (with_settings copy_settings (parallel (fun _ => ok)))
                        (request one) [0])))
     = "previous text".
Proof.
  pose proof (single_upload_clipboard_round_trip
                (with_settings copy_settings (parallel (fun _ => ok))) (request one)
                oss (parallel (fun _ => ok)) (PathFile "a.png")
                eq_refl eq_refl eq_refl [0] link "x" eq_refl
                (list_elem_of_here 0 []) eq_refl eq_refl) as (_ & Hlink & Hback & _).
  split_and!; [reflexivity|reflexivity|exact Hlink|exact (proj1 (Hback eq_refl))].
Defined.

Lemma single_upload_unknown_format_is_silent_witness :
  known_urlType (urlType odd_settings) = false
  /\ List.filter (fun e => is_notification e || is_clipboard e)
       (events (upload (with_settings odd_settings (parallel (fun _ => ok)))
                  (request one) [0]))
     = [].
Proof.
  split; [reflexivity|].
  exact (proj1
    (single_upload_unknown_format_is_silent
       (with_settings odd_settings (parallel (fun _ => ok))) (request one)
       oss (parallel (fun _ => ok)) (PathFile "a.png")
       eq_refl eq_refl eq_refl [0] link eq_refl (list_elem_of_here 0 []) eq_refl)).
Defined.

Lemma single_upload_failure_is_shown_witness :
  transfer (parallel refuses) 0 = Resolves (FailResponse None)
  /\ List.filter (fun e => is_notification e || is_clipboard e)
       (events (upload (with_settings copy_settings (parallel refuses))
                  (request one) [0]))
     = [ENotification "上传失败" "错误未捕获" false].
Proof.
  split; [reflexivity|].
  exact (proj1
    (single_upload_failure_is_shown
       (with_settings copy_settings (parallel refuses)) (request one)
       oss (parallel refuses) (PathFile "a.png")
       eq_refl eq_refl eq_refl [0] None eq_refl (list_elem_of_here 0 []))).
Defined.

Lemma transfers_carry_their_own_file_witness :
  ETransferStart 1 (uploadArgs seq_world (request three) (PathFile "b.txt"))
    ∈ events (upload seq_world (request three) [0])
  /\ exists file,
       files (request three) !! 1 = Some file
       /\ a_file (uploadArgs seq_world (request three) (PathFile "b.txt"))
          = match file with
            | PathFile p => inl p
            | BufferFile f => inr (buffer f)
            end.
Proof.
  assert (ETransferStart 1 (uploadArgs seq_world (request three) (PathFile "b.txt"))
            ∈ events (upload seq_world (request three) [0])) as Hin.
  { apply list_elem_of_In. vm_compute. auto 20. }
  split; [exact Hin|].
  destruct (transfers_carry_their_own_file seq_world (request three) oss
              (sequence second_fails) eq_refl eq_refl [0] 1 _ Hin)
    as (_ & file & Hfile & Hcontent & _).
  exists file. split; [exact Hfile|exact Hcontent].
Defined.

Lemma sequence_throw_abandons_later_files_witness :
  batchUploadMode (sequence first_throws) = "Sequence"
  /\ transfer (sequence first_throws) 0 = Rejects "socket hang up"
  /\ (2 ∉ starts (events (upload (world (Some (sequence first_throws)))
                            (request three) [0; 1; 2]))).
Proof.
  split_and!; [reflexivity|reflexivity|].
  assert (0 < 2) as Hlt by lia.
  exact (proj1
    (sequence_throw_abandons_later_files (world (Some (sequence first_throws)))
       (request three) oss (sequence first_throws) eq_refl eq_refl
       [0; 1; 2] 0 2 "socket hang up" eq_refl eq_refl Hlt)).
Defined.

Lemma grouped_item_profile_witness :
  {| item_id := "p2"; item_path := "c" |} ∈ items
  /\ exists r,
       r ∈ uploadByDifferentUploaderProfileIds items
       /\ PathFile "c" ∈ files r
       /\ selectProfile (world2 None) r = Some badge.
Proof.
  assert ({| item_id := "p2"; item_path := "c" |} ∈ items) as Hin.
  { apply list_elem_of_In. vm_compute. auto. }
  split; [exact Hin|].
  destruct (grouped_item_profile (world2 None) items _ [] Hin)
    as (r & Hr & Hfile & Hnamed & _).
  exists r. split_and!; [exact Hr|exact Hfile|].
  assert ("p2" <> "") as Hne by discriminate.
  exact (proj1 (Hnamed Hne)).
Defined.

Lemma getUploader_resolves_like_upload_witness :
  isTest (managed three) = false
  /\ customUploaderProfileId (managed three) = Some "p1"
  /\ (Manage.getUploader unit (world2 (Some (parallel (fun _ => ok)))) "p1").1
     = Some (oss, parallel (fun _ => ok)).
Proof.
  split_and!; [reflexivity|reflexivity|].
  assert ("p1" <> "") as Hne by discriminate.
  exact (proj1
    (getUploader_resolves_like_upload unit (world2 (Some (parallel (fun _ => ok))))
       (managed three) "p1" [] eq_refl eq_refl Hne)).
Defined.

Lemma download_failure_replies_once_witness :
  first_settlement
    [Download.Data 10; Download.WriterError "disk full"; Download.WriterClose]
  = Some (Some "disk full")
  /\ Download.terminals
       (Download.download "f.bin"
          (Download.Streams (Some 100%N)
             [Download.Data 10; Download.WriterError "disk full"; Download.WriterClose]))
     = [EIpc "file-download-reply" (TextPayload "disk full")].
Proof.
  split; [reflexivity|].
  exact (proj1
    (download_failure_replies_once "f.bin" (Some 100%N)
       [Download.Data 10; Download.WriterError "disk full"; Download.WriterClose]
       "disk full" eq_refl)).
Defined.

Lemma download_progress_ratio_witness :
  last (Download.received 0
          [Download.Data 400; Download.Data 600; Download.WriterClose])
  = Some 1000%N
  /\ last (List.filter Download.is_progress
             (Download.download "f.bin"
                (Download.Streams (Some 1000%N)
                   [Download.Data 400; Download.Data 600; Download.WriterClose])))
     = Some (EIpc "file-download-progress" (ProgressPayload "f.bin" (Fin 1) "f.bin")).
Proof.
  assert (1000%N <> 0%N) as Hpos by discriminate.
  split; [reflexivity|].
  exact (proj1 (proj2
    (download_progress_ratio "f.bin" 1000%N
       [Download.Data 400; Download.Data 600; Download.WriterClose])) Hpos eq_refl).
Defined.

End MoreSamples.
